(** * match: ranking an item against a query string

    A shallow embedding of the ranking module (rankItem, getMatchRanking,
    getClosenessRanking, compareItems and the accessor helpers) together
    with the part of the host language it runs on: strings of UTF-16 code
    units, numbers with infinities and NaN, a backtracking RegExp engine
    in the style of the ECMAScript specification, and a store for the
    objects that rankItem is given by reference. *)

From Stdlib Require Import List Bool Arith ZArith NArith QArith Lia.
From Stdlib Require Import Ascii String.
Import ListNotations.

Set Implicit Arguments.
Open Scope Z_scope.

(** ** Strings

    A string of the host language is a sequence of 16-bit code units.
    Literals are written as UTF-8 text and decoded by [js]. *)

Module JsString.

Definition code_unit := N.
Definition t := list code_unit.

Definition cont_bits (b : N) : N := N.land b 63.

(** Code points of a UTF-8 byte sequence (ill-formed bytes are kept as
    they are). *)
Fixpoint utf8_code_points (bs : list N) : list N :=
  match bs with
  | [] => []
  | b0 :: r0 =>
    if (b0 <? 128)%N then b0 :: utf8_code_points r0
    else match r0 with
    | [] => [b0]
    | b1 :: r1 =>
      if (b0 <? 224)%N
      then (N.land b0 31 * 64 + cont_bits b1)%N :: utf8_code_points r1
      else match r1 with
      | [] => [b0; b1]
      | b2 :: r2 =>
        if (b0 <? 240)%N
        then (N.land b0 15 * 4096 + cont_bits b1 * 64 + cont_bits b2)%N
               :: utf8_code_points r2
        else match r2 with
        | [] => [b0; b1; b2]
        | b3 :: r3 =>
          (N.land b0 7 * 262144 + cont_bits b1 * 4096
             + cont_bits b2 * 64 + cont_bits b3)%N :: utf8_code_points r3
        end
      end
    end
  end.

(** UTF-16 encoding of one code point. *)
Definition utf16_units (cp : N) : list code_unit :=
  if (cp <? 65536)%N then [cp]
  else let v := (cp - 65536)%N in
       [(55296 + N.shiftr v 10)%N; (56320 + N.land v 1023)%N].

Definition bytes_of (s : string) : list N :=
  List.map N_of_ascii (list_ascii_of_string s).

Definition js (s : string) : t :=
  List.flat_map utf16_units (utf8_code_points (bytes_of s)).

(** The unit of a one-unit literal. *)
Definition unit_of (s : string) : code_unit := hd 0%N (js s).

Definition length (s : t) : Z := Z.of_nat (List.length s).

(** [s[i]]: the code unit at index [i], or undefined. *)
Definition at_index (s : t) (i : Z) : option code_unit :=
  if i <? 0 then None else nth_error s (Z.to_nat i).

(** [s.substring(a, b)] for [0 <= a <= b]. *)
Definition substring (s : t) (a b : nat) : t := firstn (b - a) (skipn a s).

(** [s.split(``)]: the one-unit strings of [s]. *)
Definition split_units (s : t) : list t := List.map (fun c => [c]) s.

End JsString.

Definition jsstring := JsString.t.
Definition js := JsString.js.

(** ** Exceptions

    A computation of the host language returns normally or throws.  The
    third outcome marks an input that leaves the modelled fragment of the
    language (see [RegExp.tokens]); nothing is claimed about it. *)

Inductive exn := SyntaxError | TypeError.

Inductive outcome (A : Type) : Type :=
| Ok (a : A)
| Throw (e : exn)
| OutOfModel.

Arguments Ok {A} a.
Arguments Throw {A} e.
Arguments OutOfModel {A}.

Definition bind {A B} (m : outcome A) (k : A -> outcome B) : outcome B :=
  match m with
  | Ok a => k a
  | Throw e => Throw e
  | OutOfModel => OutOfModel
  end.

Notation "'let*' x ':=' m 'in' k" := (bind m (fun x => k))
  (at level 10, x pattern, m at level 100, k at level 200).

(** ** Numbers

    Numbers are rationals extended with the two infinities and NaN, and
    are not rounded.  The ranks, indexes and lengths of the program are
    small integers, which floating point has exactly.  Its only quotient
    is the closeness (count / length) * (1 / spread) with count = length:
    floating point gives the double nearest to 1 / spread, and distinct
    spreads below 2^51 give distinct doubles in the same order (two
    neighbours 1 / (n - 1) and 1 / n are then more than one unit in the
    last place apart; the spread of two strings is far smaller), so the
    comparisons of two closeness values, and the sign of their
    difference, are those of the exact values.  The zero of a division
    is the positive zero, the only one the program divides by. *)

Module JsNumber.

Inductive t := NaN | NegInfinity | Finite (q : Q) | PosInfinity.

Definition of_Z (z : Z) : t := Finite (inject_Z z).

Definition neg (a : t) : t :=
  match a with
  | NaN => NaN
  | NegInfinity => PosInfinity
  | Finite q => Finite (Qred (- q))
  | PosInfinity => NegInfinity
  end.

Definition add (a b : t) : t :=
  match a, b with
  | NaN, _ | _, NaN => NaN
  | PosInfinity, NegInfinity | NegInfinity, PosInfinity => NaN
  | PosInfinity, _ | _, PosInfinity => PosInfinity
  | NegInfinity, _ | _, NegInfinity => NegInfinity
  | Finite x, Finite y => Finite (Qred (x + y))
  end.

Definition sub (a b : t) : t := add a (neg b).

Definition mul (a b : t) : t :=
  match a, b with
  | NaN, _ | _, NaN => NaN
  | Finite x, Finite y => Finite (Qred (x * y))
  | Finite x, PosInfinity | PosInfinity, Finite x =>
    match (x ?= 0)%Q with Eq => NaN | Lt => NegInfinity | Gt => PosInfinity end
  | Finite x, NegInfinity | NegInfinity, Finite x =>
    match (x ?= 0)%Q with Eq => NaN | Lt => PosInfinity | Gt => NegInfinity end
  | PosInfinity, PosInfinity | NegInfinity, NegInfinity => PosInfinity
  | PosInfinity, NegInfinity | NegInfinity, PosInfinity => NegInfinity
  end.

Definition div (a b : t) : t :=
  match a, b with
  | NaN, _ | _, NaN => NaN
  | Finite x, Finite y =>
    match (y ?= 0)%Q with
    | Eq => match (x ?= 0)%Q with
            | Eq => NaN | Lt => NegInfinity | Gt => PosInfinity
            end
    | _ => Finite (Qred (x / y))
    end
  | Finite _, _ => Finite 0
  | PosInfinity, Finite y =>
    match (y ?= 0)%Q with Lt => NegInfinity | _ => PosInfinity end
  | NegInfinity, Finite y =>
    match (y ?= 0)%Q with Lt => PosInfinity | _ => NegInfinity end
  | _, _ => NaN
  end.

(** [a < b]; every comparison with NaN is false. *)
Definition ltb (a b : t) : bool :=
  match a, b with
  | NaN, _ | _, NaN => false
  | _, NegInfinity => false
  | NegInfinity, _ => true
  | PosInfinity, _ => false
  | _, PosInfinity => true
  | Finite x, Finite y => match (x ?= y)%Q with Lt => true | _ => false end
  end.

Definition gtb (a b : t) : bool := ltb b a.

(** [a == b] on numbers. *)
Definition eqb (a b : t) : bool :=
  match a, b with
  | NegInfinity, NegInfinity | PosInfinity, PosInfinity => true
  | Finite x, Finite y => Qeq_bool x y
  | _, _ => false
  end.

(** [a >= b]. *)
Definition geb (a b : t) : bool :=
  match a, b with
  | NaN, _ | _, NaN => false
  | _, _ => negb (ltb a b)
  end.

(** [Math.min(a, b)]. *)
Definition min (a b : t) : t :=
  match a, b with
  | NaN, _ | _, NaN => NaN
  | _, _ => if ltb b a then b else a
  end.

Definition is_finite (a : t) : bool :=
  match a with Finite _ => true | _ => false end.

Definition zero : t := of_Z 0.
Definition one : t := of_Z 1.

End JsNumber.

(** ** Regular expressions

    The program builds every pattern at run time from the query, so the
    model has the engine itself: a lexer and parser for pattern text, and
    the backtracking matcher of the language specification (matchers in
    continuation-passing style, captures, greedy and lazy quantifiers),
    without the unicode, multiline, dotAll and sticky flags, which the
    program never sets.

    Modelled pattern syntax: literal units, [.], [^], [$], [|], groups
    [( )] and [(?: )], the quantifiers [*], [+], [?] and their lazy forms,
    the class escapes [\s \S \d \D \w \W] and escaped punctuation.
    Character classes [[ ]], braces, look-around, named groups and the
    remaining letter and digit escapes are outside the fragment: a pattern
    that reaches one of them is [OutOfModel]. *)

Module RegExp.

Definition code_unit := JsString.code_unit.
Definition unit_of := JsString.unit_of.

Inductive class_escape := ClassS | ClassD | ClassW.

Inductive node :=
| Empty
| Char (ch : code_unit)
| Any
| Class (invert : bool) (k : class_escape)
| LineStart
| LineEnd
| Seq (a b : node)
| Alt (a b : node)
| Group (n : nat) (a : node)
| Repeat (a : node) (min : nat) (max : option nat) (greedy : bool).

(** *** Lexer *)

Inductive token :=
| TAtom (a : node)
| TAssert (a : node)
| TOpen (capture : bool)
| TClose
| TBar
| TQuant (min : nat) (max : option nat) (greedy : bool)
| TSyntaxError
| TOutOfModel.

Definition in_range (lo hi c : N) : bool := ((lo <=? c) && (c <=? hi))%N.

Definition is_ascii_alnum (c : N) : bool :=
  in_range (unit_of "0") (unit_of "9") c
  || in_range (unit_of "A") (unit_of "Z") c
  || in_range (unit_of "a") (unit_of "z") c.

(** The unit after a backslash. *)
Definition escape_token (e : code_unit) : token :=
  if (e =? unit_of "s")%N then TAtom (Class false ClassS)
  else if (e =? unit_of "S")%N then TAtom (Class true ClassS)
  else if (e =? unit_of "d")%N then TAtom (Class false ClassD)
  else if (e =? unit_of "D")%N then TAtom (Class true ClassD)
  else if (e =? unit_of "w")%N then TAtom (Class false ClassW)
  else if (e =? unit_of "W")%N then TAtom (Class true ClassW)
  else if is_ascii_alnum e then TOutOfModel
  else TAtom (Char e).

(** A unit that starts neither an escape, nor a group, nor a quantifier. *)
Definition plain_token (c : code_unit) : token :=
  if (c =? unit_of "^")%N then TAssert LineStart
  else if (c =? unit_of "$")%N then TAssert LineEnd
  else if (c =? unit_of ".")%N then TAtom Any
  else if (c =? unit_of ")")%N then TClose
  else if (c =? unit_of "|")%N then TBar
  else if (c =? unit_of "[")%N then TOutOfModel
  else if (c =? unit_of "{")%N then TOutOfModel
  else TAtom (Char c).

(** The bounds of [*], [+] and [?]. *)
Definition quantifier (c : code_unit) : option (nat * option nat) :=
  if (c =? unit_of "*")%N then Some (0%nat, None)
  else if (c =? unit_of "+")%N then Some (1%nat, None)
  else if (c =? unit_of "?")%N then Some (0%nat, Some 1%nat)
  else None.

(** Tokens of a pattern.  A [?] right after a quantifier makes it lazy;
    lexing stops at the first error or unmodelled construct. *)
Fixpoint tokens (p : list code_unit) : list token :=
  match p with
  | [] => []
  | c :: r =>
    if (c =? unit_of "\")%N then
      match r with
      | [] => [TSyntaxError]
      | e :: r' => escape_token e :: tokens r'
      end
    else if (c =? unit_of "(")%N then
      match r with
      | q :: r1 =>
        if (q =? unit_of "?")%N then
          match r1 with
          | k :: r2 => if (k =? unit_of ":")%N then TOpen false :: tokens r2
                       else [TOutOfModel]
          | [] => [TOutOfModel]
          end
        else TOpen true :: tokens r
      | [] => TOpen true :: tokens r
      end
    else
      match quantifier c with
      | Some (min, max) =>
        match r with
        | q :: r' => if (q =? unit_of "?")%N then TQuant min max false :: tokens r'
                     else TQuant min max true :: tokens r
        | [] => [TQuant min max true]
        end
      | None => plain_token c :: tokens r
      end
  end.

(** *** Parser *)

(** A term of an alternative; [t_atom] says whether a quantifier may
    follow it. *)
Record term := { t_node : node; t_atom : bool }.

(** An open group: the finished alternatives and the terms of the current
    one, both last first. *)
Record frame := {
  f_capture : option nat;
  f_alts : list node;
  f_seq : list term
}.

Definition new_frame (capture : option nat) : frame :=
  {| f_capture := capture; f_alts := []; f_seq := [] |}.

Fixpoint seq_of (ts : list term) (acc : node) : node :=
  match ts with
  | [] => acc
  | t :: r => seq_of r (Seq (t_node t) acc)
  end.

Definition alternative (ts : list term) : node :=
  match ts with
  | [] => Empty
  | t :: r => seq_of r (t_node t)
  end.

Fixpoint alt_of (alts : list node) (acc : node) : node :=
  match alts with
  | [] => acc
  | a :: r => alt_of r (Alt a acc)
  end.

Definition disjunction (f : frame) : node :=
  alt_of (f_alts f) (alternative (f_seq f)).

Definition push_term (f : frame) (a : node) (atom : bool) : frame :=
  {| f_capture := f_capture f; f_alts := f_alts f;
     f_seq := {| t_node := a; t_atom := atom |} :: f_seq f |}.

Definition next_alternative (f : frame) : frame :=
  {| f_capture := f_capture f;
     f_alts := alternative (f_seq f) :: f_alts f;
     f_seq := [] |}.

Definition close_group (f : frame) : node :=
  match f_capture f with
  | Some n => Group n (disjunction f)
  | None => disjunction f
  end.

(** [groups] counts the capturing groups opened so far; they are numbered
    from 1 in the order of their left parentheses. *)
Fixpoint parse_tokens (ts : list token) (groups : nat) (cur : frame)
  (stack : list frame) : outcome (node * nat) :=
  match ts with
  | [] =>
    match stack with
    | [] => Ok (disjunction cur, groups)
    | _ :: _ => Throw SyntaxError
    end
  | TAtom a :: r => parse_tokens r groups (push_term cur a true) stack
  | TAssert a :: r => parse_tokens r groups (push_term cur a false) stack
  | TOpen true :: r =>
    parse_tokens r (S groups) (new_frame (Some (S groups))) (cur :: stack)
  | TOpen false :: r => parse_tokens r groups (new_frame None) (cur :: stack)
  | TClose :: r =>
    match stack with
    | [] => Throw SyntaxError
    | parent :: stack' =>
      parse_tokens r groups (push_term parent (close_group cur) true) stack'
    end
  | TBar :: r => parse_tokens r groups (next_alternative cur) stack
  | TQuant min max greedy :: r =>
    match f_seq cur with
    | {| t_node := a; t_atom := true |} :: before =>
      parse_tokens r groups
        {| f_capture := f_capture cur; f_alts := f_alts cur;
           f_seq := {| t_node := Repeat a min max greedy; t_atom := false |}
                      :: before |} stack
    | _ => Throw SyntaxError
    end
  | TSyntaxError :: _ => Throw SyntaxError
  | TOutOfModel :: _ => OutOfModel
  end.

Definition parse (pattern : jsstring) : outcome (node * nat) :=
  parse_tokens (tokens pattern) 0%nat (new_frame None) [].

(** *** Character sets *)

Fixpoint units_from (lo : N) (count : nat) : list code_unit :=
  match count with
  | O => []
  | S n => lo :: units_from (N.succ lo) n
  end.

(** White space and line terminators, the members of [\s]. *)
Definition white_space : list code_unit :=
  [9; 10; 11; 12; 13; 32; 160; 5760]%N ++ units_from 8192 11
    ++ [8232; 8233; 8239; 8287; 12288; 65279]%N.

Definition digits : list code_unit := units_from 48 10.

Definition word_characters : list code_unit :=
  units_from 97 26 ++ units_from 65 26 ++ digits ++ [95%N].

Definition class_members (k : class_escape) : list code_unit :=
  match k with
  | ClassS => white_space
  | ClassD => digits
  | ClassW => word_characters
  end.

Definition is_line_terminator (c : code_unit) : bool :=
  ((c =? 10) || (c =? 13) || (c =? 8232) || (c =? 8233))%N.

Definition ascii_upper (c : code_unit) : code_unit :=
  if in_range (unit_of "a") (unit_of "z") c then (c - 32)%N else c.

(** *** Matcher *)

Definition captures := list (option (nat * nat)).

Record state := { endIndex : nat; caps : captures }.

Fixpoint set_capture (n : nat) (v : option (nat * nat)) (cs : captures)
  : captures :=
  match n, cs with
  | _, [] => []
  | O, c :: r => c :: r
  | S O, _ :: r => v :: r
  | S n', c :: r => c :: set_capture n' v r
  end.

(** The numbers of the capturing groups inside a node. *)
Fixpoint groups_of (r : node) : list nat :=
  match r with
  | Seq a b | Alt a b => groups_of a ++ groups_of b
  | Group n a => n :: groups_of a
  | Repeat a _ _ _ => groups_of a
  | _ => []
  end.

Definition clear_captures (ns : list nat) (cs : captures) : captures :=
  fold_left (fun acc n => set_capture n None acc) ns cs.

Section Matcher.

(** The upper-case mapping of the host language on a one-unit string
    whose unit is 128 or more, as a string. The mapping on smaller units
    is [ascii_upper]. *)
Variable toUpperCase : code_unit -> list code_unit.

Variable input : jsstring.
Variable ignoreCase : bool.

(** Canonicalize of the specification, for a pattern with the ignoreCase
    flag and without the unicode flag. *)
Definition canonicalize (ch : code_unit) : code_unit :=
  if (ch <? 128)%N then ascii_upper ch
  else match toUpperCase ch with
       | [cu] => if (cu <? 128)%N then ch else cu
       | _ => ch
       end.

(** Whether pattern unit [a] and input unit [ch] are the same unit after
    canonicalization.  A unit below 128 and one above never are, which is
    decided without a look at the mapping (see [same_unit_canonicalize]). *)
Definition same_unit (a ch : code_unit) : bool :=
  if ignoreCase then
    if ((a <? 128) && (ch <? 128))%N then (ascii_upper a =? ascii_upper ch)%N
    else if ((a <? 128) || (ch <? 128))%N then false
    else (canonicalize a =? canonicalize ch)%N
  else (a =? ch)%N.

(** Whether the input unit belongs to the set of an atom.  The dot takes
    every unit but the line terminators (no unit is mapped to or from a
    line terminator by the upper-case mapping). *)
Definition in_set (r : node) (ch : code_unit) : bool :=
  match r with
  | Char a => same_unit a ch
  | Any => negb (is_line_terminator ch)
  | Class invert k =>
    xorb invert (existsb (fun a => same_unit a ch) (class_members k))
  | _ => false
  end.

Definition advance (x : state) : state :=
  {| endIndex := S (endIndex x); caps := caps x |}.

Definition or_else (a : option state) (b : unit -> option state)
  : option state :=
  match a with
  | Some z => Some z
  | None => b tt
  end.

Definition continuation := state -> option state.

(** The matcher of a quantified atom (RepeatMatcher of the language
    specification): [m] is the matcher of the atom, [inner] are its
    capturing groups, which every iteration clears.  An iteration past
    the minimum must consume input.  [bound] limits the number of
    iterations, so that the function is total; see [matcher]. *)
Fixpoint iterate (m : state -> continuation -> option state)
  (inner : list nat) (greedy : bool) (c : continuation) (bound : nat)
  (min : nat) (max : option nat) (x : state) {struct bound} : option state :=
  match bound with
  | O => None
  | S bound' =>
    match max with
    | Some O => c x
    | _ =>
      let d := fun y : state =>
        if ((min =? 0) && (endIndex y =? endIndex x))%nat then None
        else iterate m inner greedy c bound' (Nat.pred min)
               (option_map Nat.pred max) y in
      let xr := {| endIndex := endIndex x;
                   caps := clear_captures inner (caps x) |} in
      if (min =? 0)%nat then
        if greedy then or_else (m xr d) (fun _ => c x)
        else or_else (c x) (fun _ => m xr d)
      else m xr d
    end
  end.

(** [matcher rounds r x c]: match [r] at state [x], then continue with
    [c]; the result is the final state or failure.  A quantifier with
    minimum [min] may run [rounds + min + 1] iterations.  At end index
    [e] it needs at most [min + (length input - e) + 1], so with
    [rounds = length input], which the operations below pass, no match is
    cut short: every larger number gives the same result
    ([matcher_rounds]). *)
Fixpoint matcher (rounds : nat) (r : node) (x : state) (c : continuation)
  {struct r} : option state :=
  match r with
  | Empty => c x
  | Char _ | Any | Class _ _ =>
    match nth_error input (endIndex x) with
    | Some ch => if in_set r ch then c (advance x) else None
    | None => None
    end
  | LineStart => if (endIndex x =? 0)%nat then c x else None
  | LineEnd =>
    if (endIndex x =? List.length input)%nat then c x else None
  | Seq a b => matcher rounds a x (fun y => matcher rounds b y c)
  | Alt a b =>
    or_else (matcher rounds a x c) (fun _ => matcher rounds b x c)
  | Group n a =>
    matcher rounds a x (fun y =>
      c {| endIndex := endIndex y;
           caps := set_capture n (Some (endIndex x, endIndex y)) (caps y) |})
  | Repeat a min max greedy =>
    iterate (matcher rounds a) (groups_of a) greedy c (S (rounds + min))
      min max x
  end.

(** One attempt at start index [i]. *)
Definition match_at (r : node) (groups : nat) (i : nat) : option state :=
  matcher (List.length input) r {| endIndex := i; caps := repeat None groups |}
    (fun y => Some y).

(** Start indexes [i], [i+1], ... are tried in turn, [n] of them. *)
Fixpoint scan (r : node) (groups : nat) (n : nat) (i : nat)
  : option (nat * state) :=
  match n with
  | O => None
  | S n' =>
    match match_at r groups i with
    | Some y => Some (i, y)
    | None => scan r groups n' (S i)
    end
  end.

(** The match found from [lastIndex] on, with its start index. *)
Definition exec_from (r : node) (groups : nat) (lastIndex : nat)
  : option (nat * state) :=
  scan r groups (S (List.length input) - lastIndex) lastIndex.

End Matcher.

(** *** RegExp objects and the operations the program calls *)

Record flags := { global : bool; ignore_case : bool }.

Definition no_flags : flags := {| global := false; ignore_case := false |}.
Definition flag_i : flags := {| global := false; ignore_case := true |}.
Definition flag_g : flags := {| global := true; ignore_case := false |}.

Record t := { body : node; group_count : nat; flags_of : flags }.

(** [new RegExp(pattern, flags)]. *)
Definition new_RegExp (pattern : jsstring) (f : flags) : outcome t :=
  let* (r, n) := parse pattern in
  Ok {| body := r; group_count := n; flags_of := f |}.

(** The array returned by a successful [exec]: [index] is the start of
    the match, [whole] is element 0 and [groups] are the elements from 1
    on, undefined for a group that took no part in the match. *)
Record match_array := {
  index : Z;
  whole : jsstring;
  groups : list (option jsstring)
}.

Section Operations.

Variable toUpperCase : code_unit -> list code_unit.

Definition capture_text (input : jsstring) (c : option (nat * nat))
  : option jsstring :=
  option_map (fun '(a, b) => JsString.substring input a b) c.

Definition match_array_of (input : jsstring) (found : nat * state)
  : match_array :=
  let '(i, y) := found in
  {| index := Z.of_nat i;
     whole := JsString.substring input i (endIndex y);
     groups := List.map (capture_text input) (caps y) |}.

(** [re.exec(input)] for a pattern without the global flag: the search
    starts at index 0. *)
Definition exec (re : t) (input : jsstring) : option match_array :=
  option_map (match_array_of input)
    (exec_from toUpperCase input (ignore_case (flags_of re)) (body re)
       (group_count re) 0).

(** [re.test(input)]. *)
Definition test (re : t) (input : jsstring) : bool :=
  match exec re input with Some _ => true | None => false end.

(** The loop of [input.replace(re, replacement)] for a global [re]: each
    match is searched from the last index, which moves to the end of the
    match and one further after an empty match. [bound] counts the
    rounds; the last index grows in each, so [length input + 2] rounds
    always reach the end. *)
Fixpoint replace_loop (re : t) (input replacement : jsstring) (bound : nat)
  (lastIndex nextSourcePosition : nat) (accumulated : jsstring) : jsstring :=
  match bound with
  | O => accumulated ++ skipn nextSourcePosition input
  | S bound' =>
    match exec_from toUpperCase input (ignore_case (flags_of re)) (body re)
            (group_count re) lastIndex with
    | None => accumulated ++ skipn nextSourcePosition input
    | Some (position, y) =>
      let e := endIndex y in
      let lastIndex' := if (e =? position)%nat then S e else e in
      if (nextSourcePosition <=? position)%nat then
        replace_loop re input replacement bound' lastIndex' e
          (accumulated
             ++ JsString.substring input nextSourcePosition position
             ++ replacement)
      else
        replace_loop re input replacement bound' lastIndex'
          nextSourcePosition accumulated
    end
  end.

(** [input.replace(re, replacement)] for a global [re] and a replacement
    text without [$], which is inserted as it is. *)
Definition replace (input : jsstring) (re : t) (replacement : jsstring)
  : outcome jsstring :=
  if existsb (N.eqb (unit_of "$")) replacement then OutOfModel
  else if negb (global (flags_of re)) then OutOfModel
  else Ok (replace_loop re input replacement (List.length input + 2)
             0 0 []).

End Operations.

End RegExp.

(** * The program *)

Definition Ranking := Z.

Module rankings.
Definition CASE_SENSITIVE_EQUAL : Ranking := 7.
Definition EQUAL : Ranking := 6.
Definition STARTS_WITH : Ranking := 5.
Definition WORD_STARTS_WITH : Ranking := 4.
Definition CONTAINS : Ranking := 3.
Definition ACRONYM : Ranking := 2.
Definition MATCHES : Ranking := 1.
Definition NO_MATCH : Ranking := 0.
End rankings.

(** The match of one string, tagged by its rank:
    rank 0, 6 and 7 carry nothing; rank 1 an index, a length and a
    closeness; rank 2 the indexes; rank 3 and 4 an index and a length;
    rank 5 a length. *)
Inductive MatchRanking :=
| NoMatch
| Matches (index length : Z) (closeness : JsNumber.t)
| Acronym (indexes : list Z)
| Contains (index length : Z)
| WordStartsWith (index length : Z)
| StartsWith (length : Z)
| Equal
| CaseSensitiveEqual.

Definition rank (m : MatchRanking) : Ranking :=
  match m with
  | NoMatch => rankings.NO_MATCH
  | Matches _ _ _ => rankings.MATCHES
  | Acronym _ => rankings.ACRONYM
  | Contains _ _ => rankings.CONTAINS
  | WordStartsWith _ _ => rankings.WORD_STARTS_WITH
  | StartsWith _ => rankings.STARTS_WITH
  | Equal => rankings.EQUAL
  | CaseSensitiveEqual => rankings.CASE_SENSITIVE_EQUAL
  end.

(** [m.closeness], undefined on every variant but rank 1. *)
Definition closeness (m : MatchRanking) : option JsNumber.t :=
  match m with
  | Matches _ _ c => Some c
  | _ => None
  end.

(** An undefined operand of [-] or [>] counts as NaN. *)
Definition to_number (v : option JsNumber.t) : JsNumber.t :=
  match v with
  | Some n => n
  | None => JsNumber.NaN
  end.

(** The item given to rankItem: a string, or any other value. *)
Inductive JsValue (TItem : Type) :=
| Str (s : jsstring)
| Obj (o : TItem).

Arguments Str {TItem} s.
Arguments Obj {TItem} o.

(** What an accessor function returns: null or undefined, one string, or
    an array of strings. *)
Inductive AccessorValue :=
| ValueNull
| ValueString (s : jsstring)
| ValueArray (l : list jsstring).

Definition AccessorFn (TItem : Type) := JsValue TItem -> AccessorValue.

(** An optional property of an object: not there, or there with a
    value, which may be undefined. *)
Inductive property (A : Type) :=
| Absent
| Present (value : option A).

Arguments Absent {A}.
Arguments Present {A} value.

(** The attributes of a candidate; a field that holds undefined is
    [None]. *)
Module AccessorAttributes.
Record t := {
  threshold : option Ranking;
  maxRanking : option JsNumber.t;
  minRanking : option JsNumber.t
}.
End AccessorAttributes.

Module AccessorOptions.
Record t (TItem : Type) := {
  accessor : AccessorFn TItem;
  threshold : option Ranking;
  maxRanking : property Ranking;
  minRanking : property Ranking
}.
Arguments accessor {TItem} _.
Arguments threshold {TItem} _.
Arguments maxRanking {TItem} _.
Arguments minRanking {TItem} _.
End AccessorOptions.

Inductive Accessor (TItem : Type) :=
| AccessorFunction (f : AccessorFn TItem)
| AccessorObject (o : AccessorOptions.t TItem).

Arguments AccessorFunction {TItem} f.
Arguments AccessorObject {TItem} o.

Module RankItemOptions.
Record t (TItem : Type) := {
  accessors : option (list (Accessor TItem));
  threshold : option Ranking;
  keepDiacritics : option bool
}.
Arguments accessors {TItem} _.
Arguments threshold {TItem} _.
Arguments keepDiacritics {TItem} _.

(** The object [{}]. *)
Definition empty {TItem : Type} : t TItem :=
  {| accessors := None; threshold := None; keepDiacritics := None |}.
End RankItemOptions.

Module RankingInfo.
Record t (TItem : Type) := {
  matchRanking : MatchRanking;
  rankedValue : JsValue TItem;
  accessorIndex : Z;
  accessorThreshold : option Ranking;
  passed : bool
}.
Arguments matchRanking {TItem} _.
Arguments rankedValue {TItem} _.
Arguments accessorIndex {TItem} _.
Arguments accessorThreshold {TItem} _.
Arguments passed {TItem} _.

(** The [rank] field, which comes with the fields of the match. *)
Definition rank {TItem : Type} (r : t TItem) : Ranking :=
  rank (matchRanking r).
End RankingInfo.

(** The lines of the template text, split at the line breaks. *)
Definition similarCharacters : list jsstring := List.map js [
  "\s";
  "(?:AE|Æ|Ǽ)";
  "(?:ae|æ|ǽ)";
  "(?:IJ|Ĳ)";
  "(?:ij|ĳ)";
  "(?:OE|Œ)";
  "(?:oe|œ)";
  "(?:TH|Þ)";
  "(?:th|þ)";
  "(?:A|À|Á|Â|Ã|Ä|Å|Ấ|Ắ|Ẳ|Ẵ|Ặ|Ầ|Ằ|Ȃ|Ā|Ă|Ą|Ǎ|Ǻ|A|Ȁ|A)";
  "(?:C|Ç|Ḉ|Ć|Ĉ|Ċ|Č|C|Č)";
  "(?:E|È|É|Ê|Ë|Ế|Ḗ|Ề|Ḕ|Ḝ|Ȇ|Ē|Ĕ|Ė|Ę|Ě|E|Ȅ|Ê|Ȩ|Ɛ)";
  "(?:I|Ì|Í|Î|Ï|Ḯ|Ȋ|Ĩ|Ī|Ĭ|Į|İ|Ǐ|I|Ȉ|I|Ɨ)";
  "(?:D|Ð|Ď|Đ|Ḑ)";
  "(?:N|Ñ|Ń|Ņ|Ň|N|Ǹ)";
  "(?:O|Ò|Ó|Ô|Õ|Ö|Ø|Ố|Ṍ|Ṓ|Ȏ|Ō|Ŏ|Ő|Ơ|Ǒ|Ǿ|Ồ|Ṑ|Ȍ|O)";
  "(?:U|Ù|Ú|Û|Ü|Ũ|Ū|Ŭ|Ů|Ű|Ų|Ȗ|Ư|Ǔ|Ǖ|Ǘ|Ǚ|Ǜ|Ứ|Ṹ|Ừ|Ȕ|U)";
  "(?:Y|Ý|Ŷ|Ÿ|Y|Ỳ|Y)";
  "(?:a|à|á|â|ã|ä|å|ấ|ắ|ẳ|ẵ|ặ|ầ|ằ|ȃ|ā|ă|ą|ǎ|ǻ|a|ȁ|a)";
  "(?:c|ç|ḉ|ć|ĉ|ċ|č|c|č)";
  "(?:e|è|é|ê|ë|ế|ḗ|ề|ḕ|ḝ|ȇ|ē|ĕ|ė|ę|ě|e|ȅ|ê|ȩ|ɛ)";
  "(?:i|ì|í|î|ï|ḯ|ȋ|ĩ|ī|ĭ|į|ı|ǐ|i|ȉ|i|ɨ)";
  "(?:d|ð|ď|đ|ḑ)";
  "(?:n|ñ|ń|ņ|ň|ŉ|n|ǹ)";
  "(?:o|ò|ó|ô|õ|ö|ø|ố|ṍ|ṓ|ȏ|ō|ŏ|ő|ơ|ǒ|ǿ|ồ|ṑ|ȍ|o)";
  "(?:u|ù|ú|û|ü|ũ|ū|ŭ|ů|ű|ų|ȗ|ư|ǔ|ǖ|ǘ|ǚ|ǜ|ứ|ṹ|ừ|ȕ|u)";
  "(?:y|ý|ÿ|ŷ|y|ỳ|y)";
  "(?:G|Ĝ|Ǵ|Ğ|Ġ|Ģ|Ǧ)";
  "(?:g|ĝ|ǵ|ğ|ġ|ģ|ǧ)";
  "(?:H|Ĥ|Ħ|Ḫ|Ȟ|Ḩ)";
  "(?:h|ĥ|ħ|ḫ|ȟ|ḩ)";
  "(?:J|Ĵ|J)";
  "(?:j|ĵ|ǰ)";
  "(?:K|Ķ|Ḱ|K|Ǩ)";
  "(?:k|ķ|ḱ|k|ǩ)";
  "(?:L|Ĺ|Ļ|Ľ|Ŀ)";
  "(?:l|ĺ|ļ|ľ|ŀ|Ł|ł)";
  "(?:M|Ḿ|M|M|M)";
  "(?:m|ḿ|m|m|m)";
  "(?:P|P|Ṕ|P)";
  "(?:p|p|ṕ|p)";
  "(?:R|Ŕ|Ŗ|Ř|R|Ȓ|Ȑ|Ř)";
  "(?:r|ŕ|ŗ|ř|r|ȓ|ȑ|ř)";
  "(?:S|Ś|Ŝ|Ş|Ș|Š|Ṥ|Ṧ)";
  "(?:s|ś|ŝ|ș|ş|š|ſ|ṥ|ṧ)";
  "(?:T|Ţ|Ț|Ť|Ŧ|T)";
  "(?:t|ţ|ț|ť|ŧ|t)";
  "(?:V|V|V)";
  "(?:v|v|v)";
  "(?:W|Ŵ|Ẃ|Ẁ|W)";
  "(?:w|ŵ|ẃ|ẁ|w)";
  "(?:X|X|X|X|X)";
  "(?:x|x|x|x|x)";
  "(?:Z|Ź|Ż|Ž|Z)";
  "(?:z|ź|ż|ž|z)";
  "(?:f|ƒ|f)";
  "(?:Г|Ѓ)";
  "(?:г|ѓ)";
  "(?:К|Ќ)";
  "(?:к|ќ)";
  "(?:B|B|B)";
  "(?:b|b|b)";
  "(?:F|F)";
  "(?:Q|Q|Q)";
  "(?:q|q|q)"
]%string.

(** ** getClosenessRanking

    The counter [matchingInOrderCharCount] of the enclosing function is
    threaded through the inner one: [findMatchingCharacter] returns the
    new counter with its result. *)

Definition strictly_equal (stringChar matchChar : option JsString.code_unit)
  : bool :=
  match stringChar, matchChar with
  | Some a, Some b => (a =? b)%N
  | None, None => true
  | _, _ => false
  end.

(** The loop of findMatchingCharacter over the units [string[j]],
    [string[j+1]], ... *)
Fixpoint findMatchingCharacter_from (matchChar : option JsString.code_unit)
  (units : list JsString.code_unit) (j : Z) (matchingInOrderCharCount : Z)
  : Z * Z :=
  match units with
  | [] => (matchingInOrderCharCount, -1)
  | stringChar :: units' =>
    if strictly_equal (Some stringChar) matchChar
    then (matchingInOrderCharCount + 1, j + 1)
    else findMatchingCharacter_from matchChar units' (j + 1)
           matchingInOrderCharCount
  end.

Definition findMatchingCharacter (matchChar : option JsString.code_unit)
  (string : jsstring) (index : Z) (matchingInOrderCharCount : Z) : Z * Z :=
  findMatchingCharacter_from matchChar (skipn (Z.to_nat index) string) index
    matchingInOrderCharCount.

(** The loop over [stringToRank[1]], [stringToRank[2]], ...: the final
    counter and [charNumber], or nothing when a unit is not found. *)
Fixpoint closeness_loop (testString : jsstring)
  (units : list JsString.code_unit) (charNumber : Z)
  (matchingInOrderCharCount : Z) : option (Z * Z) :=
  match units with
  | [] => Some (matchingInOrderCharCount, charNumber)
  | matchChar :: units' =>
    let '(count, charNumber') :=
      findMatchingCharacter (Some matchChar) testString charNumber
        matchingInOrderCharCount in
    if charNumber' >? -1
    then closeness_loop testString units' charNumber' count
    else None
  end.

Definition getClosenessRanking (testString stringToRank : jsstring)
  : MatchRanking :=
  let '(count, firstIndex) :=
    findMatchingCharacter (JsString.at_index stringToRank 0) testString 0 0 in
  if firstIndex <? 0 then NoMatch
  else
    match closeness_loop testString (skipn 1 stringToRank) firstIndex count
    with
    | None => NoMatch
    | Some (matchingInOrderCharCount, charNumber) =>
      let length := charNumber - firstIndex in
      Matches length matchingInOrderCharCount
        (JsNumber.mul
           (JsNumber.div (JsNumber.of_Z matchingInOrderCharCount)
              (JsNumber.of_Z (JsString.length stringToRank)))
           (JsNumber.div JsNumber.one (JsNumber.of_Z length)))
    end.

(** ** compareItems *)

Definition compareItems {TItem : Type} (a b : RankingInfo.t TItem)
  : JsNumber.t :=
  if (RankingInfo.rank a =? rankings.MATCHES)
     && (RankingInfo.rank b =? rankings.MATCHES)
  then JsNumber.sub (to_number (closeness (RankingInfo.matchRanking b)))
         (to_number (closeness (RankingInfo.matchRanking a)))
  else JsNumber.sub (JsNumber.of_Z (RankingInfo.rank b))
         (JsNumber.of_Z (RankingInfo.rank a)).

(** ** Accessors *)

Definition getItemValues {TItem : Type} (item : JsValue TItem)
  (accessor : Accessor TItem) : list jsstring :=
  let accessorFn :=
    match accessor with
    | AccessorFunction f => f
    | AccessorObject o => AccessorOptions.accessor o
    end in
  match accessorFn item with
  | ValueNull => []
  | ValueArray value => value
  | ValueString value => [value]
  end.

Definition defaultKeyAttributes : AccessorAttributes.t :=
  {| AccessorAttributes.threshold := None;
     AccessorAttributes.maxRanking := Some JsNumber.PosInfinity;
     AccessorAttributes.minRanking := Some JsNumber.NegInfinity |}.

(** [{ ...defaultKeyAttributes, ...accessor }]: a property the accessor
    has replaces the default, also when its value is undefined. *)
Definition getAccessorAttributes {TItem : Type} (accessor : Accessor TItem)
  : AccessorAttributes.t :=
  match accessor with
  | AccessorFunction _ => defaultKeyAttributes
  | AccessorObject o =>
    {| AccessorAttributes.threshold := AccessorOptions.threshold o;
       AccessorAttributes.maxRanking :=
         match AccessorOptions.maxRanking o with
         | Present v => option_map JsNumber.of_Z v
         | Absent => AccessorAttributes.maxRanking defaultKeyAttributes
         end;
       AccessorAttributes.minRanking :=
         match AccessorOptions.minRanking o with
         | Present v => option_map JsNumber.of_Z v
         | Absent => AccessorAttributes.minRanking defaultKeyAttributes
         end |}
  end.

Record RankValue := {
  itemValue : jsstring;
  attributes : AccessorAttributes.t
}.

Fixpoint getAllValuesToRank {TItem : Type} (item : JsValue TItem)
  (accessors : list (Accessor TItem)) : list RankValue :=
  match accessors with
  | [] => []
  | accessor :: rest =>
    let attributes := getAccessorAttributes accessor in
    let itemValues := getItemValues item accessor in
    List.map (fun v => {| itemValue := v; attributes := attributes |})
      itemValues
      ++ getAllValuesToRank item rest
  end.

(** ** The scorer *)

Fixpoint map_outcome {A B : Type} (f : A -> outcome B) (l : list A)
  : outcome (list B) :=
  match l with
  | [] => Ok []
  | a :: r =>
    let* b := f a in
    let* bs := map_outcome f r in
    Ok (b :: bs)
  end.

(** A value in a condition: undefined and false are falsy. *)
Definition truthy (b : option bool) : bool :=
  match b with
  | Some true => true
  | _ => false
  end.

(** The loop over [match.slice(1).entries()] of the acronym step; the
    length of an undefined element is a TypeError. *)
Fixpoint acronym_indexes (values : list (option jsstring)) (arrayIndex : Z)
  (index : Z) (indexes : list Z) : outcome (list Z) :=
  match values with
  | [] => Ok indexes
  | value :: rest =>
    let indexes' :=
      if (arrayIndex + 2) mod 3 =? 0 then indexes ++ [index] else indexes in
    match value with
    | None => Throw TypeError
    | Some v =>
      acronym_indexes rest (arrayIndex + 1) (index + JsString.length v)
        indexes'
    end
  end.

Section Scorer.

Variable toUpperCase : JsString.code_unit -> list JsString.code_unit.

Definition searchRegex (search : jsstring) : outcome jsstring :=
  fold_left
    (fun acc group =>
       let* search := acc in
       let* re := RegExp.new_RegExp group RegExp.flag_g in
       RegExp.replace toUpperCase search re group)
    similarCharacters (Ok search).

(** The piece of the acronym pattern for one unit of the query. *)
Definition acronym_piece (character : jsstring) : outcome jsstring :=
  let* c := searchRegex character in
  Ok (js "(^|\s|-)(" ++ c ++ js ")(.*)").

(** The steps of getMatchRanking that use a pattern, in their order; the
    result is undefined when none of them returns. *)
Definition pattern_ranking {TItem : Type} (testString stringToRank : jsstring)
  (options : RankItemOptions.t TItem) : outcome (option MatchRanking) :=
  let* searchString :=
    if negb (truthy (RankItemOptions.keepDiacritics options))
    then searchRegex stringToRank
    else Ok stringToRank in
  let* re := RegExp.new_RegExp (js "^" ++ searchString ++ js "$")
               RegExp.no_flags in
  if RegExp.test toUpperCase re testString then Ok (Some CaseSensitiveEqual)
  else
  let* re := RegExp.new_RegExp (js "^" ++ searchString ++ js "$")
               RegExp.flag_i in
  if RegExp.test toUpperCase re testString then Ok (Some Equal)
  else
  let* re := RegExp.new_RegExp (js "^" ++ searchString) RegExp.flag_i in
  match RegExp.exec toUpperCase re testString with
  | Some m => Ok (Some (StartsWith (JsString.length (RegExp.whole m))))
  | None =>
  let* re := RegExp.new_RegExp (js "\s" ++ searchString) RegExp.flag_i in
  match RegExp.exec toUpperCase re testString with
  | Some m =>
    Ok (Some (WordStartsWith (RegExp.index m + 1)
                (JsString.length (RegExp.whole m) - 1)))
  | None =>
  let* re := RegExp.new_RegExp searchString RegExp.flag_i in
  match RegExp.exec toUpperCase re testString with
  | Some m =>
    Ok (Some (Contains (RegExp.index m) (JsString.length (RegExp.whole m))))
  | None =>
  let* pieces :=
    map_outcome acronym_piece (JsString.split_units stringToRank) in
  let* re := RegExp.new_RegExp (List.concat pieces) RegExp.no_flags in
  match RegExp.exec toUpperCase re testString with
  | Some m =>
    let* indexes := acronym_indexes (RegExp.groups m) 0 (RegExp.index m) [] in
    Ok (Some (Acronym indexes))
  | None => Ok None
  end end end end.

Definition getMatchRanking {TItem : Type} (testString stringToRank : jsstring)
  (options : RankItemOptions.t TItem) : outcome MatchRanking :=
  let* found := pattern_ranking testString stringToRank options in
  match found with
  | Some matchRanking => Ok matchRanking
  | None => Ok (getClosenessRanking testString stringToRank)
  end.

(** ** rankItem *)

(** The rank of a candidate after the bounds of its accessor. *)
Definition clamped_rank (rank : Ranking) (minRanking maxRanking : JsNumber.t)
  : JsNumber.t :=
  let newRank := JsNumber.of_Z rank in
  let newRank :=
    if JsNumber.ltb newRank minRanking
       && JsNumber.geb newRank (JsNumber.of_Z rankings.MATCHES)
    then minRanking
    else if JsNumber.gtb newRank maxRanking then maxRanking
    else newRank in
  JsNumber.min newRank maxRanking.

(** The condition under which a candidate replaces the best match. *)
Definition replaces_best (newRank : JsNumber.t) (threshold : Ranking)
  (matchRanking bestMatchRanking : MatchRanking) : bool :=
  JsNumber.geb newRank (JsNumber.of_Z threshold)
  && (JsNumber.gtb newRank (JsNumber.of_Z (rank bestMatchRanking))
      || ((rank matchRanking =? rankings.MATCHES)
          && (rank bestMatchRanking =? rankings.MATCHES)
          && JsNumber.gtb (to_number (closeness matchRanking))
               (to_number (closeness bestMatchRanking)))).

(** The threshold of a candidate: that of its accessor, or else
    [options.threshold]. *)
Definition threshold_of (options_threshold : Ranking) (rankValue : RankValue)
  : Ranking :=
  match AccessorAttributes.threshold (attributes rankValue) with
  | Some t => t
  | None => options_threshold
  end.

(** [newRank] of a candidate with match [matchRanking]; a bound that is
    undefined is NaN in the comparisons and in [Math.min]. *)
Definition newRank_of (rankValue : RankValue) (matchRanking : MatchRanking)
  : JsNumber.t :=
  clamped_rank (rank matchRanking)
    (to_number (AccessorAttributes.minRanking (attributes rankValue)))
    (to_number (AccessorAttributes.maxRanking (attributes rankValue))).

(** The loop over [valuesToRank] from index [i] on.  Its variables
    (bestMatchRanking, passed, accessorIndex, accessorThreshold and
    rankedValue) are the fields of the result, so the state of the loop
    is a RankingInfo. [options_threshold] is [options.threshold] after
    its default. *)
Fixpoint rank_values {TItem : Type} (value : jsstring)
  (options : RankItemOptions.t TItem) (options_threshold : Ranking)
  (valuesToRank : list RankValue) (i : Z) (best : RankingInfo.t TItem)
  : outcome (RankingInfo.t TItem) :=
  match valuesToRank with
  | [] => Ok best
  | rankValue :: rest =>
    let* matchRanking := getMatchRanking (itemValue rankValue) value options in
    let threshold := threshold_of options_threshold rankValue in
    let newRank := newRank_of rankValue matchRanking in
    let best' :=
      if replaces_best newRank threshold matchRanking
           (RankingInfo.matchRanking best)
      then {| RankingInfo.matchRanking := matchRanking;
              RankingInfo.passed := true;
              RankingInfo.accessorIndex := i;
              RankingInfo.accessorThreshold := Some threshold;
              RankingInfo.rankedValue := Str (itemValue rankValue) |}
      else best in
    rank_values value options options_threshold rest (i + 1) best'
  end.

(** [options.threshold ?? rankings.MATCHES]. *)
Definition threshold_or_default {TItem : Type}
  (options : RankItemOptions.t TItem) : Ranking :=
  match RankItemOptions.threshold options with
  | Some t => t
  | None => rankings.MATCHES
  end.

(** The options record after [options.threshold = options.threshold ??
    rankings.MATCHES]. *)
Definition with_threshold {TItem : Type} (options : RankItemOptions.t TItem)
  : RankItemOptions.t TItem :=
  {| RankItemOptions.accessors := RankItemOptions.accessors options;
     RankItemOptions.threshold := Some (threshold_or_default options);
     RankItemOptions.keepDiacritics :=
       RankItemOptions.keepDiacritics options |}.

(** rankItem writes to one object, the options record of the caller; the
    first component of the result is that record after the call (nothing
    when the caller passed none and the function made its own). *)
Definition rankItem {TItem : Type} (item : JsValue TItem) (value : jsstring)
  (options : option (RankItemOptions.t TItem))
  : option (RankItemOptions.t TItem) * outcome (RankingInfo.t TItem) :=
  let options0 :=
    match options with
    | Some o => o
    | None => RankItemOptions.empty
    end in
  let options1 := with_threshold options0 in
  let threshold := threshold_or_default options0 in
  (option_map (fun _ => options1) options,
   match RankItemOptions.accessors options1 with
   | None =>
     match item with
     | Str testString =>
       let* matchRanking := getMatchRanking testString value options1 in
       Ok {| RankingInfo.rankedValue := item;
             RankingInfo.matchRanking := matchRanking;
             RankingInfo.accessorIndex := -1;
             RankingInfo.accessorThreshold := Some threshold;
             RankingInfo.passed := rank matchRanking >=? threshold |}
     | Obj _ => OutOfModel
     end
   | Some accessors =>
     let valuesToRank := getAllValuesToRank item accessors in
     rank_values value options1 threshold valuesToRank 0
       {| RankingInfo.matchRanking := NoMatch;
          RankingInfo.passed := false;
          RankingInfo.accessorIndex := -1;
          RankingInfo.accessorThreshold := Some threshold;
          RankingInfo.rankedValue := item |}
   end).

End Scorer.

(** ** The objects of the caller

    rankItem is given references: to its item when the item is an
    object, to the options record, through it to the accessor list, and
    through the list to the accessor objects.  The store holds these
    objects of the caller, one at a location, and [rankItem_call] is
    rankItem on references: the statements of the function in their
    order, each with what it reads from the store and what it writes to
    it.  Accessor functions are functions of the item with no effect on
    the store. *)

Module Store.

Definition loc := nat.

(** The options record; [accessors] refers to the accessor list. *)
Record options := {
  accessors : option loc;
  threshold : option Ranking;
  keepDiacritics : option bool
}.

(** The object [{}]. *)
Definition empty : options :=
  {| accessors := None; threshold := None; keepDiacritics := None |}.

(** An element of an accessor list: a function, or a reference to an
    accessor object. *)
Inductive element (TItem : Type) :=
| ElementFunction (f : AccessorFn TItem)
| ElementObject (l : loc).

Arguments ElementFunction {TItem} f.
Arguments ElementObject {TItem} l.

Inductive object (TItem : Type) :=
| ItemObject (o : TItem)
| OptionsObject (o : options)
| AccessorList (elements : list (element TItem))
| AccessorOptionsObject (o : AccessorOptions.t TItem).

Arguments ItemObject {TItem} o.
Arguments OptionsObject {TItem} o.
Arguments AccessorList {TItem} elements.
Arguments AccessorOptionsObject {TItem} o.

(** The objects by location. *)
Definition t (TItem : Type) := list (object TItem).










End Store.

Section Call.

Variable toUpperCase : JsString.code_unit -> list JsString.code_unit.

Context {TItem : Type}.


End Call.

(** * Definitions of the statements *)

(** An upper-case mapping for the examples: that of the host language on
    the units from 128 to 255, and no mapping above. *)
Definition toUpperCase_latin1 (ch : JsString.code_unit)
  : list JsString.code_unit :=
  if (ch =? 223)%N then [83; 83]%N
  else if (ch =? 181)%N then [924%N]
  else if (ch =? 255)%N then [376%N]
  else if RegExp.in_range 224 254 ch && negb (ch =? 247)%N then [(ch - 32)%N]
  else [ch].

(** The accessor [item => item], for an item that is a string. *)
Definition item_text {TItem : Type} : AccessorFn TItem :=
  fun item =>
    match item with
    | Str s => ValueString s
    | Obj _ => ValueNull
    end.

(** Options with nothing but the accessor list. *)
Definition with_accessors {TItem : Type} (l : list (Accessor TItem))
  : RankItemOptions.t TItem :=
  {| RankItemOptions.accessors := Some l;
     RankItemOptions.threshold := None;
     RankItemOptions.keepDiacritics := None |}.


(** A property that is there when it has a value. *)
Definition property_of {A : Type} (v : option A) : property A :=
  match v with
  | Some a => Present (Some a)
  | None => Absent
  end.

(** An accessor object with bounds and no threshold. *)
Definition bounded {TItem : Type} (f : AccessorFn TItem)
  (minRanking maxRanking : option Ranking) : Accessor TItem :=
  AccessorObject
    {| AccessorOptions.accessor := f;
       AccessorOptions.threshold := None;
       AccessorOptions.maxRanking := property_of maxRanking;
       AccessorOptions.minRanking := property_of minRanking |}.

(** The fuzzy match in the words of the specification: the first
    occurrence of the first unit of the query, then for each further unit
    its first occurrence after the previous one. *)
Fixpoint index_of (c : JsString.code_unit) (units : list JsString.code_unit)
  : option nat :=
  match units with
  | [] => None
  | u :: r => if (u =? c)%N then Some O else option_map S (index_of c r)
  end.

Definition first_occurrence (c : JsString.code_unit) (s : jsstring)
  (from : nat) : option nat :=
  option_map (Nat.add from) (index_of c (skipn from s)).

Fixpoint subsequence_positions (testString : jsstring)
  (query : list JsString.code_unit) (from : nat) : option (list nat) :=
  match query with
  | [] => Some []
  | c :: query' =>
    match first_occurrence c testString from with
    | None => None
    | Some p =>
      option_map (cons p) (subsequence_positions testString query' (S p))
    end
  end.

Definition first_position (ps : list nat) : Z := Z.of_nat (hd O ps).
Definition last_position (ps : list nat) : Z := Z.of_nat (last ps O).

(** The spread as the specification words it, and as the program has
    it. *)
Definition stated_spread (ps : list nat) : Z :=
  (last_position ps + 1) - first_position ps.

Definition spread (ps : list nat) : Z := last_position ps - first_position ps.

(** Closeness as the specification words it:
    matchedCharCount / queryLength / spread. *)
Definition stated_closeness (matchedCharCount queryLength spread : Z)
  : JsNumber.t :=
  JsNumber.div
    (JsNumber.div (JsNumber.of_Z matchedCharCount) (JsNumber.of_Z queryLength))
    (JsNumber.of_Z spread).

(** A RankingInfo whose closeness, if it has one, is not NaN. *)
Definition closeness_is_number {TItem : Type} (a : RankingInfo.t TItem)
  : Prop :=
  match closeness (RankingInfo.matchRanking a) with
  | Some c => c <> JsNumber.NaN
  | None => True
  end.

(** Two numbers that are the same infinity: their difference is NaN. *)
Definition same_infinity (x y : JsNumber.t) : bool :=
  match x, y with
  | JsNumber.PosInfinity, JsNumber.PosInfinity
  | JsNumber.NegInfinity, JsNumber.NegInfinity => true
  | _, _ => false
  end.

(** The claim on the fuzzy match as the specification states it, at
    one test string and query. *)
Definition stated_fuzzy_result (testString stringToRank : jsstring) : Prop :=
  forall ps,
    subsequence_positions testString stringToRank 0 = Some ps ->
    exists index,
      getClosenessRanking testString stringToRank
      = Matches index (JsString.length stringToRank)
          (stated_closeness (JsString.length stringToRank)
             (JsString.length stringToRank) (stated_spread ps)).

(** The result for an item whose text is ranked by the fuzzy step alone,
    as compareItems may receive it. *)
Definition fuzzy_info (testString stringToRank : jsstring)
  : RankingInfo.t unit :=
  {| RankingInfo.matchRanking := getClosenessRanking testString stringToRank;
     RankingInfo.rankedValue := Str testString;
     RankingInfo.accessorIndex := -1;
     RankingInfo.accessorThreshold := Some rankings.MATCHES;
     RankingInfo.passed := true |}.

(** The second clause of the claim on compareItems as the specification
    states it: compareItems(a, a) == 0 for every value. *)
Definition stated_reflexive_zero : Prop :=
  forall a : RankingInfo.t unit,
    JsNumber.eqb (compareItems a a) JsNumber.zero = true.

(** Both arguments of compareItems at the MATCHES tier. *)
Definition both_match {TItem : Type} (a b : RankingInfo.t TItem) : bool :=
  (RankingInfo.rank a =? rankings.MATCHES)
  && (RankingInfo.rank b =? rankings.MATCHES).

(** [a.closeness] as an operand. *)
Definition closeness_of {TItem : Type} (a : RankingInfo.t TItem)
  : JsNumber.t :=
  to_number (closeness (RankingInfo.matchRanking a)).

(** A matcher that runs its continuation only on states between the
    state it starts from and the end of an input of length [len]. *)
Definition local_matcher (len : nat)
  (m : RegExp.state -> RegExp.continuation -> option RegExp.state) : Prop :=
  forall x c c',
    (RegExp.endIndex x <= len)%nat ->
    (forall y, (RegExp.endIndex x <= RegExp.endIndex y)%nat ->
               (RegExp.endIndex y <= len)%nat -> c y = c' y) ->
    m x c = m x c'.

(** A matcher whose result is the result of its continuation on such a
    state. *)
Definition forward_matcher (len : nat)
  (m : RegExp.state -> RegExp.continuation -> option RegExp.state) : Prop :=
  forall x c z,
    (RegExp.endIndex x <= len)%nat ->
    m x c = Some z ->
    exists y, (RegExp.endIndex x <= RegExp.endIndex y)%nat
              /\ (RegExp.endIndex y <= len)%nat /\ c y = Some z.

(** The units that have a meaning of their own in a pattern; a string
    without them is literal text. *)
Definition pattern_units : list JsString.code_unit := js "\^$.*+?()[{|".

Definition literal_unit (c : JsString.code_unit) : bool :=
  negb (existsb (N.eqb c) pattern_units).

Definition literal (s : jsstring) : bool := forallb literal_unit s.

(** The matcher of a list of terms, one after the other. *)
Definition matcher_terms toUpperCase (input : jsstring) (ignoreCase : bool)
  (rounds : nat) (ts : list RegExp.term) (c : RegExp.continuation)
  : RegExp.continuation :=
  fold_right
    (fun t k => fun y =>
       RegExp.matcher toUpperCase input ignoreCase rounds (RegExp.t_node t)
         y k)
    c ts.

(** The term of a literal unit. *)
Definition unit_term (c : JsString.code_unit) : RegExp.term :=
  {| RegExp.t_node := RegExp.Char c; RegExp.t_atom := true |}.

(** The text that the steps of getMatchRanking embed in their patterns. *)
Definition search_string toUpperCase {TItem : Type} (stringToRank : jsstring)
  (options : RankItemOptions.t TItem) : outcome jsstring :=
  if negb (truthy (RankItemOptions.keepDiacritics options))
  then searchRegex toUpperCase stringToRank
  else Ok stringToRank.

(** A node made of units, classes, alternatives and sequences that start
    with such a node: every match of it starts with a unit of
    [first_units]. *)
Fixpoint listed (r : RegExp.node) : bool :=
  match r with
  | RegExp.Char _ | RegExp.Class false _ => true
  | RegExp.Alt a b => listed a && listed b
  | RegExp.Seq a _ => listed a
  | _ => false
  end.

(** The units that a match of a listed node can start with. *)
Fixpoint first_units (r : RegExp.node) : list JsString.code_unit :=
  match r with
  | RegExp.Char a => [a]
  | RegExp.Class false k => RegExp.class_members k
  | RegExp.Alt a b => first_units a ++ first_units b
  | RegExp.Seq a _ => first_units a
  | _ => []
  end.

Definition starts (r : RegExp.node) (ch : JsString.code_unit) : bool :=
  existsb (fun a => (a =? ch)%N) (first_units r).

(** The units that a group of the table can start a match with. *)
Definition group_units (group : jsstring) : list JsString.code_unit :=
  match RegExp.new_RegExp group RegExp.flag_g with
  | Ok re => first_units (RegExp.body re)
  | _ => []
  end.

(** A group whose pattern is listed and whose text, which is also the
    replacement, has no [$]. *)
Definition group_listed (group : jsstring) : bool :=
  negb (existsb (N.eqb (JsString.unit_of "$")) group)
  && match RegExp.new_RegExp group RegExp.flag_g with
     | Ok re => listed (RegExp.body re)
     | _ => false
     end.

(** The units that some group of the table can start a match with, and
    the units outside the table. *)
Definition table_units : list JsString.code_unit :=
  flat_map group_units similarCharacters.

Definition outside_table (c : JsString.code_unit) : bool :=
  negb (existsb (fun a => (a =? c)%N) table_units).

(** A node that matches the one-unit text [c] wherever it stands. *)
Fixpoint accepts_unit (r : RegExp.node) (c : JsString.code_unit) : bool :=
  match r with
  | RegExp.Char a => (a =? c)%N
  | RegExp.Any => negb (RegExp.is_line_terminator c)
  | RegExp.Alt a b => accepts_unit a c || accepts_unit b c
  | RegExp.Group _ a => accepts_unit a c
  | _ => false
  end.

(** A RankingInfo whose closeness, if it has one, is finite. *)
Definition finite_closeness {TItem : Type} (a : RankingInfo.t TItem) : Prop :=
  match closeness (RankingInfo.matchRanking a) with
  | Some c => JsNumber.is_finite c = true
  | None => True
  end.

(** ** Definitions for the accessors and the loop of rankItem *)

(** The bounds that an accessor gives: [minRanking] and [maxRanking]. *)
Definition accessor_bounds {TItem : Type} (accessor : Accessor TItem)
  : property Ranking * property Ranking :=
  match accessor with
  | AccessorFunction _ => (Absent, Absent)
  | AccessorObject o =>
    (AccessorOptions.minRanking o, AccessorOptions.maxRanking o)
  end.

(** The bound that a property gives, when it gives one. *)
Definition bound_of (p : property Ranking) : option Ranking :=
  match p with
  | Absent => None
  | Present v => v
  end.

(** What the function of an accessor returns for an item. *)
Definition accessor_value {TItem : Type} (item : JsValue TItem)
  (accessor : Accessor TItem) : AccessorValue :=
  match accessor with
  | AccessorFunction f => f item
  | AccessorObject o => AccessorOptions.accessor o item
  end.

(** The candidate that a string of an accessor becomes. *)
Definition candidate {TItem : Type} (accessor : Accessor TItem)
  (value : jsstring) : RankValue :=
  {| itemValue := value; attributes := getAccessorAttributes accessor |}.

(** A rank between bounds: raised to the lower bound when it is a match,
    then lowered to the upper bound. *)
Definition bounded_rank (minRanking maxRanking : option Ranking)
  (r : Ranking) : Ranking :=
  let raised :=
    if rankings.MATCHES <=? r
    then match minRanking with Some l => Z.max l r | None => r end
    else r in
  match maxRanking with Some h => Z.min h raised | None => raised end.

(** The order of the loop of rankItem on two matches: the first has the
    greater rank, or both are fuzzy and the first has the greater
    closeness. *)
Definition better (m b : MatchRanking) : bool :=
  (rank b <? rank m)
  || ((rank m =? rankings.MATCHES) && (rank b =? rankings.MATCHES)
      && JsNumber.gtb (to_number (closeness m)) (to_number (closeness b))).

(** A match whose closeness, if it has one, is finite. *)
Definition finite_match (m : MatchRanking) : Prop :=
  match closeness m with
  | Some x => JsNumber.is_finite x = true
  | None => True
  end.

(** An accessor without [minRanking] and [maxRanking]. *)
Definition without_bounds {TItem : Type} (accessor : Accessor TItem) : Prop :=
  accessor_bounds accessor = (Absent, Absent).

(** The initial state of the loop of rankItem. *)
Definition no_candidate {TItem : Type} (item : JsValue TItem)
  (threshold : Ranking) : RankingInfo.t TItem :=
  {| RankingInfo.matchRanking := NoMatch;
     RankingInfo.passed := false;
     RankingInfo.accessorIndex := -1;
     RankingInfo.accessorThreshold := Some threshold;
     RankingInfo.rankedValue := item |}.

(** The state of the loop after candidate [i] has replaced the best
    match. *)
Definition winner {TItem : Type} (rankValue : RankValue) (m : MatchRanking)
  (i : Z) (threshold : Ranking) : RankingInfo.t TItem :=
  {| RankingInfo.matchRanking := m;
     RankingInfo.passed := true;
     RankingInfo.accessorIndex := i;
     RankingInfo.accessorThreshold := Some threshold;
     RankingInfo.rankedValue := Str (itemValue rankValue) |}.

(** A candidate whose accessor has no bounds. *)
Definition unbounded (rankValue : RankValue) : Prop :=
  AccessorAttributes.minRanking (attributes rankValue)
  = Some JsNumber.NegInfinity
  /\ AccessorAttributes.maxRanking (attributes rankValue)
     = Some JsNumber.PosInfinity.

(** ** Definitions for the fuzzy step *)

(** [query] is a subsequence of [text]: its units are in the text in the
    same order, not necessarily side by side. *)
Inductive subsequence : list JsString.code_unit -> list JsString.code_unit
                        -> Prop :=
| subsequence_nil text : subsequence [] text
| subsequence_take c query text :
    subsequence query text -> subsequence (c :: query) (c :: text)
| subsequence_skip c query text :
    subsequence query text -> subsequence query (c :: text).

(** ** Definitions for plain queries *)

(** Whether the units of [s] are those of [w], one by one: the same
    units, or with [ignoreCase] the same after canonicalization. *)
Fixpoint same_units toUpperCase (ignoreCase : bool)
  (s w : list JsString.code_unit) : bool :=
  match s, w with
  | [], [] => true
  | a :: s', ch :: w' =>
    RegExp.same_unit toUpperCase ignoreCase a ch
    && same_units toUpperCase ignoreCase s' w'
  | _, _ => false
  end.

(** [s] stands in [t] at index [i]. *)
Definition stands_at toUpperCase (ignoreCase : bool) (s t : jsstring)
  (i : nat) : bool :=
  same_units toUpperCase ignoreCase s (firstn (List.length s) (skipn i t)).

(** [s] stands in [t] at index [i], case ignored. *)
Definition occurs_at toUpperCase (s t : jsstring) (i : nat) : bool :=
  stands_at toUpperCase true s t i.

(** The terms of the assertions and of the class of white space. *)
Definition line_start_term : RegExp.term :=
  {| RegExp.t_node := RegExp.LineStart; RegExp.t_atom := false |}.

Definition line_end_term : RegExp.term :=
  {| RegExp.t_node := RegExp.LineEnd; RegExp.t_atom := false |}.

Definition space_term : RegExp.term :=
  {| RegExp.t_node := RegExp.Class false RegExp.ClassS;
     RegExp.t_atom := true |}.

(** The unit at index [i] of [t] is white space and [s] stands right
    after it, case ignored. *)
Definition word_starts_at toUpperCase (s t : jsstring) (i : nat) : bool :=
  match nth_error t i with
  | Some ch =>
    RegExp.in_set toUpperCase true (RegExp.Class false RegExp.ClassS) ch
    && occurs_at toUpperCase s t (S i)
  | None => false
  end.

(** The first index from [i], among [n], at which [p] holds. *)
Fixpoint find_first (p : nat -> bool) (n i : nat) : option nat :=
  match n with
  | O => None
  | S n' => if p i then Some i else find_first p n' (S i)
  end.

(** A query that the steps embed as it is, and that has no pattern
    units. *)
Definition plain_query {TItem : Type} (stringToRank : jsstring)
  (options : RankItemOptions.t TItem) : Prop :=
  literal stringToRank = true
  /\ (RankItemOptions.keepDiacritics options = Some true
      \/ forallb outside_table stringToRank = true).

(** The acronym step of getMatchRanking, as [pattern_ranking] has it. *)
Definition acronym_ranking toUpperCase (testString stringToRank : jsstring)
  : outcome (option MatchRanking) :=
  let* pieces :=
    map_outcome (acronym_piece toUpperCase)
      (JsString.split_units stringToRank) in
  let* re := RegExp.new_RegExp (List.concat pieces) RegExp.no_flags in
  match RegExp.exec toUpperCase re testString with
  | Some m =>
    let* indexes :=
      acronym_indexes (RegExp.groups m) 0 (RegExp.index m) [] in
    Ok (Some (Acronym indexes))
  | None => Ok None
  end.

(** The steps after the contains step: acronym, then fuzzy. *)
Definition last_steps toUpperCase (testString stringToRank : jsstring)
  : outcome MatchRanking :=
  let* found := acronym_ranking toUpperCase testString stringToRank in
  match found with
  | Some matchRanking => Ok matchRanking
  | None => Ok (getClosenessRanking testString stringToRank)
  end.

(** ** Definitions for the acronym pattern *)

(** Whether the lexer, at the end of [p], is at the end of a token: the
    tokens of [p] followed by any text are then those of [p] followed by
    those of the text. *)
Fixpoint lex_closed (p : list RegExp.code_unit) : bool :=
  match p with
  | [] => true
  | c :: r =>
    if (c =? RegExp.unit_of "\")%N then
      match r with
      | [] => false
      | e :: r' => lex_closed r'
      end
    else if (c =? RegExp.unit_of "(")%N then
      match r with
      | q :: r1 =>
        if (q =? RegExp.unit_of "?")%N then
          match r1 with
          | k :: r2 => if (k =? RegExp.unit_of ":")%N then lex_closed r2
                       else false
          | [] => false
          end
        else lex_closed r
      | [] => false
      end
    else
      match RegExp.quantifier c with
      | Some _ =>
        match r with
        | q :: r' => if (q =? RegExp.unit_of "?")%N then lex_closed r'
                     else lex_closed r
        | [] => false
        end
      | None => lex_closed r
      end
  end.

(** What the parser needs of its state to go on: the number of open
    groups and whether a quantifier may follow. *)
Inductive parser_run :=
| Open (depth : nat) (atom : bool)
| Throws
| Unmodelled.

Definition parser_step (t : RegExp.token) (depth : nat) (atom : bool)
  : parser_run :=
  match t with
  | RegExp.TAtom _ => Open depth true
  | RegExp.TAssert _ => Open depth false
  | RegExp.TOpen _ => Open (S depth) false
  | RegExp.TClose =>
    match depth with
    | O => Throws
    | S d => Open d true
    end
  | RegExp.TBar => Open depth false
  | RegExp.TQuant _ _ _ => if atom then Open depth false else Throws
  | RegExp.TSyntaxError => Throws
  | RegExp.TOutOfModel => Unmodelled
  end.

Fixpoint parser_runs (ts : list RegExp.token) (depth : nat) (atom : bool)
  : parser_run :=
  match ts with
  | [] => Open depth atom
  | t :: r =>
    match parser_step t depth atom with
    | Open depth' atom' => parser_runs r depth' atom'
    | stop => stop
    end
  end.

(** Whether a quantifier may follow the last term of a frame. *)
Definition quantifiable (f : RegExp.frame) : bool :=
  match RegExp.f_seq f with
  | t :: _ => RegExp.t_atom t
  | [] => false
  end.

(** The members of [\s]. *)
Definition is_white_space (c : JsString.code_unit) : bool :=
  existsb (N.eqb c) RegExp.white_space.

(** What the parser does with one piece of the acronym pattern, with or
    without a term before it: it throws, or it comes back to where it was
    with a term that a quantifier may follow. *)
Definition piece_check (throws : bool) (piece : outcome jsstring) : bool :=
  match piece with
  | Ok p =>
    lex_closed p
    && forallb
         (fun atom =>
            match parser_runs (RegExp.tokens p) 0 atom, throws with
            | Throws, true => true
            | Open O true, false => true
            | _, _ => false
            end)
         [false; true]
  | _ => false
  end.

(** Two accessors for the examples: the first gives two strings and the
    second one. *)
Definition names_accessor : Accessor unit :=
  AccessorFunction (fun _ => ValueArray [js "zebra"; js "apple"]).

Definition fruit_accessor : Accessor unit :=
  AccessorFunction (fun _ => ValueString (js "banana")).

(** Options of a filter by containment: keepDiacritics and the
    threshold CONTAINS. *)
Definition contains_filter : RankItemOptions.t unit :=
  {| RankItemOptions.accessors := None;
     RankItemOptions.threshold := Some rankings.CONTAINS;
     RankItemOptions.keepDiacritics := Some true |}.

(** Options with nothing but keepDiacritics. *)
Definition keep_diacritics {TItem : Type} : RankItemOptions.t TItem :=
  {| RankItemOptions.accessors := None;
     RankItemOptions.threshold := None;
     RankItemOptions.keepDiacritics := Some true |}.

(** * Properties *)

(** ** Strings *)

Example js_ascii : js "ff" = [102; 102]%N.
Proof. reflexivity. Qed.

Example js_two_and_three_bytes :
  js "Æ|ſ|ṧ|ќ" = [198; 124; 383; 124; 7783; 124; 1116]%N.
Proof. reflexivity. Qed.

(** The table has 65 lines, none with a [$], and every line is a
    pattern of the modelled fragment. *)
Example similarCharacters_patterns :
  List.length similarCharacters = 65%nat
  /\ forallb (fun group =>
                negb (existsb (N.eqb (JsString.unit_of "$")) group)
                && match RegExp.new_RegExp group RegExp.flag_g with
                   | Ok _ => true
                   | _ => false
                   end) similarCharacters
     = true.
Proof. split; vm_compute; reflexivity. Qed.

(** ** Numbers *)

Module JsNumberFacts.

Import JsNumber.

Lemma Qred_eq (x y : Q) : (x == y)%Q -> Qred x = Qred y.
Proof. apply Qred_complete. Qed.

Lemma compare_lt_iff (x y : Q) : (x ?= y)%Q = Lt <-> (x < y)%Q.
Proof. symmetry. apply Qlt_alt. Qed.

Lemma sub_finite (x y : Q) :
  sub (Finite x) (Finite y) = Finite (Qred (x - y)).
Proof.
  unfold sub, neg, add. f_equal. apply Qred_eq.
  unfold Qminus. rewrite (Qred_correct (- y)). reflexivity.
Qed.

Lemma sub_antisymmetric (x y : Q) :
  eqb (sub (Finite x) (Finite y)) (neg (sub (Finite y) (Finite x))) = true.
Proof.
  rewrite !sub_finite. cbn [neg eqb]. apply Qeq_eq_bool.
  rewrite !Qred_correct. ring.
Qed.

Lemma sub_self (x : Q) : eqb (sub (Finite x) (Finite x)) zero = true.
Proof.
  rewrite sub_finite. cbn [eqb zero of_Z]. apply Qeq_eq_bool.
  rewrite Qred_correct. ring.
Qed.

Lemma ltb_finite (x y : Q) : ltb (Finite x) (Finite y) = true <-> (x < y)%Q.
Proof.
  cbn [ltb]. rewrite <- compare_lt_iff.
  destruct (x ?= y)%Q; split; intro H; congruence.
Qed.

Lemma bool_eq_iff (b1 b2 : bool) : (b1 = true <-> b2 = true) -> b1 = b2.
Proof. destruct b1, b2; intros [H1 H2]; auto; symmetry; auto. Qed.

(** The difference is negative exactly when the first operand is the
    smaller one, also with infinite operands and NaN. *)
Lemma sub_negative (a b : t) : ltb (sub a b) zero = ltb a b.
Proof.
  destruct a as [| |x|], b as [| |y|]; try reflexivity.
  rewrite sub_finite. apply bool_eq_iff.
  unfold zero, of_Z. rewrite !ltb_finite, Qred_correct.
  split; intro H.
  - apply Qlt_minus_iff in H. apply Qlt_minus_iff.
    setoid_replace (y + - x)%Q with (0 + - (x - y))%Q by ring. exact H.
  - apply Qlt_minus_iff in H. apply Qlt_minus_iff.
    setoid_replace (0 + - (x - y))%Q with (y + - x)%Q by ring. exact H.
Qed.

Lemma sub_positive (a b : t) : ltb zero (sub a b) = ltb b a.
Proof.
  destruct a as [| |x|], b as [| |y|]; try reflexivity.
  rewrite sub_finite. apply bool_eq_iff.
  unfold zero, of_Z. rewrite !ltb_finite, Qred_correct.
  split; intro H.
  - apply Qlt_minus_iff. exact H.
  - apply Qlt_minus_iff in H. exact H.
Qed.

Lemma ltb_of_Z (x y : Z) : ltb (of_Z x) (of_Z y) = (x <? y).
Proof.
  apply bool_eq_iff. unfold of_Z. rewrite ltb_finite, <- Zlt_Qlt.
  symmetry. apply Z.ltb_lt.
Qed.

Lemma div_same (n : Z) : 0 < n -> div (of_Z n) (of_Z n) = one.
Proof.
  intro Hn. unfold one, div, of_Z.
  assert (Hpos : (0 < inject_Z n)%Q) by (unfold Qlt; simpl; lia).
  destruct (inject_Z n ?= 0)%Q eqn:Hc.
  - apply Qeq_alt in Hc. rewrite Hc in Hpos. discriminate.
  - apply compare_lt_iff in Hc. exfalso.
    apply (Qlt_irrefl 0). apply Qlt_trans with (inject_Z n); assumption.
  - f_equal. change (inject_Z 1) with (Qred 1). apply Qred_eq.
    apply Qmult_inv_r. intro Hz. rewrite Hz in Hpos. discriminate.
Qed.

(** One over a positive integer is a finite number. *)
Lemma div_one_finite (s : Z) :
  0 < s ->
  is_finite (div one (of_Z s)) = true.
Proof.
  intro H. unfold div, one, of_Z.
  assert (E : (inject_Z s ?= 0)%Q = Gt).
  { apply Qgt_alt. unfold Qlt. cbn. lia. }
  rewrite E. reflexivity.
Qed.

(** Multiplying a quotient of the model by one gives the quotient. *)
Lemma mul_one_div (s : Z) :
  0 <= s -> mul one (div one (of_Z s)) = div one (of_Z s).
Proof.
  intro Hs. unfold one, div, of_Z.
  destruct (inject_Z s ?= 0)%Q eqn:Hc.
  - reflexivity.
  - cbn [mul]. f_equal. apply Qred_eq. rewrite Qred_correct. ring.
  - cbn [mul]. f_equal. apply Qred_eq. rewrite Qred_correct. ring.
Qed.

Lemma ltb_irreflexive (a : t) : ltb a a = false.
Proof.
  destruct a as [| |x|]; try reflexivity.
  cbn [ltb]. destruct (x ?= x)%Q eqn:E; try reflexivity.
  apply compare_lt_iff in E. exfalso. exact (Qlt_irrefl x E).
Qed.

(** [Math.min(a, b)] is never above [b]. *)
Lemma min_at_most (a b : t) : gtb (min a b) b = false.
Proof.
  unfold gtb, min.
  destruct a as [| |x|], b as [| |y|]; try reflexivity;
    try (change (ltb (Finite y) PosInfinity) with true; cbv iota;
         apply ltb_irreflexive).
  destruct (ltb (Finite y) (Finite x)) eqn:E;
    [apply ltb_irreflexive|exact E].
Qed.

End JsNumberFacts.

(** ** The engine *)

Module RegExpFacts.

Import RegExp.

(** Canonicalization as the language specification has it agrees with
    the comparison of the matcher. *)
Lemma same_unit_canonicalize toUpperCase (a ch : code_unit) :
  same_unit toUpperCase true a ch
  = (canonicalize toUpperCase a
     =? canonicalize toUpperCase ch)%N.
Proof.
  assert (Hlow : forall x, (x < 128)%N -> (ascii_upper x < 128)%N).
  { intros x Hx. unfold ascii_upper, in_range.
    change (unit_of "a") with 97%N.
    change (unit_of "z") with 122%N.
    destruct ((97 <=? x)%N && (x <=? 122)%N); lia. }
  assert (Hhigh : forall x, (128 <= x)%N ->
                            (128 <= canonicalize toUpperCase x)%N).
  { intros x Hx. unfold canonicalize.
    destruct (N.ltb_spec x 128); [lia|].
    destruct (toUpperCase x) as [|cu [|? ?]]; try lia.
    destruct (N.ltb_spec cu 128); lia. }
  unfold same_unit.
  destruct (N.ltb_spec a 128) as [Ha|Ha], (N.ltb_spec ch 128) as [Hc|Hc];
    cbn [andb orb].
  - unfold canonicalize.
    destruct (N.ltb_spec a 128), (N.ltb_spec ch 128); try lia. reflexivity.
  - symmetry. apply N.eqb_neq. specialize (Hhigh ch Hc).
    unfold canonicalize at 1.
    destruct (N.ltb_spec a 128); [|lia]. specialize (Hlow a Ha). lia.
  - symmetry. apply N.eqb_neq. specialize (Hhigh a Ha).
    unfold canonicalize at 2.
    destruct (N.ltb_spec ch 128); [|lia]. specialize (Hlow ch Hc). lia.
  - reflexivity.
Qed.

(** *** The bound on the iterations is never reached *)

Section Rounds.

Variable toUpperCase : code_unit -> list code_unit.
Variable input : jsstring.
Variable ignoreCase : bool.

Let len := List.length input.

Lemma iterate_local m inner greedy :
  local_matcher len m ->
  forall bound min max, local_matcher len
    (fun x c => iterate m inner greedy c bound min max x).
Proof.
  intros Hm. induction bound as [|bound IH]; intros min max x c c' Hx Hc.
  - reflexivity.
  - cbn [iterate].
    assert (Hcx : c x = c' x) by (apply Hc; lia).
    assert (Hd : m {| endIndex := endIndex x;
                      caps := clear_captures inner (caps x) |}
                   (fun y => if ((min =? 0) && (endIndex y =? endIndex x))%nat
                             then None
                             else iterate m inner greedy c bound (Nat.pred min)
                                    (option_map Nat.pred max) y)
                 = m {| endIndex := endIndex x;
                        caps := clear_captures inner (caps x) |}
                     (fun y => if ((min =? 0) && (endIndex y =? endIndex x))%nat
                               then None
                               else iterate m inner greedy c' bound
                                      (Nat.pred min)
                                      (option_map Nat.pred max) y)).
    { apply Hm; [exact Hx|]. cbn [endIndex]. intros y Hy1 Hy2.
      destruct ((min =? 0) && (endIndex y =? endIndex x))%nat; [reflexivity|].
      apply (IH (Nat.pred min) (option_map Nat.pred max) y c c' Hy2).
      intros y' Hy1' Hy2'. apply Hc; lia. }
    rewrite Hd, Hcx. reflexivity.
Qed.

Lemma matcher_local rounds r :
  local_matcher len (matcher toUpperCase input ignoreCase rounds r).
Proof.
  induction r as [|ch| |inv k| | |a IHa b IHb|a IHa b IHb|n a IHa
                  |a IHa min max greedy]; intros x c c' Hx Hc;
    cbn [matcher].
  - apply Hc; lia.
  - destruct (nth_error input (endIndex x)) as [u|] eqn:E; [|reflexivity].
    destruct (in_set _ _ _ _); [|reflexivity].
    assert (endIndex x < len)%nat by (apply nth_error_Some; congruence).
    apply Hc; cbn; lia.
  - destruct (nth_error input (endIndex x)) as [u|] eqn:E; [|reflexivity].
    destruct (in_set _ _ _ _); [|reflexivity].
    assert (endIndex x < len)%nat by (apply nth_error_Some; congruence).
    apply Hc; cbn; lia.
  - destruct (nth_error input (endIndex x)) as [u|] eqn:E; [|reflexivity].
    destruct (in_set _ _ _ _); [|reflexivity].
    assert (endIndex x < len)%nat by (apply nth_error_Some; congruence).
    apply Hc; cbn; lia.
  - destruct (endIndex x =? 0)%nat; [apply Hc; lia|reflexivity].
  - destruct (endIndex x =? List.length input)%nat; [apply Hc; lia|reflexivity].
  - apply IHa; [exact Hx|]. intros y Hy1 Hy2.
    apply IHb; [exact Hy2|]. intros z Hz1 Hz2. apply Hc; lia.
  - rewrite (IHa x c c' Hx Hc), (IHb x c c' Hx Hc). reflexivity.
  - apply IHa; [exact Hx|]. intros y Hy1 Hy2. apply Hc; cbn; lia.
  - apply (iterate_local (groups_of a) greedy IHa (S (rounds + min)) min max
             x c c' Hx Hc).
Qed.

(** Two bounds that both exceed [min + (len - e)] give the same
    iterations. *)
Lemma iterate_rounds m1 m2 inner greedy c :
  (forall x k, (endIndex x <= len)%nat -> m1 x k = m2 x k) ->
  local_matcher len m2 ->
  forall b1 b2 min max x,
    (endIndex x <= len)%nat ->
    (min + (len - endIndex x) < b1)%nat ->
    (min + (len - endIndex x) < b2)%nat ->
    iterate m1 inner greedy c b1 min max x
    = iterate m2 inner greedy c b2 min max x.
Proof.
  intros H12 Hloc. induction b1 as [|b1 IH]; intros b2 min max x Hx H1 H2;
    [lia|].
  destruct b2 as [|b2]; [lia|]. cbn [iterate].
  assert (Hd : m1 {| endIndex := endIndex x;
                     caps := clear_captures inner (caps x) |}
                  (fun y => if ((min =? 0) && (endIndex y =? endIndex x))%nat
                            then None
                            else iterate m1 inner greedy c b1 (Nat.pred min)
                                   (option_map Nat.pred max) y)
                = m2 {| endIndex := endIndex x;
                        caps := clear_captures inner (caps x) |}
                     (fun y => if ((min =? 0) && (endIndex y =? endIndex x))%nat
                               then None
                               else iterate m2 inner greedy c b2 (Nat.pred min)
                                      (option_map Nat.pred max) y)).
  { rewrite H12 by exact Hx. apply Hloc; [exact Hx|].
    cbn [endIndex]. intros y Hy1 Hy2.
    destruct (min =? 0)%nat eqn:Emin; cbn [andb].
    - apply Nat.eqb_eq in Emin.
      destruct (endIndex y =? endIndex x)%nat eqn:Ey; [reflexivity|].
      apply Nat.eqb_neq in Ey. apply IH; [exact Hy2|cbn; lia|cbn; lia].
    - apply Nat.eqb_neq in Emin. apply IH; [exact Hy2|lia|lia]. }
  rewrite Hd. reflexivity.
Qed.

(** Every number of rounds from the length of the input on gives the
    same match. *)
Theorem matcher_rounds r :
  forall rounds1 rounds2 x c,
    (len <= rounds1)%nat -> (len <= rounds2)%nat ->
    (endIndex x <= len)%nat ->
    matcher toUpperCase input ignoreCase rounds1 r x c
    = matcher toUpperCase input ignoreCase rounds2 r x c.
Proof.
  induction r as [|ch| |inv k| | |a IHa b IHb|a IHa b IHb|n a IHa
                  |a IHa min max greedy]; intros f1 f2 x c H1 H2 Hx;
    cbn [matcher]; try reflexivity.
  - rewrite (IHa f1 f2 x _ H1 H2 Hx).
    apply matcher_local; [exact Hx|]. intros y Hy1 Hy2.
    apply IHb; assumption.
  - rewrite (IHa f1 f2 x c H1 H2 Hx), (IHb f1 f2 x c H1 H2 Hx). reflexivity.
  - apply IHa; assumption.
  - apply iterate_rounds; try lia.
    + intros y k Hy. apply IHa; assumption.
    + apply matcher_local.
Qed.

Lemma iterate_forward m inner greedy :
  forward_matcher len m ->
  forall bound min max, forward_matcher len
    (fun x c => iterate m inner greedy c bound min max x).
Proof.
  intros Hm. induction bound as [|bound IH]; intros min max x c z Hx H.
  - discriminate.
  - cbn [iterate] in H.
    assert (Hcx : c x = Some z ->
                  exists y, (endIndex x <= endIndex y)%nat
                            /\ (endIndex y <= len)%nat /\ c y = Some z)
      by (intro Hc; exists x; repeat split; [lia|exact Hx|exact Hc]).
    assert (Hd : m {| endIndex := endIndex x;
                      caps := clear_captures inner (caps x) |}
                   (fun y => if ((min =? 0) && (endIndex y =? endIndex x))%nat
                             then None
                             else iterate m inner greedy c bound (Nat.pred min)
                                    (option_map Nat.pred max) y)
                 = Some z ->
                 exists y, (endIndex x <= endIndex y)%nat
                           /\ (endIndex y <= len)%nat /\ c y = Some z).
    { intro Hmz.
      destruct (Hm {| endIndex := endIndex x;
                      caps := clear_captures inner (caps x) |} _ z Hx Hmz)
        as [y [Hy1 [Hy2 Hy]]].
      cbn [endIndex] in Hy1.
      destruct ((min =? 0) && (endIndex y =? endIndex x))%nat; [discriminate|].
      destruct (IH _ _ _ _ _ Hy2 Hy) as [y' [H1 [H2 H3]]].
      exists y'. repeat split; [lia|exact H2|exact H3]. }
    destruct max as [[|k]|]; [exact (Hcx H)| |];
      (destruct (min =? 0)%nat; [|exact (Hd H)]);
      (destruct greedy; unfold or_else in H;
       [ destruct (m _ _) eqn:E in H; [injection H as ->; exact (Hd E)|exact (Hcx H)]
       | destruct (c x) eqn:E in H; [injection H as ->; exact (Hcx E)|exact (Hd H)] ]).
Qed.

(** A match ends between its start and the end of the input. *)
Lemma matcher_forward rounds r :
  forward_matcher len (matcher toUpperCase input ignoreCase rounds r).
Proof.
  assert (Hatom : forall r' x (c : continuation) z,
            (endIndex x <= len)%nat ->
            match nth_error input (endIndex x) with
            | Some ch => if in_set toUpperCase ignoreCase r' ch
                         then c (advance x) else None
            | None => None
            end = Some z ->
            exists y, (endIndex x <= endIndex y)%nat
                      /\ (endIndex y <= len)%nat /\ c y = Some z).
  { intros r' x c z Hx H.
    destruct (nth_error input (endIndex x)) as [u|] eqn:E; [|discriminate].
    destruct (in_set _ _ _ _); [|discriminate].
    assert (endIndex x < len)%nat by (apply nth_error_Some; congruence).
    exists (advance x). cbn. repeat split; [lia|lia|exact H]. }
  induction r as [|ch| |inv k| | |a IHa b IHb|a IHa b IHb|n a IHa
                  |a IHa min max greedy]; intros x c z Hx H;
    cbn [matcher] in H; try (eapply Hatom; eassumption).
  - exists x. repeat split; [lia|exact Hx|exact H].
  - destruct (endIndex x =? 0)%nat; [|discriminate].
    exists x. repeat split; [lia|exact Hx|exact H].
  - destruct (endIndex x =? List.length input)%nat; [|discriminate].
    exists x. repeat split; [lia|exact Hx|exact H].
  - destruct (IHa _ _ _ Hx H) as [y [Hy1 [Hy2 Hy]]].
    destruct (IHb _ _ _ Hy2 Hy) as [y' [H1 [H2 H3]]].
    exists y'. repeat split; [lia|exact H2|exact H3].
  - unfold or_else in H.
    destruct (matcher _ _ _ _ a x c) eqn:E.
    + injection H as ->. exact (IHa _ _ _ Hx E).
    + exact (IHb _ _ _ Hx H).
  - destruct (IHa _ _ _ Hx H) as [y [Hy1 [Hy2 Hy]]].
    eexists. repeat split; [| |exact Hy]; cbn; lia.
  - exact (iterate_forward (groups_of a) greedy IHa (S (rounds + min)) min max
             x c Hx H).
Qed.

Lemma scan_range r groups :
  forall n i position y,
    scan toUpperCase input ignoreCase r groups n i = Some (position, y) ->
    (i <= position)%nat /\ (position < i + n)%nat
    /\ match_at toUpperCase input ignoreCase r groups position = Some y.
Proof.
  induction n as [|n IH]; intros i position y H; [discriminate|].
  cbn [scan] in H.
  destruct (match_at toUpperCase input ignoreCase r groups i) as [y'|] eqn:E.
  - injection H as <- <-. repeat split; [lia|lia|exact E].
  - destruct (IH _ _ _ H) as [H1 [H2 H3]]. repeat split; [lia|lia|exact H3].
Qed.

(** A match found from [lastIndex] on starts there or later and ends in
    the input. *)
Lemma exec_from_range r groups lastIndex position y :
  exec_from toUpperCase input ignoreCase r groups lastIndex
  = Some (position, y) ->
  (lastIndex <= position)%nat /\ (position <= endIndex y)%nat
  /\ (endIndex y <= len)%nat.
Proof.
  unfold exec_from. intro H.
  destruct (scan_range _ _ _ _ H) as [H1 [H2 H3]].
  unfold match_at in H3.
  destruct (matcher_forward (List.length input) r
              {| endIndex := position; caps := repeat None groups |}
              (fun y => Some y) (z := y)) as [y' [Hy1 [Hy2 Hy]]];
    [cbn [endIndex]; fold len; lia|exact H3|].
  injection Hy as ->. cbn [endIndex] in Hy1. repeat split; [lia|lia|exact Hy2].
Qed.

End Rounds.

(** The rounds of [replace]: the last index grows in each, so every
    bound from [length input + 2] on gives the same text. *)
Lemma replace_loop_rounds toUpperCase re (input replacement : jsstring) :
  forall bound1 bound2 lastIndex nextSourcePosition accumulated,
    (List.length input + 2 <= bound1 + lastIndex)%nat ->
    (List.length input + 2 <= bound2 + lastIndex)%nat ->
    replace_loop toUpperCase re input replacement bound1 lastIndex
      nextSourcePosition accumulated
    = replace_loop toUpperCase re input replacement bound2 lastIndex
        nextSourcePosition accumulated.
Proof.
  assert (Hnone : forall lastIndex,
            (List.length input + 2 <= lastIndex)%nat ->
            exec_from toUpperCase input (ignore_case (flags_of re)) (body re)
              (group_count re) lastIndex = None).
  { intros lastIndex H. unfold exec_from.
    replace (S (List.length input) - lastIndex)%nat with O by lia.
    reflexivity. }
  induction bound1 as [|b1 IH]; intros b2 lastIndex next acc H1 H2.
  - destruct b2 as [|b2]; [reflexivity|]. cbn [replace_loop].
    rewrite Hnone by lia. reflexivity.
  - destruct b2 as [|b2]; cbn [replace_loop].
    + rewrite Hnone by lia. reflexivity.
    + destruct (exec_from toUpperCase input (ignore_case (flags_of re))
                  (body re) (group_count re) lastIndex)
        as [[position y]|] eqn:E; [|reflexivity].
      destruct (exec_from_range _ _ _ _ _ _ E) as [Hp [He _]].
      destruct (endIndex y =? position)%nat eqn:Eq;
        [apply Nat.eqb_eq in Eq|apply Nat.eqb_neq in Eq];
        destruct (next <=? position)%nat; apply IH; lia.
Qed.

(** *** Literal text as a pattern *)

Lemma tokens_literal_cons (c : code_unit) (r : list code_unit) :
  literal_unit c = true -> tokens (c :: r) = TAtom (Char c) :: tokens r.
Proof.
  intro H.
  assert (Hne : forall d, existsb (N.eqb d) pattern_units = true ->
                          (c =? d)%N = false).
  { intros d Hd. destruct (c =? d)%N eqn:E; [|reflexivity].
    apply N.eqb_eq in E. subst d. unfold literal_unit in H.
    rewrite Hd in H. discriminate H. }
  cbn [tokens]. unfold quantifier, plain_token.
  rewrite !Hne by reflexivity. reflexivity.
Qed.

Lemma tokens_literal (s rest : list code_unit) :
  literal s = true ->
  tokens (s ++ rest) = List.map (fun c => TAtom (Char c)) s ++ tokens rest.
Proof.
  induction s as [|c s IH]; intro H; [reflexivity|].
  cbn [literal forallb] in H. apply andb_prop in H. destruct H as [Hc Hs].
  cbn [app List.map]. rewrite tokens_literal_cons by exact Hc.
  f_equal. apply IH. exact Hs.
Qed.

Lemma parse_tokens_units (s : list code_unit) :
  forall ts groups cur stack,
    parse_tokens (List.map (fun c => TAtom (Char c)) s ++ ts) groups cur stack
    = parse_tokens ts groups
        {| f_capture := f_capture cur; f_alts := f_alts cur;
           f_seq := rev (List.map unit_term s) ++ f_seq cur |} stack.
Proof.
  induction s as [|c s IH]; intros ts groups cur stack.
  - destruct cur. reflexivity.
  - cbn [List.map app parse_tokens]. rewrite IH.
    cbn [push_term f_capture f_alts f_seq rev]. rewrite <- app_assoc.
    reflexivity.
Qed.

(** The pattern [^s$] of a literal [s]. *)
Lemma parse_anchored_literal (s : jsstring) :
  literal s = true ->
  parse (js "^" ++ s ++ js "$")
  = Ok (alternative
          ({| t_node := LineEnd; t_atom := false |}
             :: rev (List.map unit_term s)
             ++ [{| t_node := LineStart; t_atom := false |}]), 0%nat).
Proof.
  intro H. unfold parse.
  change (js "^" ++ s ++ js "$")
    with (unit_of "^" :: (s ++ [unit_of "$"])).
  change (tokens (unit_of "^" :: (s ++ [unit_of "$"])))
    with (TAssert LineStart :: tokens (s ++ [unit_of "$"])).
  rewrite tokens_literal by exact H.
  cbn [parse_tokens]. rewrite parse_tokens_units. reflexivity.
Qed.

Section LiteralMatch.

Variable toUpperCase : code_unit -> list code_unit.
Variable input : jsstring.
Variable rounds : nat.

Lemma matcher_seq_of (ts : list term) :
  forall acc x c,
    matcher toUpperCase input false rounds (seq_of ts acc) x c
    = matcher_terms toUpperCase input false rounds (rev ts)
        (fun y => matcher toUpperCase input false rounds acc y c) x.
Proof.
  induction ts as [|t ts IH]; intros acc x c; [reflexivity|].
  cbn [seq_of rev]. rewrite IH. unfold matcher_terms.
  rewrite fold_right_app. reflexivity.
Qed.

(** Literal units match the same units of the input and nothing else. *)
Lemma matcher_terms_units (s : list code_unit) :
  forall (before : nat) cs c,
    firstn (List.length s) (skipn before input) = s ->
    matcher_terms toUpperCase input false rounds (List.map unit_term s) c
      {| endIndex := before; caps := cs |}
    = c {| endIndex := before + List.length s; caps := cs |}.
Proof.
  induction s as [|u s IH]; intros before cs c H.
  - cbn. rewrite Nat.add_0_r. reflexivity.
  - cbn [List.map matcher_terms fold_right unit_term t_node matcher endIndex].
    cbn [List.length firstn] in H.
    destruct (skipn before input) as [|v rest] eqn:E; [discriminate|].
    injection H as -> Hrest.
    assert (Hnth : nth_error input before = Some u).
    { rewrite <- (firstn_skipn before input), E.
      rewrite nth_error_app2 by (rewrite length_firstn; lia).
      assert (Hlen : (before <= List.length input)%nat).
      { destruct (Nat.le_gt_cases before (List.length input)) as [Hle|Hgt];
          [exact Hle|].
        rewrite skipn_all2 in E by lia. discriminate. }
      rewrite length_firstn, Nat.min_l by exact Hlen.
      rewrite Nat.sub_diag. reflexivity. }
    rewrite Hnth. cbn [in_set same_unit]. rewrite N.eqb_refl.
    unfold advance. cbn [endIndex caps].
    fold (matcher_terms toUpperCase input false rounds (List.map unit_term s) c).
    rewrite (IH (S before) cs c).
    + f_equal. f_equal. cbn [List.length]. lia.
    + assert (Hs : skipn (S before) input = rest).
      { change (S before) with (1 + before)%nat.
        rewrite <- skipn_skipn, E. reflexivity. }
      rewrite Hs. exact Hrest.
Qed.

End LiteralMatch.

(** A literal text passes the test of its own anchored pattern. *)
Lemma test_anchored_literal toUpperCase (s : jsstring) (re : t) :
  literal s = true ->
  new_RegExp (js "^" ++ s ++ js "$") no_flags = Ok re ->
  test toUpperCase re s = true.
Proof.
  intros H Hre. unfold new_RegExp in Hre.
  rewrite (parse_anchored_literal s H) in Hre. cbn [bind] in Hre.
  injection Hre as <-.
  unfold test, exec, exec_from.
  cbn [body group_count flags_of ignore_case no_flags].
  replace (S (List.length s) - 0)%nat with (S (List.length s)) by lia.
  cbn [scan]. unfold match_at. cbn [alternative t_node repeat].
  rewrite matcher_seq_of. rewrite rev_app_distr, rev_involutive.
  cbn [rev app].
  change (matcher_terms toUpperCase s false (List.length s)
            ({| t_node := LineStart; t_atom := false |}
               :: List.map unit_term s) ?k ?x)
    with (matcher toUpperCase s false (List.length s) LineStart x
            (matcher_terms toUpperCase s false (List.length s)
               (List.map unit_term s) k)).
  cbn [matcher endIndex Nat.eqb].
  rewrite matcher_terms_units by (cbn [skipn]; apply firstn_all).
  cbn [matcher endIndex Nat.add]. rewrite Nat.eqb_refl. reflexivity.
Qed.

(** *** Finding a match *)

Lemma same_unit_refl toUpperCase ignoreCase (c : code_unit) :
  same_unit toUpperCase ignoreCase c c = true.
Proof.
  unfold same_unit. destruct ignoreCase; [|apply N.eqb_refl].
  destruct (c <? 128)%N; cbn [andb orb]; apply N.eqb_refl.
Qed.

Section Finding.

Variable toUpperCase : code_unit -> list code_unit.
Variable input : jsstring.
Variable ignoreCase : bool.

Lemma scan_finds (r : node) (groups : nat) (j : nat) :
  match_at toUpperCase input ignoreCase r groups j <> None ->
  forall n i, (i <= j < i + n)%nat ->
    scan toUpperCase input ignoreCase r groups n i <> None.
Proof.
  intros Hj. induction n as [|n IH]; intros i Hi; [lia|].
  cbn [scan].
  destruct (match_at toUpperCase input ignoreCase r groups i) eqn:E;
    [discriminate|].
  apply IH. destruct (Nat.eq_dec i j) as [->|Hne]; [|lia].
  rewrite E in Hj. contradiction.
Qed.

Lemma matcher_accepts (rounds : nat) (c : code_unit) (r : node) :
  accepts_unit r c = true ->
  forall x k,
    nth_error input (endIndex x) = Some c ->
    (forall y, k y <> None) ->
    matcher toUpperCase input ignoreCase rounds r x k <> None.
Proof.
  induction r; cbn [accepts_unit]; intro H; try discriminate;
    intros x k Hx Hk.
  - cbn [matcher]. rewrite Hx. cbn [in_set].
    apply N.eqb_eq in H. subst ch. rewrite same_unit_refl. apply Hk.
  - cbn [matcher]. rewrite Hx. cbn [in_set]. rewrite H. apply Hk.
  - cbn [matcher]. apply orb_prop in H.
    destruct (matcher toUpperCase input ignoreCase rounds r1 x k) eqn:E1;
      cbn [or_else]; [discriminate|].
    destruct H as [H|H]; [exfalso; revert E1; apply IHr1; assumption|].
    apply IHr2; assumption.
  - cbn [matcher]. apply IHr; [exact H|exact Hx|]. intro y. apply Hk.
Qed.

End Finding.

Lemma exec_finds toUpperCase (re : t) (input : jsstring) (j : nat) :
  (j <= List.length input)%nat ->
  match_at toUpperCase input (ignore_case (flags_of re)) (body re)
    (group_count re) j <> None ->
  exec toUpperCase re input <> None.
Proof.
  intros Hj H. unfold exec, exec_from.
  pose proof (@scan_finds toUpperCase input (ignore_case (flags_of re))
                (body re) (group_count re) j H
                (S (List.length input) - 0) 0%nat) as Hs.
  destruct (scan toUpperCase input (ignore_case (flags_of re)) (body re)
              (group_count re) (S (List.length input) - 0) 0);
    [discriminate|]. exfalso. apply Hs; [lia|reflexivity].
Qed.

(** A pattern that accepts a unit is found in every text with the unit. *)
Lemma exec_accepts toUpperCase (re : t) (input : jsstring) (c : code_unit) :
  accepts_unit (body re) c = true ->
  In c input ->
  exec toUpperCase re input <> None.
Proof.
  intros H Hin. apply In_nth_error in Hin. destruct Hin as [j Hj].
  apply (@exec_finds toUpperCase re input j).
  - apply Nat.lt_le_incl. apply (proj1 (nth_error_Some input j)).
    intro Hn. pose proof (eq_trans (eq_sym Hn) Hj) as Hd. discriminate Hd.
  - unfold match_at. apply matcher_accepts with (c := c);
      [exact H|exact Hj|discriminate].
Qed.

(** A listed node fails where the input has none of its first units. *)
Lemma matcher_cannot_start toUpperCase (input : jsstring) (rounds : nat)
  (r : node) :
  listed r = true ->
  forall x cont,
    (forall ch, nth_error input (endIndex x) = Some ch ->
                starts r ch = false) ->
    matcher toUpperCase input false rounds r x cont = None.
Proof.
  unfold starts.
  induction r; cbn [listed]; intro H; try discriminate; intros x cont Hx.
  - cbn [matcher]. destruct (nth_error input (endIndex x)) as [c|];
      [|reflexivity].
    specialize (Hx c eq_refl). cbn [first_units existsb] in Hx.
    rewrite orb_false_r in Hx. cbn [in_set same_unit]. rewrite Hx.
    reflexivity.
  - destruct invert; [discriminate|].
    cbn [matcher]. destruct (nth_error input (endIndex x)) as [c|];
      [|reflexivity].
    specialize (Hx c eq_refl). cbn [first_units] in Hx.
    cbn [in_set xorb].
    change (fun a : code_unit => same_unit toUpperCase false a c)
      with (fun a : N => (a =? c)%N).
    match goal with
    | |- (if ?b then _ else _) = None =>
      replace b with false by (symmetry; exact Hx)
    end.
    reflexivity.
  - cbn [matcher]. apply IHr1; [exact H|].
    intros ch Hch. exact (Hx ch Hch).
  - apply andb_prop in H. destruct H as [H1 H2].
    cbn [matcher].
    rewrite IHr1, IHr2; [reflexivity|exact H2| |exact H1|];
      intros ch Hch; specialize (Hx ch Hch); cbn [first_units] in Hx;
      rewrite existsb_app in Hx; apply orb_false_elim in Hx; tauto.
Qed.

Lemma scan_none toUpperCase (input : jsstring) (ignoreCase : bool) (r : node)
  (groups : nat) :
  (forall i, match_at toUpperCase input ignoreCase r groups i = None) ->
  forall n i, scan toUpperCase input ignoreCase r groups n i = None.
Proof.
  intros H. induction n as [|n IH]; intro i; [reflexivity|].
  cbn [scan]. rewrite H. apply IH.
Qed.

(** A global pattern that can start with no unit of the text leaves the
    text as it is. *)
Lemma replace_unchanged toUpperCase (re : t) (input replacement : jsstring) :
  existsb (N.eqb (unit_of "$")) replacement = false ->
  flags_of re = flag_g ->
  listed (body re) = true ->
  (forall ch, In ch input -> starts (body re) ch = false) ->
  replace toUpperCase input re replacement = Ok input.
Proof.
  intros Hd Hf Hl Hs. unfold replace. rewrite Hd, Hf. cbn [global flag_g negb].
  replace (List.length input + 2)%nat with (S (List.length input + 1))
    by lia.
  cbn [replace_loop]. unfold exec_from. rewrite Hf. cbn [ignore_case flag_g].
  rewrite scan_none; [reflexivity|].
  intro i. unfold match_at. apply matcher_cannot_start; [exact Hl|].
  cbn [endIndex]. intros ch Hch. apply Hs. exact (nth_error_In _ _ Hch).
Qed.

End RegExpFacts.

(** ** getClosenessRanking *)

Section Closeness.

Implicit Types (c : JsString.code_unit) (testString query : jsstring).

Lemma findMatchingCharacter_from_undefined units :
  forall j count,
    findMatchingCharacter_from None units j count = (count, -1).
Proof.
  induction units as [|u r IH]; intros j count; cbn; [reflexivity|apply IH].
Qed.

(** The inner loop finds the first occurrence. *)
Lemma findMatchingCharacter_from_index_of c units :
  forall j count,
    findMatchingCharacter_from (Some c) units j count
    = match index_of c units with
      | Some k => (count + 1, j + Z.of_nat k + 1)
      | None => (count, -1)
      end.
Proof.
  induction units as [|u r IH]; intros j count; cbn.
  - reflexivity.
  - destruct (u =? c)%N.
    + f_equal. lia.
    + rewrite IH. destruct (index_of c r) as [k|]; cbn; [|reflexivity].
      f_equal. lia.
Qed.

Lemma findMatchingCharacter_first_occurrence c testString (from : nat) count :
  findMatchingCharacter (Some c) testString (Z.of_nat from) count
  = match first_occurrence c testString from with
    | Some p => (count + 1, Z.of_nat (S p))
    | None => (count, -1)
    end.
Proof.
  unfold findMatchingCharacter, first_occurrence.
  rewrite Nat2Z.id, findMatchingCharacter_from_index_of.
  destruct (index_of c (skipn from testString)) as [k|]; cbn; [|reflexivity].
  f_equal. lia.
Qed.

Lemma last_cons (p : nat) (ps : list nat) (d : nat) :
  last (p :: ps) d = last ps p.
Proof.
  revert p d. induction ps as [|q r IH]; intros p d; [reflexivity|].
  change (last (p :: q :: r) d) with (last (q :: r) d).
  rewrite (IH q d), (IH q p). reflexivity.
Qed.

Lemma subsequence_positions_length testString query :
  forall from ps,
    subsequence_positions testString query from = Some ps ->
    List.length ps = List.length query.
Proof.
  induction query as [|c q IH]; intros from ps H; cbn in H.
  - injection H as <-. reflexivity.
  - destruct (first_occurrence c testString from) as [p|]; [|discriminate].
    destruct (subsequence_positions testString q (S p)) as [ps'|] eqn:E;
      [|discriminate].
    injection H as <-. cbn. f_equal. exact (IH _ _ E).
Qed.

(** The outer loop follows the positions of the specification: after
    the unit at [prev], it ends one past the last position. *)
Lemma closeness_loop_positions testString query :
  forall (prev : nat) count,
    closeness_loop testString query (Z.of_nat (S prev)) count
    = option_map
        (fun ps => (count + Z.of_nat (List.length query),
                    Z.of_nat (S (last ps prev))))
        (subsequence_positions testString query (S prev)).
Proof.
  induction query as [|c q IH]; intros prev count.
  - cbn. f_equal. f_equal. lia.
  - cbn [closeness_loop subsequence_positions].
    rewrite findMatchingCharacter_first_occurrence.
    destruct (first_occurrence c testString (S prev)) as [p|];
      [|reflexivity].
    replace (Z.of_nat (S p) >? -1) with true
      by (symmetry; apply Z.gtb_lt; lia).
    rewrite IH.
    destruct (subsequence_positions testString q (S p)) as [ps|];
      [|reflexivity].
    cbn [option_map]. rewrite last_cons. f_equal. f_equal.
    cbn [List.length]. lia.
Qed.

(** The result of the program in terms of the positions. *)
Lemma getClosenessRanking_positions testString query :
  getClosenessRanking testString query
  = match query, subsequence_positions testString query 0 with
    | _ :: _, Some ps =>
      Matches (spread ps) (JsString.length query)
        (JsNumber.mul
           (JsNumber.div (JsNumber.of_Z (JsString.length query))
              (JsNumber.of_Z (JsString.length query)))
           (JsNumber.div JsNumber.one (JsNumber.of_Z (spread ps))))
    | _, _ => NoMatch
    end.
Proof.
  unfold getClosenessRanking. destruct query as [|c q].
  - cbn [JsString.at_index Z.ltb Z.compare Z.to_nat nth_error].
    unfold findMatchingCharacter.
    rewrite findMatchingCharacter_from_undefined. reflexivity.
  - change (JsString.at_index (c :: q) 0) with (Some c).
    pose proof (findMatchingCharacter_first_occurrence c testString 0 0)
      as Hfirst.
    change (Z.of_nat 0) with 0 in Hfirst. rewrite Hfirst. clear Hfirst.
    cbn [subsequence_positions skipn].
    destruct (first_occurrence c testString 0) as [p|]; [|reflexivity].
    replace (Z.of_nat (S p) <? 0) with false
      by (symmetry; apply Z.ltb_ge; lia).
    rewrite closeness_loop_positions.
    destruct (subsequence_positions testString q (S p)) as [ps|];
      [|reflexivity].
    cbn [option_map].
    assert (Hs : Z.of_nat (S (last ps p)) - Z.of_nat (S p) = spread (p :: ps)).
    { unfold spread, last_position, first_position.
      rewrite last_cons. cbn [hd]. lia. }
    assert (Hn : 0 + 1 + Z.of_nat (List.length q) = JsString.length (c :: q)).
    { unfold JsString.length. cbn [List.length]. lia. }
    rewrite Hs, Hn. reflexivity.
Qed.

Lemma first_occurrence_from c testString (from p : nat) :
  first_occurrence c testString from = Some p -> (from <= p)%nat.
Proof.
  unfold first_occurrence.
  destruct (index_of c (skipn from testString)) as [k|]; [|discriminate].
  cbn. intro H. injection H as <-. lia.
Qed.

(** The positions grow: the last one is not before a position that
    precedes them all. *)
Lemma last_position_from testString query :
  forall (from : nat) ps (p0 : nat),
    subsequence_positions testString query from = Some ps ->
    (p0 <= from)%nat -> (p0 <= last ps p0)%nat.
Proof.
  induction query as [|c q IH]; intros from ps p0 H Hp0; cbn in H.
  - injection H as <-. cbn. lia.
  - destruct (first_occurrence c testString from) as [p|] eqn:Ep;
      [|discriminate].
    destruct (subsequence_positions testString q (S p)) as [ps'|] eqn:E;
      [|discriminate].
    injection H as <-. rewrite last_cons.
    apply first_occurrence_from in Ep.
    pose proof (IH (S p) ps' p E (Nat.le_succ_diag_r p)). lia.
Qed.

Lemma spread_nonnegative testString query ps :
  subsequence_positions testString query 0 = Some ps -> 0 <= spread ps.
Proof.
  intro H. destruct query as [|c q]; cbn in H.
  - injection H as <-. cbn. lia.
  - destruct (first_occurrence c testString 0) as [p|]; [|discriminate].
    destruct (subsequence_positions testString q (S p)) as [ps'|] eqn:E;
      [|discriminate].
    injection H as <-.
    unfold spread, last_position, first_position. rewrite last_cons.
    cbn [hd].
    pose proof (@last_position_from testString q (S p) ps' p E
                  (Nat.le_succ_diag_r p)). lia.
Qed.

Lemma index_of_none (c : JsString.code_unit) (units : list JsString.code_unit) :
  ~ In c units -> index_of c units = None.
Proof.
  induction units as [|u r IH]; intro H; [reflexivity|].
  cbn [index_of]. destruct (N.eqb_spec u c) as [->|Hne].
  - exfalso. apply H. left. reflexivity.
  - rewrite IH; [reflexivity|]. intro Hin. apply H. right. exact Hin.
Qed.

(** With two units or more the spread is positive. *)
Lemma spread_positive (testString : jsstring) (c1 c2 : JsString.code_unit)
  (query : jsstring) (ps : list nat) :
  subsequence_positions testString (c1 :: c2 :: query) 0 = Some ps ->
  0 < spread ps.
Proof.
  intro H. cbn [subsequence_positions] in H.
  destruct (first_occurrence c1 testString 0) as [p1|]; [|discriminate].
  destruct (first_occurrence c2 testString (S p1)) as [p2|] eqn:E2;
    [|discriminate].
  destruct (subsequence_positions testString query (S p2)) as [ps'|] eqn:E;
    [|discriminate].
  injection H as <-.
  unfold spread, last_position, first_position.
  rewrite !last_cons. cbn [hd].
  apply first_occurrence_from in E2.
  pose proof (@last_position_from testString query (S p2) ps' p2 E
                (Nat.le_succ_diag_r p2)). lia.
Qed.

Lemma length_positive c query : 0 < JsString.length (c :: query).
Proof. unfold JsString.length. cbn [List.length]. lia. Qed.

(** The fuzzy step succeeds exactly when the query is not empty and has
    its positions. *)
Lemma getClosenessRanking_succeeds testString query ps :
  query <> [] ->
  subsequence_positions testString query 0 = Some ps ->
  getClosenessRanking testString query
  = Matches (spread ps) (JsString.length query)
      (JsNumber.div JsNumber.one (JsNumber.of_Z (spread ps))).
Proof.
  intros Hq Hps. rewrite getClosenessRanking_positions.
  destruct query as [|c q]; [contradiction|]. rewrite Hps.
  rewrite (JsNumberFacts.div_same (length_positive c q)).
  rewrite (JsNumberFacts.mul_one_div (spread_nonnegative _ _ Hps)).
  reflexivity.
Qed.

Lemma getClosenessRanking_fails testString query :
  subsequence_positions testString query 0 = None ->
  getClosenessRanking testString query = NoMatch.
Proof.
  intro H. rewrite getClosenessRanking_positions.
  destruct query; [reflexivity|]. rewrite H. reflexivity.
Qed.

(** X5. The fuzzy step fails exactly when the query is empty or some unit of
    it has no position. *)
Theorem getClosenessRanking_no_match testString query :
  getClosenessRanking testString query = NoMatch
  <-> (query = [] \/ subsequence_positions testString query 0 = None).
Proof.
  split.
  - intro H.
    destruct (subsequence_positions testString query 0) as [ps|] eqn:E;
      [|right; reflexivity].
    destruct query as [|c q]; [left; reflexivity|].
    rewrite (@getClosenessRanking_succeeds testString (c :: q) ps) in H;
      [discriminate|discriminate|exact E].
  - intros [->|H].
    + rewrite getClosenessRanking_positions. reflexivity.
    + exact (getClosenessRanking_fails _ _ H).
Qed.

(** C4, amended. When the fuzzy step succeeds, the query is not empty
    and every unit of it has its position; the result has
    matchedCharCount (the field [length]) equal to the query length, the
    spread (the field [index]) equal to the index of the last matched
    unit minus the index of the first one, and closeness =
    matchedCharCount / queryLength / spread for that spread, which is
    1 / spread (Infinity for a query of one unit, whose spread is 0). *)
Theorem getClosenessRanking_matches testString stringToRank
  (index length : Z) (c : JsNumber.t) :
  getClosenessRanking testString stringToRank = Matches index length c ->
  exists ps,
    subsequence_positions testString stringToRank 0 = Some ps
    /\ List.length ps = List.length stringToRank
    /\ stringToRank <> []
    /\ length = JsString.length stringToRank
    /\ index = spread ps
    /\ c = stated_closeness length (JsString.length stringToRank) (spread ps)
    /\ c = JsNumber.div JsNumber.one (JsNumber.of_Z (spread ps)).
Proof.
  intro H.
  destruct (subsequence_positions testString stringToRank 0) as [ps|] eqn:E;
    [|rewrite (getClosenessRanking_fails _ _ E) in H; discriminate].
  destruct stringToRank as [|u q];
    [rewrite getClosenessRanking_positions in H; discriminate|].
  rewrite (@getClosenessRanking_succeeds testString (u :: q) ps) in H;
    [|discriminate|exact E].
  injection H as <- <- <-.
  exists ps. repeat split.
  - exact (subsequence_positions_length _ _ _ E).
  - discriminate.
  - unfold stated_closeness.
    rewrite (JsNumberFacts.div_same (length_positive u q)). reflexivity.
Qed.

End Closeness.

(** C4 at an input: "hlo" in "hello" sits at 0, 2 and 4. *)
Lemma getClosenessRanking_matches_witness :
  exists ps,
    subsequence_positions (js "hello") (js "hlo") 0 = Some ps
    /\ List.length ps = List.length (js "hlo")
    /\ js "hlo" <> []
    /\ 3 = JsString.length (js "hlo")
    /\ 4 = spread ps
    /\ JsNumber.Finite (1 # 4)
       = stated_closeness 3 (JsString.length (js "hlo")) (spread ps)
    /\ JsNumber.Finite (1 # 4)
       = JsNumber.div JsNumber.one (JsNumber.of_Z (spread ps)).
Proof.
  apply (@getClosenessRanking_matches (js "hello") (js "hlo") 4 3
           (JsNumber.Finite (1 # 4))).
  vm_compute. reflexivity.
Defined.

(** C4 as stated fails: for "hlo" in "hello" the stated spread is
    (4 + 1) - 0 = 5 and the stated closeness 1/5, and the program returns
    the spread 4 and the closeness 1/4. *)
Lemma stated_fuzzy_result_counterexample :
  ~ stated_fuzzy_result (js "hello") (js "hlo").
Proof.
  intro H. destruct (H [0; 2; 4]%nat eq_refl) as [index Hindex].
  vm_compute in Hindex. discriminate Hindex.
Qed.

(** ** The scorer *)

Section EmptyQuery.

Variable toUpperCase : JsString.code_unit -> list JsString.code_unit.

Context {TItem : Type}.

Implicit Types (testString : jsstring) (f : RegExp.flags).

Lemma searchRegex_empty : searchRegex toUpperCase [] = Ok [].
Proof. vm_compute. reflexivity. Qed.

Lemma new_RegExp_anchored_empty f :
  RegExp.new_RegExp (js "^" ++ [] ++ js "$") f
  = Ok {| RegExp.body := RegExp.Seq RegExp.LineStart RegExp.LineEnd;
          RegExp.group_count := 0;
          RegExp.flags_of := f |}.
Proof. reflexivity. Qed.

Lemma new_RegExp_line_start f :
  RegExp.new_RegExp (js "^" ++ []) f
  = Ok {| RegExp.body := RegExp.LineStart;
          RegExp.group_count := 0;
          RegExp.flags_of := f |}.
Proof. reflexivity. Qed.

(** The pattern [^$] matches at no start index of a text that is not
    empty: the end is not at index 0 and the start at no other. *)
Lemma scan_anchored_empty testString (ignoreCase : bool) :
  testString <> [] ->
  forall n i,
    RegExp.scan toUpperCase testString ignoreCase
      (RegExp.Seq RegExp.LineStart RegExp.LineEnd) 0 n i
    = None.
Proof.
  intros Hne. induction n as [|n IH]; intro i; [reflexivity|].
  cbn [RegExp.scan]. unfold RegExp.match_at.
  cbn [RegExp.matcher RegExp.endIndex].
  destruct i as [|i]; cbn [Nat.eqb].
  - destruct testString as [|u r]; [contradiction|]. cbn. apply IH.
  - apply IH.
Qed.

Lemma test_anchored_empty testString f :
  testString <> [] ->
  RegExp.test toUpperCase
    {| RegExp.body := RegExp.Seq RegExp.LineStart RegExp.LineEnd;
       RegExp.group_count := 0;
       RegExp.flags_of := f |} testString
  = false.
Proof.
  intro Hne. unfold RegExp.test, RegExp.exec, RegExp.exec_from.
  cbn [RegExp.body RegExp.group_count RegExp.flags_of].
  rewrite scan_anchored_empty by exact Hne. reflexivity.
Qed.

(** The pattern [^] matches every text at index 0 with the empty
    string. *)
Lemma exec_line_start testString f :
  RegExp.exec toUpperCase
    {| RegExp.body := RegExp.LineStart;
       RegExp.group_count := 0;
       RegExp.flags_of := f |} testString
  = Some {| RegExp.index := 0; RegExp.whole := []; RegExp.groups := [] |}.
Proof. reflexivity. Qed.

(** C9. With the empty query a test string that is not empty is ranked
    STARTS_WITH with length 0 and the empty test string
    CASE_SENSITIVE_EQUAL, whatever the options; both come from the steps
    with a pattern, so the fuzzy step is never reached. *)
Theorem getMatchRanking_empty_query testString
  (options : RankItemOptions.t TItem) :
  pattern_ranking toUpperCase testString [] options
  = Ok (Some match testString with
             | [] => CaseSensitiveEqual
             | _ :: _ => StartsWith 0
             end)
  /\ getMatchRanking toUpperCase testString [] options
     = Ok match testString with
          | [] => CaseSensitiveEqual
          | _ :: _ => StartsWith 0
          end.
Proof.
  assert (H : pattern_ranking toUpperCase testString [] options
              = Ok (Some match testString with
                         | [] => CaseSensitiveEqual
                         | _ :: _ => StartsWith 0
                         end)).
  { unfold pattern_ranking.
    destruct (negb (truthy (RankItemOptions.keepDiacritics options)));
      [rewrite searchRegex_empty|]; cbn [bind];
      rewrite !new_RegExp_anchored_empty, new_RegExp_line_start; cbn [bind];
      (destruct testString as [|u r]; [reflexivity|]);
      rewrite !test_anchored_empty by discriminate;
      rewrite exec_line_start; reflexivity. }
  split; [exact H|]. unfold getMatchRanking. rewrite H.
  destruct testString; reflexivity.
Qed.

(** When the text that the steps embed is the query itself and has no
    pattern units, the first step ranks the query against itself. *)
Lemma getMatchRanking_literal (s : jsstring)
  (options : RankItemOptions.t TItem) :
  search_string toUpperCase s options = Ok s ->
  literal s = true ->
  getMatchRanking toUpperCase s s options = Ok CaseSensitiveEqual.
Proof.
  intros Hsearch Hs. unfold getMatchRanking, pattern_ranking.
  unfold search_string in Hsearch. rewrite Hsearch. cbn [bind].
  destruct (RegExp.new_RegExp (js "^" ++ s ++ js "$") RegExp.no_flags)
    as [re| |] eqn:E.
  - cbn [bind].
    rewrite (RegExpFacts.test_anchored_literal toUpperCase s Hs E).
    reflexivity.
  - unfold RegExp.new_RegExp in E.
    rewrite (RegExpFacts.parse_anchored_literal s Hs) in E. discriminate E.
  - unfold RegExp.new_RegExp in E.
    rewrite (RegExpFacts.parse_anchored_literal s Hs) in E. discriminate E.
Qed.

(** X7. With keepDiacritics the query is the pattern as it is: a text without
    pattern units is ranked CASE_SENSITIVE_EQUAL against itself. *)
Theorem getMatchRanking_same_literal_text (s : jsstring)
  (options : RankItemOptions.t TItem) :
  RankItemOptions.keepDiacritics options = Some true ->
  literal s = true ->
  getMatchRanking toUpperCase s s options = Ok CaseSensitiveEqual.
Proof.
  intros Hkeep Hs. apply getMatchRanking_literal; [|exact Hs].
  unfold search_string. rewrite Hkeep. reflexivity.
Qed.

End EmptyQuery.

(** A text with letters, a space and a hyphen under keepDiacritics. *)
Lemma getMatchRanking_same_literal_text_witness :
  getMatchRanking toUpperCase_latin1 (js "Fred Flint-stone")
    (js "Fred Flint-stone")
    {| RankItemOptions.accessors := @None (list (Accessor unit));
       RankItemOptions.threshold := None;
       RankItemOptions.keepDiacritics := Some true |}
  = Ok CaseSensitiveEqual.
Proof.
  apply (@getMatchRanking_same_literal_text toUpperCase_latin1 unit);
    reflexivity.
Defined.

(** *** The table, and a query of one unit

    The fuzzy step gives a query of one unit the spread 0 and the
    closeness 1/0.  The scorer never returns it: when the unit is in the
    text, the contains step finds it, whether the table has rewritten
    the unit or not. *)

Section UnitQuery.

Variable toUpperCase : JsString.code_unit -> list JsString.code_unit.

Context {TItem : Type}.

(** Every group of the table is a listed pattern. *)
Lemma table_listed : forallb group_listed similarCharacters = true.
Proof. vm_compute. reflexivity. Qed.

(** The table leaves a text with none of its units as it is. *)
Lemma searchRegex_outside (s : jsstring) :
  forallb outside_table s = true -> searchRegex toUpperCase s = Ok s.
Proof.
  intro H.
  assert (Hs : forall ch, In ch s ->
                 existsb (fun a => (a =? ch)%N) table_units = false).
  { intros ch Hch. apply negb_true_iff.
    exact (proj1 (forallb_forall _ _) H ch Hch). }
  clear H. revert Hs. unfold searchRegex, table_units.
  pose proof table_listed as Hl. revert Hl.
  generalize similarCharacters as l.
  induction l as [|g l IH]; intros Hl Hs; [reflexivity|].
  cbn [forallb] in Hl. apply andb_prop in Hl. destruct Hl as [Hg Hl].
  cbn [fold_left bind].
  unfold group_listed in Hg. apply andb_prop in Hg. destruct Hg as [Hd Hg].
  assert (Hsg : forall ch, In ch s ->
                  existsb (fun a => (a =? ch)%N) (group_units g) = false
                  /\ existsb (fun a => (a =? ch)%N) (flat_map group_units l)
                     = false).
  { intros ch Hch. specialize (Hs ch Hch). cbn [flat_map] in Hs.
    rewrite existsb_app in Hs. apply orb_false_elim in Hs. exact Hs. }
  unfold group_units in Hsg.
  destruct (RegExp.new_RegExp g RegExp.flag_g) as [re| |] eqn:E;
    try discriminate.
  cbn [bind].
  rewrite RegExpFacts.replace_unchanged.
  - apply IH; [exact Hl|]. intros ch Hch. exact (proj2 (Hsg ch Hch)).
  - apply negb_true_iff. exact Hd.
  - unfold RegExp.new_RegExp in E.
    destruct (RegExp.parse g) as [[r n]| |]; try discriminate.
    cbn [bind] in E. injection E as <-. reflexivity.
  - exact Hg.
  - intros ch Hch. exact (proj1 (Hsg ch Hch)).
Qed.

Lemma outside_or_in_table (c : JsString.code_unit) :
  outside_table c = true \/ In c table_units.
Proof.
  unfold outside_table.
  destruct (existsb (fun a => (a =? c)%N) table_units) eqn:E;
    [right|left; reflexivity].
  apply existsb_exists in E. destruct E as [a [Ha E]].
  apply N.eqb_eq in E. subst a. exact Ha.
Qed.

(** For a query made of one unit of the table, the pattern of the
    contains step, when there is one, accepts that unit. *)
Lemma table_units_accepted :
  forallb
    (fun c =>
       match searchRegex toUpperCase [c] with
       | Ok searchString =>
         match RegExp.new_RegExp searchString RegExp.flag_i with
         | Ok re => accepts_unit (RegExp.body re) c
         | _ => true
         end
       | _ => true
       end)
    table_units
  = true.
Proof. vm_compute. reflexivity. Qed.

(** The pattern steps return no fuzzy match. *)
Lemma pattern_ranking_closeness (testString stringToRank : jsstring)
  (options : RankItemOptions.t TItem) (m : MatchRanking) :
  pattern_ranking toUpperCase testString stringToRank options = Ok (Some m) ->
  closeness m = None.
Proof.
  unfold pattern_ranking.
  repeat match goal with
  | |- bind ?x _ = _ -> _ => destruct x; cbn [bind]; try discriminate
  | |- (if ?b then _ else _) = _ -> _ => destruct b
  | |- match ?x with Some _ => _ | None => _ end = _ -> _ => destruct x
  end;
  intro H; try discriminate H; injection H as <-; reflexivity.
Qed.

(** When the pattern of the contains step finds something, or does not
    exist, the pattern steps do not fall through. *)
Lemma pattern_ranking_contains (testString stringToRank : jsstring)
  (options : RankItemOptions.t TItem) :
  match search_string toUpperCase stringToRank options with
  | Ok searchString =>
    match RegExp.new_RegExp searchString RegExp.flag_i with
    | Ok re => RegExp.exec toUpperCase re testString <> None
    | _ => True
    end
  | _ => True
  end ->
  pattern_ranking toUpperCase testString stringToRank options <> Ok None.
Proof.
  unfold pattern_ranking, search_string.
  destruct (if negb (truthy (RankItemOptions.keepDiacritics options))
            then searchRegex toUpperCase stringToRank
            else Ok stringToRank) as [searchString| |];
    cbn [bind]; try discriminate.
  intro H.
  repeat match goal with
  | |- bind (RegExp.new_RegExp searchString RegExp.flag_i) _ <> _ => fail 1
  | |- bind ?x _ <> _ => destruct x; cbn [bind]; try discriminate
  | |- (if ?b then _ else _) <> _ => destruct b; try discriminate
  | |- match ?x with Some _ => _ | None => _ end <> _ =>
    destruct x; try discriminate
  end.
  destruct (RegExp.new_RegExp searchString RegExp.flag_i) as [re| |];
    cbn [bind]; try discriminate.
  destruct (RegExp.exec toUpperCase re testString); [discriminate|].
  contradiction.
Qed.

(** The pattern made of one unit finds something in every text with that
    unit, when it is a pattern. *)
Lemma unit_pattern_found (testString : jsstring) (c : JsString.code_unit) :
  In c testString ->
  match RegExp.new_RegExp [c] RegExp.flag_i with
  | Ok re => RegExp.exec toUpperCase re testString <> None
  | _ => True
  end.
Proof.
  intro Hin. destruct (literal_unit c) eqn:El.
  - pose proof (RegExpFacts.tokens_literal_cons c [] El) as Ht.
    unfold RegExp.new_RegExp, RegExp.parse.
    match type of Ht with
    | ?l = _ =>
      match goal with
      | |- context [RegExp.tokens ?p] => change (RegExp.tokens p) with l
      end
    end.
    rewrite Ht. cbn [RegExp.parse_tokens RegExp.push_term RegExp.new_frame
                       RegExp.disjunction RegExp.alt_of RegExp.alternative
                       RegExp.seq_of RegExp.f_alts RegExp.f_seq
                       RegExp.f_capture RegExp.t_node bind].
    apply RegExpFacts.exec_accepts with (c := c); [|exact Hin].
    cbn [RegExp.body accepts_unit]. apply N.eqb_refl.
  - unfold literal_unit in El. apply negb_false_iff in El.
    apply existsb_exists in El. destruct El as [d [Hd E]].
    apply N.eqb_eq in E. subst d.
    assert (Hstart : forall r (n : nat),
              RegExp.match_at toUpperCase testString true r n 0 <> None ->
              RegExp.exec toUpperCase
                {| RegExp.body := r; RegExp.group_count := n;
                   RegExp.flags_of := RegExp.flag_i |} testString <> None).
    { intros r n H.
      apply (@RegExpFacts.exec_finds toUpperCase _ testString 0);
        [lia|exact H]. }
    cbv [pattern_units js JsString.js] in Hd.
    repeat (destruct Hd as [<-|Hd]); try contradiction;
      match goal with
      | |- context [RegExp.new_RegExp ?p ?f] =>
        let v := eval vm_compute in (RegExp.new_RegExp p f) in
        change (RegExp.new_RegExp p f) with v
      end; cbv beta iota; try exact I.
    + apply Hstart. discriminate.
    + apply (@RegExpFacts.exec_finds toUpperCase _ testString
               (List.length testString)); [lia|].
      unfold RegExp.match_at.
      cbn [RegExp.matcher RegExp.body RegExp.endIndex].
      rewrite Nat.eqb_refl. discriminate.
    + apply RegExpFacts.exec_accepts with (c := JsString.unit_of ".");
        [reflexivity|exact Hin].
    + apply Hstart. discriminate.
Qed.

Lemma table_unit_found (testString : jsstring) (c : JsString.code_unit) :
  In c table_units ->
  In c testString ->
  match searchRegex toUpperCase [c] with
  | Ok searchString =>
    match RegExp.new_RegExp searchString RegExp.flag_i with
    | Ok re => RegExp.exec toUpperCase re testString <> None
    | _ => True
    end
  | _ => True
  end.
Proof.
  intros Ht Hin.
  pose proof (proj1 (forallb_forall _ _)
                table_units_accepted c Ht) as Ha.
  cbv beta in Ha.
  destruct (searchRegex toUpperCase [c]) as [searchString| |];
    try exact I.
  destruct (RegExp.new_RegExp searchString RegExp.flag_i) as [re| |];
    try exact I.
  apply RegExpFacts.exec_accepts with (c := c); assumption.
Qed.

(** The contains step finds a query of one unit in every text with that
    unit, unless its pattern does not exist. *)
Lemma unit_query_found (testString : jsstring) (c : JsString.code_unit)
  (options : RankItemOptions.t TItem) :
  In c testString ->
  match search_string toUpperCase [c] options with
  | Ok searchString =>
    match RegExp.new_RegExp searchString RegExp.flag_i with
    | Ok re => RegExp.exec toUpperCase re testString <> None
    | _ => True
    end
  | _ => True
  end.
Proof.
  intro Hin. unfold search_string.
  destruct (negb (truthy (RankItemOptions.keepDiacritics options)));
    [|apply unit_pattern_found; exact Hin].
  destruct (outside_or_in_table c) as [Ho|Ht].
  - rewrite (searchRegex_outside [c])
      by (cbn [forallb]; rewrite Ho; reflexivity).
    apply unit_pattern_found. exact Hin.
  - apply table_unit_found; assumption.
Qed.

(** A query of one unit never reaches the fuzzy step with a match: the
    contains step finds the unit first (or a pattern step throws). *)
Lemma getMatchRanking_unit_query (testString : jsstring)
  (c : JsString.code_unit) (options : RankItemOptions.t TItem)
  (m : MatchRanking) :
  getMatchRanking toUpperCase testString [c] options = Ok m ->
  closeness m = None.
Proof.
  unfold getMatchRanking.
  destruct (pattern_ranking toUpperCase testString [c] options)
    as [[found|]| |] eqn:E; cbn [bind]; try discriminate.
  - intro H. injection H as <-. exact (pattern_ranking_closeness _ _ _ E).
  - intro H. injection H as <-.
    destruct (in_dec N.eq_dec c testString) as [Hin|Hout].
    + exfalso. revert E. apply pattern_ranking_contains.
      apply unit_query_found. exact Hin.
    + rewrite getClosenessRanking_fails; [reflexivity|].
      cbn [subsequence_positions]. unfold first_occurrence.
      cbn [skipn]. rewrite (index_of_none _ _ Hout). reflexivity.
Qed.

(** Every closeness that the scorer returns is finite. *)
Lemma getMatchRanking_closeness_finite (testString stringToRank : jsstring)
  (options : RankItemOptions.t TItem) (m : MatchRanking) :
  getMatchRanking toUpperCase testString stringToRank options = Ok m ->
  match closeness m with
  | Some x => JsNumber.is_finite x = true
  | None => True
  end.
Proof.
  destruct stringToRank as [|c1 [|c2 query]].
  - unfold getMatchRanking.
    destruct (pattern_ranking toUpperCase testString [] options)
      as [[found|]| |] eqn:E; cbn [bind]; try discriminate;
      intro H; injection H as <-.
    + rewrite (pattern_ranking_closeness _ _ _ E). exact I.
    + rewrite getClosenessRanking_positions. exact I.
  - intro H. rewrite (getMatchRanking_unit_query _ _ _ H). exact I.
  - unfold getMatchRanking.
    destruct (pattern_ranking toUpperCase testString (c1 :: c2 :: query)
                options) as [[found|]| |] eqn:E; cbn [bind];
      try discriminate; intro H; injection H as <-.
    + rewrite (pattern_ranking_closeness _ _ _ E). exact I.
    + destruct (subsequence_positions testString (c1 :: c2 :: query) 0)
        as [ps|] eqn:Eps.
      * rewrite (@getClosenessRanking_succeeds testString
                   (c1 :: c2 :: query) ps); [|discriminate|exact Eps].
        cbn [closeness]. apply JsNumberFacts.div_one_finite.
        exact (spread_positive _ _ _ _ Eps).
      * rewrite (getClosenessRanking_fails _ _ Eps). exact I.
Qed.

(** X10. The scorer returns a fuzzy match only for a query of two units
    or more; its spread is at least 1 and its closeness, 1 / spread, is
    finite. *)
Theorem getMatchRanking_fuzzy_match (testString stringToRank : jsstring)
  (options : RankItemOptions.t TItem) (index length : Z) (c : JsNumber.t) :
  getMatchRanking toUpperCase testString stringToRank options
  = Ok (Matches index length c) ->
  (2 <= List.length stringToRank)%nat
  /\ 1 <= index
  /\ c = JsNumber.div JsNumber.one (JsNumber.of_Z index)
  /\ JsNumber.is_finite c = true.
Proof.
  intro H.
  assert (Hfuzzy : getClosenessRanking testString stringToRank
                   = Matches index length c).
  { unfold getMatchRanking in H.
    destruct (pattern_ranking toUpperCase testString stringToRank options)
      as [[found|]| |] eqn:E; cbn [bind] in H; try discriminate;
      injection H as H.
    - subst found. apply pattern_ranking_closeness in E. discriminate E.
    - exact H. }
  destruct stringToRank as [|c1 [|c2 query]].
  - rewrite getClosenessRanking_positions in Hfuzzy. discriminate Hfuzzy.
  - apply getMatchRanking_unit_query in H. discriminate H.
  - destruct (subsequence_positions testString (c1 :: c2 :: query) 0)
      as [ps|] eqn:Eps;
      [|rewrite (getClosenessRanking_fails _ _ Eps) in Hfuzzy;
        discriminate Hfuzzy].
    rewrite (@getClosenessRanking_succeeds testString (c1 :: c2 :: query) ps)
      in Hfuzzy; [|discriminate|exact Eps].
    injection Hfuzzy as <- <- <-.
    pose proof (spread_positive _ _ _ _ Eps) as Hs.
    repeat split.
    + cbn [List.length]. lia.
    + lia.
    + apply JsNumberFacts.div_one_finite. exact Hs.
Qed.

(** X11. Whatever the options: a text without pattern units and without
    units of the table (no white space, no letter that the table lists)
    is ranked CASE_SENSITIVE_EQUAL against itself. *)
Theorem getMatchRanking_same_text_outside_table (s : jsstring)
  (options : RankItemOptions.t TItem) :
  literal s = true ->
  forallb outside_table s = true ->
  getMatchRanking toUpperCase s s options = Ok CaseSensitiveEqual.
Proof.
  intros Hs Ho. apply getMatchRanking_literal; [|exact Hs].
  unfold search_string.
  destruct (negb (truthy (RankItemOptions.keepDiacritics options)));
    [apply searchRegex_outside; exact Ho|reflexivity].
Qed.

End UnitQuery.

(** X11 at an input, under the default options. *)
Lemma getMatchRanking_same_text_outside_table_witness :
  getMatchRanking toUpperCase_latin1 (js "#42_привет") (js "#42_привет")
    (RankItemOptions.empty : RankItemOptions.t unit)
  = Ok CaseSensitiveEqual.
Proof.
  apply (@getMatchRanking_same_text_outside_table toUpperCase_latin1 unit);
    vm_compute; reflexivity.
Defined.

(** X10 at an input: "hlo" in "hello". *)
Lemma getMatchRanking_fuzzy_match_witness :
  (2 <= List.length (js "hlo"))%nat
  /\ 1 <= 4
  /\ JsNumber.Finite (1 # 4)
     = JsNumber.div JsNumber.one (JsNumber.of_Z 4)
  /\ JsNumber.is_finite (JsNumber.Finite (1 # 4)) = true.
Proof.
  apply (@getMatchRanking_fuzzy_match toUpperCase_latin1 unit (js "hello")
           (js "hlo") RankItemOptions.empty 4 3 (JsNumber.Finite (1 # 4))).
  vm_compute. reflexivity.
Defined.

(** ** The aggregator *)

Section RankItemProperties.

Variable toUpperCase : JsString.code_unit -> list JsString.code_unit.

Context {TItem : Type}.

(** The scorer reads nothing of the options but [keepDiacritics]. *)
Lemma getMatchRanking_with_threshold (testString value : jsstring)
  (options : RankItemOptions.t TItem) :
  getMatchRanking toUpperCase testString value (with_threshold options)
  = getMatchRanking toUpperCase testString value options.
Proof. reflexivity. Qed.



(** X3. The rank that is compared with the threshold is never above the
    maxRanking of the accessor. *)
Theorem clamped_rank_at_most_maxRanking (r : Ranking)
  (minRanking maxRanking : JsNumber.t) :
  JsNumber.gtb (clamped_rank r minRanking maxRanking) maxRanking = false.
Proof. unfold clamped_rank. apply JsNumberFacts.min_at_most. Qed.

(** X4. A candidate of rank NO_MATCH is never raised by the bounds of its
    accessor. *)
Theorem clamped_rank_no_match (minRanking maxRanking : JsNumber.t) :
  JsNumber.gtb (clamped_rank rankings.NO_MATCH minRanking maxRanking)
    (JsNumber.of_Z rankings.NO_MATCH)
  = false.
Proof.
  unfold clamped_rank.
  replace (JsNumber.geb (JsNumber.of_Z rankings.NO_MATCH)
             (JsNumber.of_Z rankings.MATCHES)) with false by reflexivity.
  rewrite andb_false_r.
  destruct maxRanking as [| |q|]; try reflexivity.
  unfold JsNumber.gtb, JsNumber.min, JsNumber.of_Z, rankings.NO_MATCH.
  cbn [JsNumber.ltb].
  destruct (q ?= inject_Z 0)%Q eqn:E; cbn [JsNumber.ltb]; rewrite ?E;
    try reflexivity.
  destruct (q ?= q)%Q eqn:Eq.
  - destruct (inject_Z 0 ?= q)%Q eqn:E'; try reflexivity.
    apply JsNumberFacts.compare_lt_iff in E, E'. exfalso.
    exact (Qlt_irrefl q (Qlt_trans _ _ _ E E')).
  - apply JsNumberFacts.compare_lt_iff in Eq. exfalso.
    exact (Qlt_irrefl q Eq).
  - destruct (inject_Z 0 ?= q)%Q eqn:E'; try reflexivity.
    apply JsNumberFacts.compare_lt_iff in E, E'. exfalso.
    exact (Qlt_irrefl q (Qlt_trans _ _ _ E E')).
Qed.

(** What the loop returns: its state at the start, or the match of a
    candidate as the scorer gave it, with the text of the candidate, the
    threshold of its accessor and passed true; the clamped rank of that
    candidate reached the threshold. *)
Lemma rank_values_result (value : jsstring)
  (options : RankItemOptions.t TItem) (options_threshold : Ranking)
  (valuesToRank : list RankValue) :
  forall (i : Z) (best result : RankingInfo.t TItem),
    rank_values toUpperCase value options options_threshold valuesToRank i best
    = Ok result ->
    result = best
    \/ exists rankValue,
         In rankValue valuesToRank
         /\ getMatchRanking toUpperCase (itemValue rankValue) value options
            = Ok (RankingInfo.matchRanking result)
         /\ RankingInfo.rankedValue result = Str (itemValue rankValue)
         /\ RankingInfo.accessorThreshold result
            = Some (threshold_of options_threshold rankValue)
         /\ RankingInfo.passed result = true
         /\ JsNumber.geb
              (newRank_of rankValue (RankingInfo.matchRanking result))
              (JsNumber.of_Z (threshold_of options_threshold rankValue))
            = true.
Proof.
  induction valuesToRank as [|rankValue rest IH]; intros i best result H.
  - injection H as <-. left. reflexivity.
  - cbn [rank_values] in H.
    destruct (getMatchRanking toUpperCase (itemValue rankValue) value options)
      as [m| |] eqn:Em; try discriminate.
    cbn [bind] in H.
    destruct (replaces_best (newRank_of rankValue m)
                (threshold_of options_threshold rankValue) m
                (RankingInfo.matchRanking best)) eqn:Er.
    + destruct (IH _ _ _ H) as [->|[rv [Hin Hrv]]].
      * right. exists rankValue. cbn.
        apply andb_prop in Er. destruct Er as [Er _].
        repeat split; try reflexivity; [left; reflexivity|exact Em|exact Er].
      * right. exists rv. split; [right; exact Hin|exact Hrv].
    + destruct (IH _ _ _ H) as [->|[rv [Hin Hrv]]].
      * left. reflexivity.
      * right. exists rv. split; [right; exact Hin|exact Hrv].
Qed.

(** Every closeness that rankItem returns is finite. *)
Lemma rankItem_closeness_finite (item : JsValue TItem) (value : jsstring)
  (options : option (RankItemOptions.t TItem)) (result : RankingInfo.t TItem) :
  snd (rankItem toUpperCase item value options) = Ok result ->
  finite_closeness result.
Proof.
  unfold rankItem, finite_closeness. cbn [snd].
  destruct (RankItemOptions.accessors _) as [accessors|].
  - intro H. destruct (rank_values_result _ _ _ _ _ _ H) as [->|Hrv].
    + exact I.
    + destruct Hrv as [rankValue [_ [Hm _]]].
      exact (getMatchRanking_closeness_finite _ _ _ _ Hm).
  - destruct item as [testString|o]; [|discriminate].
    destruct (getMatchRanking toUpperCase testString value _) as [m| |] eqn:Em;
      cbn [bind]; try discriminate.
    intro H. injection H as <-. cbn [RankingInfo.matchRanking].
    exact (getMatchRanking_closeness_finite _ _ _ _ Em).
Qed.

(** Without accessors the result has passed = (rank >= accessorThreshold),
    accessorIndex -1 and the item as rankedValue. *)
Lemma rankItem_without_accessors (item : JsValue TItem) (value : jsstring)
  (options : RankItemOptions.t TItem) (result : RankingInfo.t TItem) :
  RankItemOptions.accessors options = None ->
  snd (rankItem toUpperCase item value (Some options)) = Ok result ->
  RankingInfo.accessorThreshold result = Some (threshold_or_default options)
  /\ RankingInfo.passed result
     = (RankingInfo.rank result >=? threshold_or_default options)
  /\ RankingInfo.accessorIndex result = -1
  /\ RankingInfo.rankedValue result = item.
Proof.
  intros Hacc H. unfold rankItem in H.
  cbn [snd with_threshold RankItemOptions.accessors] in H. rewrite Hacc in H.
  destruct item as [testString|o]; [|discriminate].
  destruct (getMatchRanking toUpperCase testString value _) as [m| |];
    try discriminate.
  cbn [bind] in H. injection H as <-. repeat split.
Qed.

(** X2. With accessors the result is the initial one (NO_MATCH, passed
    false), or it carries the match of a candidate as the scorer gave it,
    not clamped, with passed true, and the clamped rank of that candidate
    reached the threshold of its accessor. *)
Theorem rankItem_with_accessors (item : JsValue TItem) (value : jsstring)
  (options : RankItemOptions.t TItem) (accessors : list (Accessor TItem))
  (result : RankingInfo.t TItem) :
  RankItemOptions.accessors options = Some accessors ->
  snd (rankItem toUpperCase item value (Some options)) = Ok result ->
  (RankingInfo.matchRanking result = NoMatch
   /\ RankingInfo.passed result = false
   /\ RankingInfo.rankedValue result = item)
  \/ exists rankValue,
       In rankValue (getAllValuesToRank item accessors)
       /\ getMatchRanking toUpperCase (itemValue rankValue) value options
          = Ok (RankingInfo.matchRanking result)
       /\ RankingInfo.rankedValue result = Str (itemValue rankValue)
       /\ RankingInfo.accessorThreshold result
          = Some (threshold_of (threshold_or_default options) rankValue)
       /\ RankingInfo.passed result = true
       /\ JsNumber.geb
            (newRank_of rankValue (RankingInfo.matchRanking result))
            (JsNumber.of_Z
               (threshold_of (threshold_or_default options) rankValue))
          = true.
Proof.
  intros Hacc H. unfold rankItem in H.
  cbn [snd with_threshold RankItemOptions.accessors] in H. rewrite Hacc in H.
  destruct (rank_values_result _ _ _ _ _ _ H) as [->|Hrv].
  - left. repeat split.
  - right. exact Hrv.
Qed.

End RankItemProperties.

(** ** What rankItem writes *)

Module StoreFacts.
Import Store.

Section Lookup.

Context {TItem : Type}.

Implicit Types (s : Store.t TItem) (l : loc) (v : object TItem).














End Lookup.

End StoreFacts.

Section CallProperties.

Variable toUpperCase : JsString.code_unit -> list JsString.code_unit.

Context {TItem : Type}.



End CallProperties.


(** ** compareItems *)

Section CompareItems.

Context {TItem : Type}.

Implicit Types a b : RankingInfo.t TItem.

(** The order: with both arguments at the MATCHES tier the result is
    negative exactly when the first has the greater closeness and
    positive exactly when it has the smaller one; otherwise the same
    with the ranks. This needs no finiteness. *)
Lemma compareItems_order a b :
  JsNumber.ltb (compareItems a b) JsNumber.zero
  = (if both_match a b
     then JsNumber.gtb (closeness_of a) (closeness_of b)
     else RankingInfo.rank b <? RankingInfo.rank a)
  /\ JsNumber.gtb (compareItems a b) JsNumber.zero
     = (if both_match a b
        then JsNumber.ltb (closeness_of a) (closeness_of b)
        else RankingInfo.rank a <? RankingInfo.rank b).
Proof.
  unfold compareItems, both_match, closeness_of, JsNumber.gtb.
  destruct ((RankingInfo.rank a =? rankings.MATCHES)
            && (RankingInfo.rank b =? rankings.MATCHES)).
  - split.
    + apply JsNumberFacts.sub_negative.
    + apply JsNumberFacts.sub_positive.
  - rewrite JsNumberFacts.sub_negative, JsNumberFacts.sub_positive.
    rewrite !JsNumberFacts.ltb_of_Z. split; reflexivity.
Qed.

Lemma closeness_number_at_matches a :
  closeness_is_number a ->
  RankingInfo.rank a = rankings.MATCHES ->
  closeness_of a <> JsNumber.NaN.
Proof.
  unfold closeness_is_number, closeness_of, RankingInfo.rank.
  destruct (RankingInfo.matchRanking a); cbn; try discriminate.
  intros H _. exact H.
Qed.

Lemma sub_antisymmetric_numbers (x y : JsNumber.t) :
  x <> JsNumber.NaN -> y <> JsNumber.NaN ->
  JsNumber.eqb (JsNumber.sub y x) (JsNumber.neg (JsNumber.sub x y))
  = negb (same_infinity x y).
Proof.
  intros Hx Hy. destruct x as [| |x|], y as [| |y|];
    try contradiction; try reflexivity.
  apply JsNumberFacts.sub_antisymmetric.
Qed.

Lemma sub_self_number (x : JsNumber.t) :
  x <> JsNumber.NaN ->
  JsNumber.eqb (JsNumber.sub x x) JsNumber.zero = negb (same_infinity x x).
Proof.
  intros Hx. destruct x as [| |x|]; try contradiction; try reflexivity.
  apply JsNumberFacts.sub_self.
Qed.

(** The two results of a pair are opposite but for Infinity - Infinity. *)
Lemma compareItems_opposite a b :
  closeness_is_number a ->
  closeness_is_number b ->
  JsNumber.eqb (compareItems a b) (JsNumber.neg (compareItems b a))
  = negb (both_match a b && same_infinity (closeness_of a) (closeness_of b)).
Proof.
  intros Ha Hb. unfold compareItems, both_match.
  rewrite (andb_comm (RankingInfo.rank b =? rankings.MATCHES)).
  destruct (RankingInfo.rank a =? rankings.MATCHES) eqn:Ea;
    destruct (RankingInfo.rank b =? rankings.MATCHES) eqn:Eb; cbn [andb negb];
    try apply JsNumberFacts.sub_antisymmetric.
  apply Z.eqb_eq in Ea, Eb.
  apply sub_antisymmetric_numbers;
    apply closeness_number_at_matches; assumption.
Qed.

Lemma compareItems_self a :
  closeness_is_number a ->
  JsNumber.eqb (compareItems a a) JsNumber.zero
  = negb (both_match a a && same_infinity (closeness_of a) (closeness_of a)).
Proof.
  intros Ha. unfold compareItems, both_match.
  destruct (RankingInfo.rank a =? rankings.MATCHES) eqn:Ea; cbn [andb negb];
    try apply JsNumberFacts.sub_self.
  apply Z.eqb_eq in Ea.
  apply sub_self_number. apply closeness_number_at_matches; assumption.
Qed.

Lemma finite_closeness_number a : finite_closeness a -> closeness_is_number a.
Proof.
  unfold finite_closeness, closeness_is_number.
  destruct (closeness (RankingInfo.matchRanking a)) as [c|]; [|trivial].
  intros H E. rewrite E in H. discriminate H.
Qed.

Lemma finite_closeness_no_infinity a (y : JsNumber.t) :
  finite_closeness a -> same_infinity (closeness_of a) y = false.
Proof.
  unfold finite_closeness, closeness_of.
  destruct (closeness (RankingInfo.matchRanking a)) as [c|]; [|reflexivity].
  cbn [to_number]. destruct c; try discriminate. reflexivity.
Qed.

(** C8, amended. For all RankingInfo values a and b whose closeness,
    when they have one, is a finite number, whatever their scores:
    compareItems(a, b) == -compareItems(b, a) and compareItems(a, a) == 0;
    with both arguments at the MATCHES tier compareItems orders by
    closeness descending (it is negative exactly when a has the greater
    closeness, positive exactly when it has the smaller one), otherwise
    by rank descending. *)
Theorem compareItems_antisymmetric a b :
  finite_closeness a ->
  finite_closeness b ->
  JsNumber.eqb (compareItems a b) (JsNumber.neg (compareItems b a)) = true
  /\ JsNumber.eqb (compareItems a a) JsNumber.zero = true
  /\ JsNumber.ltb (compareItems a b) JsNumber.zero
     = (if both_match a b
        then JsNumber.gtb (closeness_of a) (closeness_of b)
        else RankingInfo.rank b <? RankingInfo.rank a)
  /\ JsNumber.gtb (compareItems a b) JsNumber.zero
     = (if both_match a b
        then JsNumber.ltb (closeness_of a) (closeness_of b)
        else RankingInfo.rank a <? RankingInfo.rank b).
Proof.
  intros Ha Hb.
  split; [|split; [|apply compareItems_order]].
  - rewrite compareItems_opposite
      by (apply finite_closeness_number; assumption).
    rewrite (@finite_closeness_no_infinity a _ Ha), andb_false_r.
    reflexivity.
  - rewrite compareItems_self by (apply finite_closeness_number; assumption).
    rewrite (@finite_closeness_no_infinity a _ Ha), andb_false_r.
    reflexivity.
Qed.

(** X9. For all RankingInfo values a and b, as a caller may build them,
    whose closeness is not NaN: compareItems(a, b) == -compareItems(b, a)
    unless both are at the MATCHES tier with the same infinite closeness,
    and compareItems(a, a) == 0 unless a is at the MATCHES tier with an
    infinite closeness; the order is by closeness descending at the
    MATCHES tier and by rank descending otherwise. *)
Theorem compareItems_of_numbers a b :
  closeness_is_number a ->
  closeness_is_number b ->
  JsNumber.eqb (compareItems a b) (JsNumber.neg (compareItems b a))
  = negb (both_match a b && same_infinity (closeness_of a) (closeness_of b))
  /\ JsNumber.eqb (compareItems a a) JsNumber.zero
     = negb (both_match a a && same_infinity (closeness_of a) (closeness_of a))
  /\ JsNumber.ltb (compareItems a b) JsNumber.zero
     = (if both_match a b
        then JsNumber.gtb (closeness_of a) (closeness_of b)
        else RankingInfo.rank b <? RankingInfo.rank a)
  /\ JsNumber.gtb (compareItems a b) JsNumber.zero
     = (if both_match a b
        then JsNumber.ltb (closeness_of a) (closeness_of b)
        else RankingInfo.rank a <? RankingInfo.rank b).
Proof.
  intros Ha Hb. split; [|split; [|apply compareItems_order]].
  - apply compareItems_opposite; assumption.
  - apply compareItems_self; assumption.
Qed.

(** X6. A value of the higher rank sorts first: compareItems is negative. *)
Theorem compareItems_higher_rank_first a b :
  RankingInfo.rank b < RankingInfo.rank a ->
  JsNumber.ltb (compareItems a b) JsNumber.zero = true.
Proof.
  intro H. destruct (compareItems_order a b) as [Hlt _]. rewrite Hlt.
  unfold both_match.
  destruct (RankingInfo.rank a =? rankings.MATCHES) eqn:Ea;
    destruct (RankingInfo.rank b =? rankings.MATCHES) eqn:Eb; cbn [andb];
    try (apply Z.ltb_lt; exact H).
  apply Z.eqb_eq in Ea, Eb. lia.
Qed.

End CompareItems.

(** A STARTS_WITH result against a CONTAINS result. *)
Lemma compareItems_higher_rank_first_witness :
  JsNumber.ltb
    (compareItems
       {| RankingInfo.matchRanking := StartsWith 2;
          RankingInfo.rankedValue := (Str (js "Baz") : JsValue unit);
          RankingInfo.accessorIndex := 0;
          RankingInfo.accessorThreshold := Some rankings.MATCHES;
          RankingInfo.passed := true |}
       {| RankingInfo.matchRanking := Contains 1 2;
          RankingInfo.rankedValue := Str (js "abacus");
          RankingInfo.accessorIndex := 0;
          RankingInfo.accessorThreshold := Some rankings.MATCHES;
          RankingInfo.passed := true |})
    JsNumber.zero
  = true.
Proof.
  apply (@compareItems_higher_rank_first unit). vm_compute. reflexivity.
Defined.

(** C8 at an input: the fuzzy matches of the queries "hlo" (closeness
    1/4) and "eo" (closeness 1/3) in the text "hello". *)
Lemma compareItems_antisymmetric_witness :
  JsNumber.eqb
    (compareItems (fuzzy_info (js "hello") (js "hlo"))
       (fuzzy_info (js "hello") (js "eo")))
    (JsNumber.neg
       (compareItems (fuzzy_info (js "hello") (js "eo"))
          (fuzzy_info (js "hello") (js "hlo"))))
  = true
  /\ JsNumber.eqb
       (compareItems (fuzzy_info (js "hello") (js "hlo"))
          (fuzzy_info (js "hello") (js "hlo")))
       JsNumber.zero
     = true
  /\ JsNumber.ltb
       (compareItems (fuzzy_info (js "hello") (js "hlo"))
          (fuzzy_info (js "hello") (js "eo")))
       JsNumber.zero
     = false
  /\ JsNumber.gtb
       (compareItems (fuzzy_info (js "hello") (js "hlo"))
          (fuzzy_info (js "hello") (js "eo")))
       JsNumber.zero
     = true.
Proof.
  apply (@compareItems_antisymmetric unit
           (fuzzy_info (js "hello") (js "hlo"))
           (fuzzy_info (js "hello") (js "eo")));
    vm_compute; reflexivity.
Defined.

(** X9 at an input: a fuzzy match of closeness 1/4 against one of
    closeness Infinity. *)
Lemma compareItems_of_numbers_witness :
  JsNumber.eqb
    (compareItems (fuzzy_info (js "hello") (js "hlo"))
       (fuzzy_info (js "hello") (js "h")))
    (JsNumber.neg
       (compareItems (fuzzy_info (js "hello") (js "h"))
          (fuzzy_info (js "hello") (js "hlo"))))
  = true.
Proof.
  apply (@compareItems_of_numbers unit (fuzzy_info (js "hello") (js "hlo"))
           (fuzzy_info (js "hello") (js "h"))); vm_compute; discriminate.
Defined.

(** A value made by hand from the fuzzy step alone, for a query of one
    unit, has the spread 0 and the closeness Infinity, and compared with
    itself it gives Infinity - Infinity, which is NaN and not 0. rankItem
    returns no such value ([rankItem_closeness_finite]). *)
Lemma compareItems_infinite_closeness :
  RankingInfo.matchRanking (fuzzy_info (js "abc") (js "b"))
  = Matches 0 1 JsNumber.PosInfinity
  /\ JsNumber.eqb
       (compareItems (fuzzy_info (js "abc") (js "b"))
          (fuzzy_info (js "abc") (js "b")))
       JsNumber.zero
     = false.
Proof. split; vm_compute; reflexivity. Qed.

(** C8 as stated fails: a value of the MATCHES tier with the closeness
    Infinity, compared with itself, does not give 0. *)
Lemma stated_reflexive_zero_counterexample : ~ stated_reflexive_zero.
Proof.
  intro H. specialize (H (fuzzy_info (js "abc") (js "b"))).
  vm_compute in H. discriminate H.
Qed.

(** ** The code at the failing inputs *)

Section FailingInputs.

Variable toUpperCase : JsString.code_unit -> list JsString.code_unit.

(** C1, the code at a failing input. The only accessor has maxRanking
    CONTAINS and yields the text "hello", which equals the query: the
    clamped rank 3 is compared with the threshold, but the result carries
    the unclamped match, so its rank is CASE_SENSITIVE_EQUAL (7), above
    the maxRanking. *)
Theorem rankItem_rank_above_maxRanking :
  snd (rankItem toUpperCase (Str (js "hello") : JsValue unit) (js "hello")
         (Some (with_accessors
                  [bounded item_text None (Some rankings.CONTAINS)])))
  = Ok {| RankingInfo.matchRanking := CaseSensitiveEqual;
          RankingInfo.rankedValue := Str (js "hello");
          RankingInfo.accessorIndex := 0;
          RankingInfo.accessorThreshold := Some rankings.MATCHES;
          RankingInfo.passed := true |}.
Proof. vm_compute. reflexivity. Qed.

(** C2, the code at a failing input. The only accessor has minRanking
    CONTAINS and yields "hello"; the query "hlo" is a fuzzy match of rank
    MATCHES. The candidate wins with the raised rank, but the result
    carries the unraised match, so its rank is MATCHES (1), not
    CONTAINS. *)
Theorem rankItem_rank_below_minRanking :
  snd (rankItem toUpperCase (Str (js "hello") : JsValue unit) (js "hlo")
         (Some (with_accessors
                  [bounded item_text (Some rankings.CONTAINS) None])))
  = Ok {| RankingInfo.matchRanking :=
            Matches 4 3 (JsNumber.Finite (1 # 4));
          RankingInfo.rankedValue := Str (js "hello");
          RankingInfo.accessorIndex := 0;
          RankingInfo.accessorThreshold := Some rankings.MATCHES;
          RankingInfo.passed := true |}.
Proof. vm_compute. reflexivity. Qed.

(** C6, the code at a failing input. With the threshold NO_MATCH and an
    accessor whose text does not match, the result has rank 0 and
    accessorThreshold 0, so rank >= accessorThreshold, and yet passed is
    false. *)
Theorem rankItem_passed_false_at_threshold :
  snd (rankItem toUpperCase (Str (js "hello") : JsValue unit) (js "xyz")
         (Some {| RankItemOptions.accessors :=
                    Some [AccessorFunction item_text];
                  RankItemOptions.threshold := Some rankings.NO_MATCH;
                  RankItemOptions.keepDiacritics := None |}))
  = Ok {| RankingInfo.matchRanking := NoMatch;
          RankingInfo.rankedValue := Str (js "hello");
          RankingInfo.accessorIndex := -1;
          RankingInfo.accessorThreshold := Some rankings.NO_MATCH;
          RankingInfo.passed := false |}.
Proof. vm_compute. reflexivity. Qed.

(** The same call without the accessor list: passed is true. *)
Lemma rankItem_passed_true_without_accessors :
  snd (rankItem toUpperCase (Str (js "hello") : JsValue unit) (js "xyz")
         (Some {| RankItemOptions.accessors := None;
                  RankItemOptions.threshold := Some rankings.NO_MATCH;
                  RankItemOptions.keepDiacritics := None |}))
  = Ok {| RankingInfo.matchRanking := NoMatch;
          RankingInfo.rankedValue := Str (js "hello");
          RankingInfo.accessorIndex := -1;
          RankingInfo.accessorThreshold := Some rankings.NO_MATCH;
          RankingInfo.passed := true |}.
Proof. vm_compute. reflexivity. Qed.

(** A fuzzy match raised by minRanking 5 over the threshold 4 of its
    accessor: passed is true and the rank of the result, 1, is below
    accessorThreshold. *)
Lemma rankItem_passed_true_below_threshold :
  snd (rankItem toUpperCase (Str (js "hello") : JsValue unit) (js "hlo")
         (Some (with_accessors
                  [AccessorObject
                     {| AccessorOptions.accessor := item_text;
                        AccessorOptions.threshold :=
                          Some rankings.WORD_STARTS_WITH;
                        AccessorOptions.maxRanking := Absent;
                        AccessorOptions.minRanking :=
                          Present (Some rankings.STARTS_WITH) |}])))
  = Ok {| RankingInfo.matchRanking :=
            Matches 4 3 (JsNumber.Finite (1 # 4));
          RankingInfo.rankedValue := Str (js "hello");
          RankingInfo.accessorIndex := 0;
          RankingInfo.accessorThreshold := Some rankings.WORD_STARTS_WITH;
          RankingInfo.passed := true |}.
Proof. vm_compute. reflexivity. Qed.

(** C3, the code at a failing input. The query "1*" is used as a
    pattern: as such it matches a run of "1", not the text "1*", so the
    equality steps fail and the text is ranked STARTS_WITH on its first
    unit. *)
Theorem getMatchRanking_same_text_with_star :
  getMatchRanking toUpperCase (js "1*") (js "1*")
    (RankItemOptions.empty : RankItemOptions.t unit)
  = Ok (StartsWith 1).
Proof. vm_compute. reflexivity. Qed.

(** A text that is no pattern at all: scoring "(" against itself
    throws. *)
Lemma getMatchRanking_same_text_with_parenthesis :
  getMatchRanking toUpperCase (js "(") (js "(")
    (RankItemOptions.empty : RankItemOptions.t unit)
  = Throw SyntaxError.
Proof. vm_compute. reflexivity. Qed.

(** C5, the code at a failing input. The acronym pattern is built
    without the ignore-case flag, so the lower-case query "ff" does not
    match the leading letters of "Fred Flintstone"; the fuzzy step
    compares units as they are and fails too. *)
Theorem getMatchRanking_acronym_case :
  getMatchRanking toUpperCase (js "Fred Flintstone") (js "ff")
    (RankItemOptions.empty : RankItemOptions.t unit)
  = Ok NoMatch.
Proof. vm_compute. reflexivity. Qed.

(** With the letters in the case of the query the step matches. *)
Lemma getMatchRanking_acronym_same_case :
  getMatchRanking toUpperCase (js "fred flintstone") (js "ff")
    (RankItemOptions.empty : RankItemOptions.t unit)
  = Ok (Acronym [0; 5]).
Proof. vm_compute. reflexivity. Qed.

End FailingInputs.

(** X8. The default options on a query with a space: the space becomes the
    text of the class of white space, and the group of the letter s is
    then applied to that text, which leaves a pattern with a stray
    parenthesis. *)
Theorem searchRegex_space toUpperCase :
  searchRegex toUpperCase (js " ") = Ok (js "\(?:s|ś|ŝ|ș|ş|š|ſ|ṥ|ṧ)")
  /\ getMatchRanking toUpperCase (js "hello world") (js "o w")
       (RankItemOptions.empty : RankItemOptions.t unit)
     = Throw SyntaxError.
Proof. split; vm_compute; reflexivity. Qed.

(** The result with accessors at an input: the candidate "hello" scored
    CASE_SENSITIVE_EQUAL under maxRanking CONTAINS. *)
Lemma rankItem_with_accessors_witness :
  (CaseSensitiveEqual = NoMatch
   /\ true = false
   /\ Str (js "hello") = (Str (js "hello") : JsValue unit))
  \/ exists rankValue,
       In rankValue
         (getAllValuesToRank (Str (js "hello") : JsValue unit)
            [bounded item_text None (Some rankings.CONTAINS)])
       /\ getMatchRanking toUpperCase_latin1 (itemValue rankValue)
            (js "hello")
            (with_accessors
               [bounded (TItem := unit) item_text None
                  (Some rankings.CONTAINS)])
          = Ok CaseSensitiveEqual
       /\ Str (js "hello") = (Str (itemValue rankValue) : JsValue unit)
       /\ Some rankings.MATCHES
          = Some (threshold_of rankings.MATCHES rankValue)
       /\ true = true
       /\ JsNumber.geb (newRank_of rankValue CaseSensitiveEqual)
            (JsNumber.of_Z (threshold_of rankings.MATCHES rankValue))
          = true.
Proof.
  apply (@rankItem_with_accessors toUpperCase_latin1 unit
           (Str (js "hello")) (js "hello")
           (with_accessors [bounded item_text None (Some rankings.CONTAINS)])
           [bounded item_text None (Some rankings.CONTAINS)]
           {| RankingInfo.matchRanking := CaseSensitiveEqual;
              RankingInfo.rankedValue := Str (js "hello");
              RankingInfo.accessorIndex := 0;
              RankingInfo.accessorThreshold := Some rankings.MATCHES;
              RankingInfo.passed := true |});
    [reflexivity|vm_compute; reflexivity].
Defined.



(** * More of the program *)

(** ** Numbers: order and quotients *)

Module JsNumberOrder.
Import JsNumber.

Lemma gtb_of_Z (x y : Z) : gtb (of_Z x) (of_Z y) = (y <? x).
Proof. unfold gtb. apply JsNumberFacts.ltb_of_Z. Qed.

Lemma geb_of_Z (x y : Z) : geb (of_Z x) (of_Z y) = (y <=? x).
Proof.
  unfold geb. change (negb (ltb (of_Z x) (of_Z y)) = (y <=? x)).
  rewrite JsNumberFacts.ltb_of_Z. rewrite Z.leb_antisym. reflexivity.
Qed.

Lemma min_of_Z (x y : Z) : min (of_Z x) (of_Z y) = of_Z (Z.min x y).
Proof.
  change (min (of_Z x) (of_Z y))
    with (if ltb (of_Z y) (of_Z x) then of_Z y else of_Z x).
  rewrite JsNumberFacts.ltb_of_Z.
  destruct (Z.ltb_spec y x); f_equal; lia.
Qed.

(** The order of two finite numbers is total. *)
Lemma ltb_finite_total (x y : t) :
  is_finite x = true -> is_finite y = true ->
  ltb x y = false -> ltb y x = false -> eqb x y = true.
Proof.
  destruct x as [| |x|], y as [| |y|]; try discriminate. intros _ _.
  cbn [ltb eqb]. destruct (x ?= y)%Q eqn:E; try discriminate.
  - intros _ _. apply Qeq_bool_iff. apply Qeq_alt. exact E.
  - intros _. apply Qgt_alt in E.
    apply JsNumberFacts.compare_lt_iff in E. rewrite E. discriminate.
Qed.

Lemma ltb_transitive (x y z : t) :
  ltb x y = true -> ltb y z = true -> ltb x z = true.
Proof.
  destruct x as [| |x|], y as [| |y|], z as [| |z|];
    try discriminate; try reflexivity.
  rewrite !JsNumberFacts.ltb_finite. apply Qlt_trans.
Qed.

Lemma ltb_asymmetric (x y : t) : ltb x y = true -> ltb y x = false.
Proof.
  intro H. destruct (ltb y x) eqn:E; [|reflexivity].
  pose proof (ltb_transitive _ _ _ H E) as Hxx.
  rewrite JsNumberFacts.ltb_irreflexive in Hxx. discriminate.
Qed.

(** For finite numbers: [z <= y < x] gives [z < x]. *)
Lemma ltb_below (x y z : t) :
  is_finite x = true -> is_finite y = true -> is_finite z = true ->
  ltb y x = true -> ltb y z = false -> ltb z x = true.
Proof.
  destruct x as [| |x|], y as [| |y|], z as [| |z|]; try discriminate.
  intros _ _ _. rewrite !JsNumberFacts.ltb_finite. intros Hyx Hyz.
  apply Qle_lt_trans with y; [|exact Hyx].
  apply Qnot_lt_le. intro H. apply JsNumberFacts.ltb_finite in H.
  rewrite H in Hyz. discriminate.
Qed.

Lemma eqb_of_Z (x y : Z) : eqb (of_Z x) (of_Z y) = (x =? y).
Proof.
  apply JsNumberFacts.bool_eq_iff. unfold of_Z. cbn [eqb].
  rewrite Qeq_bool_iff, Z.eqb_eq. unfold Qeq. cbn. lia.
Qed.

(** The difference of two finite numbers is zero exactly when they are
    equal. *)
Lemma sub_zero (x y : Q) :
  eqb (sub (Finite y) (Finite x)) zero = eqb (Finite x) (Finite y).
Proof.
  rewrite JsNumberFacts.sub_finite. apply JsNumberFacts.bool_eq_iff.
  unfold zero, of_Z. cbn [eqb]. rewrite !Qeq_bool_iff, Qred_correct.
  split; intro H.
  - setoid_replace x with (y - (y - x))%Q by ring. rewrite H. ring.
  - rewrite H. ring.
Qed.

Lemma eqb_transitive (x y z : t) :
  eqb x y = true -> eqb y z = true -> eqb x z = true.
Proof.
  destruct x as [| |x|], y as [| |y|], z as [| |z|];
    try discriminate; try reflexivity.
  cbn [eqb]. rewrite !Qeq_bool_iff. apply Qeq_trans.
Qed.

(** Two finite numbers are equal exactly when neither is below the
    other. *)
Lemma eqb_trichotomy (x y : Q) :
  eqb (Finite x) (Finite y)
  = negb (ltb (Finite y) (Finite x)) && negb (ltb (Finite x) (Finite y)).
Proof.
  cbn [eqb ltb]. rewrite <- (Qcompare_antisym x y).
  destruct (x ?= y)%Q eqn:E; cbn [CompOpp negb andb].
  - apply Qeq_bool_iff. apply Qeq_alt. exact E.
  - apply not_true_is_false. intro H. apply Qeq_bool_iff in H.
    apply Qeq_alt in H. congruence.
  - apply not_true_is_false. intro H. apply Qeq_bool_iff in H.
    apply Qeq_alt in H. congruence.
Qed.

End JsNumberOrder.

Module JsNumberQuotient.
Import JsNumber.

(** One over a positive integer: the greater the integer, the smaller the
    quotient, which is positive and at most one. *)
Lemma div_one_order (i j : Z) :
  0 < i -> 0 < j ->
  gtb (div one (of_Z i)) (div one (of_Z j)) = (i <? j).
Proof.
  intros Hi Hj. unfold gtb, div, one, of_Z.
  assert (Pi : (0 < inject_Z i)%Q) by (unfold Qlt; cbn; lia).
  assert (Pj : (0 < inject_Z j)%Q) by (unfold Qlt; cbn; lia).
  rewrite (proj1 (Qgt_alt _ _) Pi), (proj1 (Qgt_alt _ _) Pj).
  apply JsNumberFacts.bool_eq_iff.
  rewrite JsNumberFacts.ltb_finite, !Qred_correct, Z.ltb_lt.
  unfold Qdiv. rewrite !Qmult_1_l.
  rewrite <- (Qinv_lt_contravar (inject_Z i) (inject_Z j) Pi Pj).
  rewrite <- Zlt_Qlt. reflexivity.
Qed.

Lemma div_one_range (i : Z) :
  0 < i ->
  ltb zero (div one (of_Z i)) = true /\ gtb (div one (of_Z i)) one = false.
Proof.
  intro Hi. unfold gtb, div, one, zero, of_Z.
  assert (Pi : (0 < inject_Z i)%Q) by (unfold Qlt; cbn; lia).
  rewrite (proj1 (Qgt_alt _ _) Pi). split.
  - apply JsNumberFacts.ltb_finite. rewrite Qred_correct.
    unfold Qdiv. rewrite Qmult_1_l. apply Qinv_lt_0_compat. exact Pi.
  - apply not_true_is_false. intro H.
    apply JsNumberFacts.ltb_finite in H. rewrite Qred_correct in H.
    unfold Qdiv in H. rewrite Qmult_1_l in H.
    assert (Hle : (/ inject_Z i <= 1)%Q).
    { unfold Qinv, Qle, inject_Z. cbn. destruct i; cbn; try lia. }
    exact (Qlt_not_le _ _ H Hle).
Qed.

End JsNumberQuotient.

(** ** The candidates and the bounds of the accessors *)

Section Accessors.

Context {TItem : Type}.

(** The candidates are the strings of the accessors, one accessor after
    the other, each with the attributes of its accessor. *)
Lemma getAllValuesToRank_flat_map (item : JsValue TItem)
  (accessors : list (Accessor TItem)) :
  getAllValuesToRank item accessors
  = flat_map (fun accessor =>
                List.map (candidate accessor) (getItemValues item accessor))
      accessors.
Proof.
  induction accessors as [|accessor rest IH]; [reflexivity|].
  cbn [getAllValuesToRank flat_map]. rewrite IH. reflexivity.
Qed.

Lemma getAllValuesToRank_itemValues (item : JsValue TItem)
  (accessors : list (Accessor TItem)) :
  List.map itemValue (getAllValuesToRank item accessors)
  = flat_map (getItemValues item) accessors.
Proof.
  induction accessors as [|accessor rest IH]; [reflexivity|].
  cbn [getAllValuesToRank flat_map]. rewrite map_app, map_map, IH.
  cbn [itemValue]. rewrite map_id. reflexivity.
Qed.

(** X12. The candidates of an accessor list: an accessor whose function
    returns null or undefined adds none, one whose function returns a
    string adds that string, one whose function returns an array adds its
    strings in their order (none for the empty array); the candidates
    stand in the order of the accessors, and each has the attributes of
    its accessor. *)
Theorem getAllValuesToRank_candidates (item : JsValue TItem) :
  (forall before accessor after,
     getAllValuesToRank item (before ++ accessor :: after)
     = getAllValuesToRank item before
       ++ match accessor_value item accessor with
          | ValueNull => []
          | ValueString s => [candidate accessor s]
          | ValueArray l => List.map (candidate accessor) l
          end
       ++ getAllValuesToRank item after)
  /\ (forall accessors rankValue,
        In rankValue (getAllValuesToRank item accessors)
        <-> exists accessor,
              In accessor accessors
              /\ attributes rankValue = getAccessorAttributes accessor
              /\ (accessor_value item accessor
                  = ValueString (itemValue rankValue)
                  \/ exists l,
                       accessor_value item accessor = ValueArray l
                       /\ In (itemValue rankValue) l))
  /\ (forall before accessor after,
        accessor_value item accessor = ValueNull
        \/ accessor_value item accessor = ValueArray [] ->
        getAllValuesToRank item (before ++ accessor :: after)
        = getAllValuesToRank item (before ++ after)).
Proof.
  assert (Hv : forall accessor,
            getItemValues item accessor
            = match accessor_value item accessor with
              | ValueNull => []
              | ValueString s => [s]
              | ValueArray l => l
              end).
  { intros [f|o]; unfold getItemValues, accessor_value;
      [destruct (f item)|destruct (AccessorOptions.accessor o item)];
      reflexivity. }
  assert (Hd : forall before accessor after,
            getAllValuesToRank item (before ++ accessor :: after)
            = getAllValuesToRank item before
              ++ match accessor_value item accessor with
                 | ValueNull => []
                 | ValueString s => [candidate accessor s]
                 | ValueArray l => List.map (candidate accessor) l
                 end
              ++ getAllValuesToRank item after).
  { intros before accessor after.
    rewrite !getAllValuesToRank_flat_map, flat_map_app. f_equal.
    cbn [flat_map]. f_equal. rewrite Hv.
    destruct (accessor_value item accessor); reflexivity. }
  split; [exact Hd|split].
  - intros accessors rankValue.
    rewrite getAllValuesToRank_flat_map, in_flat_map.
    split.
    + intros [accessor [Hin Hrv]]. exists accessor. split; [exact Hin|].
      apply in_map_iff in Hrv. destruct Hrv as [v [<- Hin']].
      split; [reflexivity|]. rewrite Hv in Hin'. cbn [candidate itemValue].
      destruct (accessor_value item accessor) as [|s|l].
      * destruct Hin'.
      * destruct Hin' as [<-|[]]. left. reflexivity.
      * right. exists l. split; [reflexivity|exact Hin'].
    + intros [accessor [Hin [Ha Hs]]]. exists accessor. split; [exact Hin|].
      apply in_map_iff. exists (itemValue rankValue). split.
      * destruct rankValue as [v a]. cbn in Ha. subst a. reflexivity.
      * rewrite Hv. destruct Hs as [->|[l [-> Hl]]];
          [left; reflexivity|exact Hl].
  - intros before accessor after H. rewrite Hd.
    rewrite !getAllValuesToRank_flat_map, flat_map_app. f_equal.
    destruct H as [->| ->]; reflexivity.
Qed.

(** X13. The rank after the bounds of an accessor.  When the accessor
    has the property maxRanking with the value undefined, it is NaN and
    the candidate never replaces the best match.  Otherwise it is
    min(maxRanking, rank >= MATCHES ? max(minRanking, rank) : rank), a
    bound that is absent, or a minRanking that is undefined, being no
    bound. *)
Theorem newRank_of_bounds (accessor : Accessor TItem) (value : jsstring)
  (m : MatchRanking) :
  match snd (accessor_bounds accessor) with
  | Present None =>
    newRank_of (candidate accessor value) m = JsNumber.NaN
    /\ forall threshold best,
         replaces_best (newRank_of (candidate accessor value) m) threshold m
           best
         = false
  | maxRanking =>
    newRank_of (candidate accessor value) m
    = JsNumber.of_Z
        (bounded_rank (bound_of (fst (accessor_bounds accessor)))
           (bound_of maxRanking) (rank m))
  end.
Proof.
  unfold newRank_of, candidate, clamped_rank, bounded_rank.
  cbn [attributes].
  destruct accessor as [f|[f threshold [|[hi|]] [|[lo|]]]];
    cbn [getAccessorAttributes accessor_bounds fst snd defaultKeyAttributes
         AccessorAttributes.minRanking AccessorAttributes.maxRanking
         AccessorOptions.minRanking AccessorOptions.maxRanking
         option_map to_number bound_of];
    rewrite ?JsNumberFacts.ltb_of_Z, ?JsNumberOrder.geb_of_Z,
      ?JsNumberOrder.gtb_of_Z.
  all: try (destruct (rankings.MATCHES <=? rank m); reflexivity).
  all: try (split;
            [match goal with |- JsNumber.min ?x JsNumber.NaN = _ =>
               destruct x; reflexivity end
            |intros t best; unfold replaces_best;
             match goal with |- context [JsNumber.min ?x JsNumber.NaN] =>
               replace (JsNumber.min x JsNumber.NaN) with JsNumber.NaN
                 by (destruct x; reflexivity) end;
             reflexivity]).
  - destruct (Z.ltb_spec (rank m) lo), (Z.leb_spec rankings.MATCHES (rank m));
      cbn [andb]; unfold JsNumber.gtb, JsNumber.min, JsNumber.of_Z;
      cbn [JsNumber.ltb]; repeat f_equal; lia.
  - change (JsNumber.ltb (JsNumber.of_Z (rank m)) JsNumber.NegInfinity)
      with false. cbn [andb].
    destruct (Z.leb_spec rankings.MATCHES (rank m));
      destruct (Z.ltb_spec hi (rank m));
      rewrite JsNumberOrder.min_of_Z; f_equal; lia.
  - destruct (Z.ltb_spec (rank m) lo), (Z.leb_spec rankings.MATCHES (rank m));
      cbn [andb]; rewrite ?JsNumberOrder.gtb_of_Z;
      try destruct (Z.ltb_spec hi (rank m));
      rewrite JsNumberOrder.min_of_Z; f_equal; lia.
  - change (JsNumber.ltb (JsNumber.of_Z (rank m)) JsNumber.NaN) with false.
    cbn [andb].
    destruct (rankings.MATCHES <=? rank m);
      destruct (Z.ltb_spec hi (rank m));
      rewrite JsNumberOrder.min_of_Z; f_equal; lia.
Qed.

End Accessors.

(** An accessor object with [maxRanking: undefined]: its candidate, the
    item itself, does not qualify against the same text. *)
Example rankItem_maxRanking_undefined :
  snd (rankItem toUpperCase_latin1 (Str (js "hello") : JsValue unit)
         (js "hello")
         (Some (with_accessors
                  [AccessorObject
                     {| AccessorOptions.accessor := item_text;
                        AccessorOptions.threshold := None;
                        AccessorOptions.maxRanking := Present None;
                        AccessorOptions.minRanking := Absent |}])))
  = Ok (no_candidate (Str (js "hello")) rankings.MATCHES).
Proof. vm_compute. reflexivity. Qed.

(** ** The order of the loop of rankItem *)

Section Order.

Implicit Types m b c : MatchRanking.

Lemma better_irreflexive m : better m m = false.
Proof.
  unfold better. rewrite Z.ltb_irrefl. cbn [orb].
  unfold JsNumber.gtb. rewrite JsNumberFacts.ltb_irreflexive.
  apply andb_false_r.
Qed.

Lemma finite_match_number m :
  finite_match m -> rank m = rankings.MATCHES ->
  JsNumber.is_finite (to_number (closeness m)) = true.
Proof.
  unfold finite_match. destruct m; cbn; try discriminate. intros H _. exact H.
Qed.

Lemma better_cases m b :
  better m b = true ->
  rank b < rank m
  \/ (rank m = rankings.MATCHES /\ rank b = rankings.MATCHES
      /\ JsNumber.ltb (to_number (closeness b)) (to_number (closeness m))
         = true).
Proof.
  unfold better, JsNumber.gtb. intro H. apply orb_prop in H.
  destruct H as [H|H]; [left; apply Z.ltb_lt; exact H|right].
  apply andb_prop in H. destruct H as [H Hc].
  apply andb_prop in H. destruct H as [Hm Hb].
  apply Z.eqb_eq in Hm, Hb. auto.
Qed.

Lemma not_better_cases m b :
  better m b = false ->
  rank m <= rank b
  /\ (rank m = rankings.MATCHES -> rank b = rankings.MATCHES ->
      JsNumber.ltb (to_number (closeness b)) (to_number (closeness m))
      = false).
Proof.
  unfold better, JsNumber.gtb. intro H. apply orb_false_elim in H.
  destruct H as [H Hc]. apply Z.ltb_ge in H. split; [exact H|].
  intros Hm Hb. rewrite Hm, Hb in Hc. cbn in Hc. exact Hc.
Qed.

Lemma better_by_rank m b : rank b < rank m -> better m b = true.
Proof.
  intro H. unfold better. apply Z.ltb_lt in H. rewrite H. reflexivity.
Qed.

Lemma better_by_closeness m b :
  rank m = rankings.MATCHES -> rank b = rankings.MATCHES ->
  JsNumber.ltb (to_number (closeness b)) (to_number (closeness m)) = true ->
  better m b = true.
Proof.
  intros Hm Hb H. unfold better, JsNumber.gtb. rewrite Hm, Hb, H.
  apply orb_true_r.
Qed.

Lemma better_asymmetric m b : better m b = true -> better b m = false.
Proof.
  intro H. destruct (better b m) eqn:E; [|reflexivity].
  apply better_cases in H, E.
  destruct H as [H|[Hm [Hb H]]], E as [E|[Hb' [Hm' E]]]; try lia.
  rewrite (JsNumberOrder.ltb_asymmetric _ _ H) in E. discriminate.
Qed.

Lemma better_transitive m b c :
  better m b = true -> better b c = true -> better m c = true.
Proof.
  intros H E. apply better_cases in H, E.
  destruct H as [H|[Hm [Hb H]]], E as [E|[Hb' [Hc E]]];
    try (apply better_by_rank; lia).
  apply better_by_closeness; [exact Hm|exact Hc|].
  exact (JsNumberOrder.ltb_transitive _ _ _ E H).
Qed.

(** A match that is better than one that a third match does not beat is
    better than the third. *)
Lemma better_than_no_better m b c :
  finite_match m -> finite_match b -> finite_match c ->
  better m b = true -> better c b = false -> better m c = true.
Proof.
  intros Fm Fb Fc H E. apply better_cases in H. apply not_better_cases in E.
  destruct E as [Ec Ecl].
  destruct H as [H|[Hm [Hb H]]]; [apply better_by_rank; lia|].
  destruct (Z.eq_dec (rank c) rankings.MATCHES) as [Hc|Hc];
    [|apply better_by_rank; lia].
  apply better_by_closeness; [exact Hm|exact Hc|].
  apply JsNumberOrder.ltb_below with (y := to_number (closeness b));
    try (apply finite_match_number; assumption).
  - exact H.
  - apply Ecl; assumption.
Qed.

End Order.

Section Loop.

Variable toUpperCase : JsString.code_unit -> list JsString.code_unit.

Context {TItem : Type}.

Lemma getMatchRanking_finite_match (testString stringToRank : jsstring)
  (options : RankItemOptions.t TItem) (m : MatchRanking) :
  getMatchRanking toUpperCase testString stringToRank options = Ok m ->
  finite_match m.
Proof. exact (@getMatchRanking_closeness_finite toUpperCase TItem _ _ _ m). Qed.

(** The candidate that replaced the best match last, with its index. *)
Lemma rank_values_index (value : jsstring)
  (options : RankItemOptions.t TItem) (options_threshold : Ranking)
  (valuesToRank : list RankValue) :
  forall (i : Z) (best result : RankingInfo.t TItem),
    rank_values toUpperCase value options options_threshold valuesToRank i best
    = Ok result ->
    result = best
    \/ exists (k : nat) rankValue,
         nth_error valuesToRank k = Some rankValue
         /\ getMatchRanking toUpperCase (itemValue rankValue) value options
            = Ok (RankingInfo.matchRanking result)
         /\ result
            = winner rankValue (RankingInfo.matchRanking result)
                (i + Z.of_nat k) (threshold_of options_threshold rankValue).
Proof.
  induction valuesToRank as [|rankValue rest IH]; intros i best result H.
  - injection H as <-. left. reflexivity.
  - cbn [rank_values] in H.
    destruct (getMatchRanking toUpperCase (itemValue rankValue) value options)
      as [m| |] eqn:Em; try discriminate.
    cbn [bind] in H.
    destruct (replaces_best (newRank_of rankValue m)
                (threshold_of options_threshold rankValue) m
                (RankingInfo.matchRanking best)) eqn:Er.
    + destruct (IH _ _ _ H) as [->|[k [rv [Hk [Hm Hr]]]]].
      * right. exists 0%nat, rankValue. cbn [nth_error].
        repeat split; [exact Em|]. unfold winner. cbn.
        rewrite Z.add_0_r. reflexivity.
      * right. exists (S k), rv. cbn [nth_error].
        repeat split; [exact Hk|exact Hm|]. rewrite Hr at 1.
        f_equal. lia.
    + destruct (IH _ _ _ H) as [->|[k [rv [Hk [Hm Hr]]]]].
      * left. reflexivity.
      * right. exists (S k), rv. cbn [nth_error].
        repeat split; [exact Hk|exact Hm|]. rewrite Hr at 1.
        f_equal. lia.
Qed.

(** Without bounds a candidate replaces the best match when it reaches
    its threshold and is better. *)
Lemma replaces_best_unbounded (rankValue : RankValue) (threshold : Ranking)
  (m b : MatchRanking) :
  unbounded rankValue ->
  replaces_best (newRank_of rankValue m) threshold m b
  = (threshold <=? rank m) && better m b.
Proof.
  intros [Hmin Hmax]. unfold replaces_best, newRank_of, clamped_rank, better.
  rewrite Hmin, Hmax. cbn [to_number].
  change (JsNumber.ltb (JsNumber.of_Z (rank m)) JsNumber.NegInfinity)
    with false.
  change (JsNumber.gtb (JsNumber.of_Z (rank m)) JsNumber.PosInfinity)
    with false.
  cbn [andb].
  change (JsNumber.min (JsNumber.of_Z (rank m)) JsNumber.PosInfinity)
    with (JsNumber.of_Z (rank m)).
  rewrite JsNumberOrder.geb_of_Z, JsNumberOrder.gtb_of_Z. reflexivity.
Qed.

Lemma getAllValuesToRank_unbounded (item : JsValue TItem)
  (accessors : list (Accessor TItem)) :
  Forall without_bounds accessors ->
  Forall unbounded (getAllValuesToRank item accessors).
Proof.
  intro H. apply Forall_forall. intros rankValue Hin.
  rewrite getAllValuesToRank_flat_map in Hin. apply in_flat_map in Hin.
  destruct Hin as [accessor [Ha Hrv]].
  apply in_map_iff in Hrv. destruct Hrv as [v [<- _]].
  pose proof (proj1 (Forall_forall _ _) H accessor Ha) as Hb.
  unfold without_bounds in Hb.
  destruct accessor as [f|[f t hi lo]]; [split; reflexivity|].
  cbn in Hb. injection Hb as -> ->. split; reflexivity.
Qed.

(** The loop keeps the first of the best candidates that reach their
    threshold. *)
Lemma rank_values_first_best (value : jsstring)
  (options : RankItemOptions.t TItem) (options_threshold : Ranking)
  (valuesToRank : list RankValue) :
  forall (i : Z) (best result : RankingInfo.t TItem),
    Forall unbounded valuesToRank ->
    finite_match (RankingInfo.matchRanking best) ->
    RankingInfo.accessorIndex best < i ->
    rank_values toUpperCase value options options_threshold valuesToRank i best
    = Ok result ->
    finite_match (RankingInfo.matchRanking result)
    /\ (result = best
        \/ (better (RankingInfo.matchRanking result)
              (RankingInfo.matchRanking best) = true
            /\ i <= RankingInfo.accessorIndex result))
    /\ forall (j : nat) rankValue m,
         nth_error valuesToRank j = Some rankValue ->
         getMatchRanking toUpperCase (itemValue rankValue) value options
         = Ok m ->
         threshold_of options_threshold rankValue <= rank m ->
         better m (RankingInfo.matchRanking result) = false
         /\ (i + Z.of_nat j < RankingInfo.accessorIndex result ->
             better (RankingInfo.matchRanking result) m = true).
Proof.
  induction valuesToRank as [|rankValue rest IH];
    intros i best result Hu Fb Hi H.
  - injection H as <-. split; [exact Fb|]. split; [left; reflexivity|].
    intros [|j] rv m Hj; discriminate Hj.
  - cbn [rank_values] in H.
    destruct (getMatchRanking toUpperCase (itemValue rankValue) value options)
      as [m0| |] eqn:Em; try discriminate.
    cbn [bind] in H.
    pose proof (getMatchRanking_finite_match _ _ _ Em) as Fm0.
    inversion Hu as [|? ? Hu0 Hur]; subst.
    rewrite (replaces_best_unbounded _ _ _ Hu0) in H.
    destruct ((threshold_of options_threshold rankValue <=? rank m0)
              && better m0 (RankingInfo.matchRanking best)) eqn:Er.
    + apply andb_prop in Er. destruct Er as [_ Hbetter].
      match type of H with
      | rank_values _ _ _ _ _ _ ?b = _ =>
        destruct (IH (i + 1) b result Hur Fm0 ltac:(cbn; lia) H)
          as [Fr [Hres Hall]]
      end.
      cbn [RankingInfo.matchRanking] in Hres.
      split; [exact Fr|]. split.
      * right. destruct Hres as [->|[Hb Hidx]].
        -- cbn. split; [exact Hbetter|lia].
        -- split; [exact (better_transitive _ _ _ Hb Hbetter)|lia].
      * intros [|j] rv m Hj Hm Ht.
        -- cbn [nth_error] in Hj. injection Hj as <-.
           rewrite Em in Hm. injection Hm as <-.
           destruct Hres as [->|[Hb Hidx]]; cbn.
           ++ split; [apply better_irreflexive|lia].
           ++ split; [exact (better_asymmetric _ _ Hb)|intros _; exact Hb].
        -- cbn [nth_error] in Hj.
           destruct (Hall j rv m Hj Hm Ht) as [Hno Hbefore].
           split; [exact Hno|]. intro Hlt. apply Hbefore. lia.
    + destruct (IH (i + 1) best result Hur Fb ltac:(lia) H)
        as [Fr [Hres Hall]].
      split; [exact Fr|]. split.
      * destruct Hres as [->|[Hb Hidx]]; [left; reflexivity|right].
        split; [exact Hb|lia].
      * intros [|j] rv m Hj Hm Ht.
        -- cbn [nth_error] in Hj. injection Hj as <-.
           rewrite Em in Hm. injection Hm as <-.
           apply Z.leb_le in Ht. rewrite Ht in Er. cbn [andb] in Er.
           destruct Hres as [->|[Hb Hidx]].
           ++ split; [exact Er|lia].
           ++ pose proof (@better_than_no_better _ _ _ Fr Fb Fm0 Hb Er) as Hbm.
              split; [exact (better_asymmetric _ _ Hbm)|intros _; exact Hbm].
        -- cbn [nth_error] in Hj.
           destruct (Hall j rv m Hj Hm Ht) as [Hno Hbefore].
           split; [exact Hno|]. intro Hlt. apply Hbefore. lia.
Qed.

End Loop.

(** ** The result of rankItem with accessors *)

Section Aggregator.

Variable toUpperCase : JsString.code_unit -> list JsString.code_unit.

Context {TItem : Type}.

Lemma nth_error_itemValue (l : list RankValue) (k : nat)
  (rankValue : RankValue) :
  nth_error l k = Some rankValue ->
  nth_error (List.map itemValue l) k = Some (itemValue rankValue).
Proof. intro H. rewrite nth_error_map, H. reflexivity. Qed.

(** X14. accessorIndex counts strings, not accessors: when the result
    passed, it is the index of rankedValue among all the strings of all
    the accessors, and the match is that of the scorer for this string;
    when it did not, the result is the initial one, with index -1. *)
Theorem rankItem_accessorIndex (item : JsValue TItem) (value : jsstring)
  (options : RankItemOptions.t TItem) (accessors : list (Accessor TItem))
  (result : RankingInfo.t TItem) :
  RankItemOptions.accessors options = Some accessors ->
  snd (rankItem toUpperCase item value (Some options)) = Ok result ->
  (RankingInfo.passed result = false
   /\ result = no_candidate item (threshold_or_default options))
  \/ (RankingInfo.passed result = true
      /\ exists (k : nat) (s : jsstring),
           nth_error (flat_map (getItemValues item) accessors) k = Some s
           /\ RankingInfo.accessorIndex result = Z.of_nat k
           /\ RankingInfo.rankedValue result = Str s
           /\ getMatchRanking toUpperCase s value options
              = Ok (RankingInfo.matchRanking result)).
Proof.
  intros Hacc H. unfold rankItem in H.
  cbn [snd with_threshold RankItemOptions.accessors] in H. rewrite Hacc in H.
  destruct (rank_values_index _ _ _ _ _ _ _ H) as [->|[k [rv [Hk [Hm Hr]]]]].
  - left. split; reflexivity.
  - right. rewrite Hr. cbn. split; [reflexivity|].
    exists k, (itemValue rv). repeat split.
    + rewrite <- (getAllValuesToRank_itemValues item accessors).
      apply nth_error_itemValue. exact Hk.
    + exact Hm.
Qed.

(** X15. With accessors without bounds: no candidate that reaches its
    threshold is better than the result (a greater rank, or for two fuzzy
    matches a greater closeness), and every such candidate before the
    winning one is worse: of equal candidates the first wins. *)
Theorem rankItem_first_best (item : JsValue TItem) (value : jsstring)
  (options : RankItemOptions.t TItem) (accessors : list (Accessor TItem))
  (result : RankingInfo.t TItem) :
  RankItemOptions.accessors options = Some accessors ->
  Forall without_bounds accessors ->
  snd (rankItem toUpperCase item value (Some options)) = Ok result ->
  forall (j : nat) rankValue m,
    nth_error (getAllValuesToRank item accessors) j = Some rankValue ->
    getMatchRanking toUpperCase (itemValue rankValue) value options = Ok m ->
    threshold_of (threshold_or_default options) rankValue <= rank m ->
    better m (RankingInfo.matchRanking result) = false
    /\ (Z.of_nat j < RankingInfo.accessorIndex result ->
        better (RankingInfo.matchRanking result) m = true).
Proof.
  intros Hacc Hb H j rankValue m Hj Hm Ht. unfold rankItem in H.
  cbn [snd with_threshold RankItemOptions.accessors] in H. rewrite Hacc in H.
  match type of H with
  | rank_values _ _ _ _ _ _ ?b = _ =>
    destruct (@rank_values_first_best toUpperCase TItem _ _ _ _ 0 b result
                (getAllValuesToRank_unbounded item Hb) I
                ltac:(cbn; lia) H) as [_ [_ Hall]]
  end.
  exact (Hall j rankValue m Hj Hm Ht).
Qed.

(** X16. With one function accessor that gives one string, the result
    is the match of that string when its rank reaches the threshold and
    is at least MATCHES, and the initial result (NO_MATCH, not passed)
    otherwise. *)
Theorem rankItem_single_accessor (item : JsValue TItem) (f : AccessorFn TItem)
  (s value : jsstring) (options : RankItemOptions.t TItem)
  (m : MatchRanking) :
  RankItemOptions.accessors options = Some [AccessorFunction f] ->
  f item = ValueString s ->
  getMatchRanking toUpperCase s value options = Ok m ->
  snd (rankItem toUpperCase item value (Some options))
  = Ok (if (threshold_or_default options <=? rank m)
           && (rankings.NO_MATCH <? rank m)
        then winner (candidate (AccessorFunction f) s) m 0
               (threshold_or_default options)
        else no_candidate item (threshold_or_default options)).
Proof.
  intros Hacc Hf Hm. unfold rankItem.
  cbn [snd with_threshold RankItemOptions.accessors]. rewrite Hacc.
  cbn [getAllValuesToRank]. unfold getItemValues. cbv zeta.
  revert Hf. destruct (f item) as [|s'|l]; intro Hf; try discriminate Hf.
  injection Hf as ->.
  cbn [List.map app rank_values itemValue].
  change (getMatchRanking toUpperCase s value (with_threshold options))
    with (getMatchRanking toUpperCase s value options).
  rewrite Hm. cbn [bind].
  rewrite replaces_best_unbounded by (split; reflexivity).
  cbn [RankingInfo.matchRanking]. unfold better.
  cbn [rank]. change (rankings.NO_MATCH =? rankings.MATCHES) with false.
  rewrite andb_false_r, orb_false_r. reflexivity.
Qed.

End Aggregator.

(** X14 at an input: the second accessor wins with its only string,
    the third of all. *)
Lemma rankItem_accessorIndex_witness :
  (RankingInfo.passed
     (winner (candidate fruit_accessor (js "banana")) (StartsWith 3) 2
        rankings.MATCHES : RankingInfo.t unit)
   = false
   /\ winner (candidate fruit_accessor (js "banana")) (StartsWith 3) 2
        rankings.MATCHES
      = no_candidate (Obj tt)
          (threshold_or_default
             (with_accessors [names_accessor; fruit_accessor])))
  \/ (RankingInfo.passed
        (winner (candidate fruit_accessor (js "banana")) (StartsWith 3) 2
           rankings.MATCHES : RankingInfo.t unit)
      = true
      /\ exists (k : nat) (s : jsstring),
           nth_error
             (flat_map (getItemValues (Obj tt))
                [names_accessor; fruit_accessor]) k = Some s
           /\ RankingInfo.accessorIndex
                (winner (candidate fruit_accessor (js "banana"))
                   (StartsWith 3) 2 rankings.MATCHES : RankingInfo.t unit)
              = Z.of_nat k
           /\ RankingInfo.rankedValue
                (winner (candidate fruit_accessor (js "banana"))
                   (StartsWith 3) 2 rankings.MATCHES : RankingInfo.t unit)
              = Str s
           /\ getMatchRanking toUpperCase_latin1 s (js "ban")
                (with_accessors [names_accessor; fruit_accessor])
              = Ok (RankingInfo.matchRanking
                      (winner (candidate fruit_accessor (js "banana"))
                         (StartsWith 3) 2 rankings.MATCHES
                       : RankingInfo.t unit))).
Proof.
  apply (@rankItem_accessorIndex toUpperCase_latin1 unit (Obj tt) (js "ban")
           (with_accessors [names_accessor; fruit_accessor])
           [names_accessor; fruit_accessor]);
    [reflexivity|vm_compute; reflexivity].
Defined.

(** X15 at an input: "zebra" and "banana" contain the query "a" and
    "apple", the second candidate, starts with it. *)
Lemma rankItem_first_best_witness :
  better (Contains 4 1) (StartsWith 1) = false
  /\ (Z.of_nat 0 < 1 -> better (StartsWith 1) (Contains 4 1) = true).
Proof.
  apply (@rankItem_first_best toUpperCase_latin1 unit (Obj tt) (js "a")
           (with_accessors [names_accessor; fruit_accessor])
           [names_accessor; fruit_accessor]
           (winner (candidate names_accessor (js "apple")) (StartsWith 1) 1
              rankings.MATCHES)
           eq_refl
           ltac:(repeat constructor)
           ltac:(vm_compute; reflexivity)
           0%nat
           (candidate names_accessor (js "zebra"))
           (Contains 4 1));
    [reflexivity|vm_compute; reflexivity|vm_compute; discriminate].
Defined.

(** X16 at an input: the text "hello" does not match the query "xyz", and
    with the threshold NO_MATCH the result is the initial one. *)
Lemma rankItem_single_accessor_witness :
  snd (rankItem toUpperCase_latin1 (Str (js "hello") : JsValue unit)
         (js "xyz")
         (Some {| RankItemOptions.accessors :=
                    Some [AccessorFunction item_text];
                  RankItemOptions.threshold := Some rankings.NO_MATCH;
                  RankItemOptions.keepDiacritics := None |}))
  = Ok (no_candidate (Str (js "hello")) rankings.NO_MATCH).
Proof.
  apply (@rankItem_single_accessor toUpperCase_latin1 unit
           (Str (js "hello")) item_text (js "hello") (js "xyz")
           {| RankItemOptions.accessors := Some [AccessorFunction item_text];
              RankItemOptions.threshold := Some rankings.NO_MATCH;
              RankItemOptions.keepDiacritics := None |} NoMatch);
    [reflexivity|reflexivity|vm_compute; reflexivity].
Defined.

(** ** compareItems as a sort order *)

Section Comparator.

Context {TItem : Type}.

Implicit Types a b c : RankingInfo.t TItem.

Lemma compareItems_before a b :
  JsNumber.ltb (compareItems a b) JsNumber.zero
  = better (RankingInfo.matchRanking a) (RankingInfo.matchRanking b).
Proof.
  rewrite (proj1 (compareItems_order a b)).
  unfold both_match, better, closeness_of, RankingInfo.rank.
  destruct (rank (RankingInfo.matchRanking a) =? rankings.MATCHES) eqn:Ea;
    destruct (rank (RankingInfo.matchRanking b) =? rankings.MATCHES) eqn:Eb;
    cbn [andb]; rewrite ?orb_false_r; try reflexivity.
  apply Z.eqb_eq in Ea, Eb. rewrite Ea, Eb. reflexivity.
Qed.

Lemma compareItems_after a b :
  JsNumber.gtb (compareItems a b) JsNumber.zero
  = better (RankingInfo.matchRanking b) (RankingInfo.matchRanking a).
Proof.
  rewrite (proj2 (compareItems_order a b)).
  unfold both_match, better, closeness_of, RankingInfo.rank, JsNumber.gtb.
  destruct (rank (RankingInfo.matchRanking a) =? rankings.MATCHES) eqn:Ea;
    destruct (rank (RankingInfo.matchRanking b) =? rankings.MATCHES) eqn:Eb;
    cbn [andb]; rewrite ?orb_false_r; try reflexivity.
  apply Z.eqb_eq in Ea, Eb. rewrite Ea, Eb. reflexivity.
Qed.

(** The result is zero exactly for the same rank and, at the MATCHES
    tier, the same closeness. *)
Lemma compareItems_zero a b :
  finite_closeness a -> finite_closeness b ->
  JsNumber.eqb (compareItems a b) JsNumber.zero
  = (if both_match a b
     then JsNumber.eqb (closeness_of a) (closeness_of b)
     else RankingInfo.rank a =? RankingInfo.rank b).
Proof.
  intros Fa Fb. unfold compareItems, both_match.
  destruct ((RankingInfo.rank a =? rankings.MATCHES)
            && (RankingInfo.rank b =? rankings.MATCHES)) eqn:E.
  - apply andb_prop in E. destruct E as [Ea Eb]. apply Z.eqb_eq in Ea, Eb.
    pose proof (finite_match_number _ Fa Ea) as Ha.
    pose proof (finite_match_number _ Fb Eb) as Hb.
    unfold closeness_of.
    destruct (to_number (closeness (RankingInfo.matchRanking a)))
      as [| |x|]; try discriminate.
    destruct (to_number (closeness (RankingInfo.matchRanking b)))
      as [| |y|]; try discriminate.
    apply JsNumberOrder.sub_zero.
  - unfold JsNumber.of_Z. rewrite JsNumberOrder.sub_zero.
    apply JsNumberOrder.eqb_of_Z.
Qed.

Lemma compareItems_zero_iff a b :
  finite_closeness a -> finite_closeness b ->
  JsNumber.eqb (compareItems a b) JsNumber.zero = true
  <-> (RankingInfo.rank a = RankingInfo.rank b
       /\ (RankingInfo.rank a = rankings.MATCHES ->
           JsNumber.eqb (closeness_of a) (closeness_of b) = true)).
Proof.
  intros Fa Fb. rewrite (compareItems_zero a b Fa Fb). unfold both_match.
  destruct (Z.eqb_spec (RankingInfo.rank a) rankings.MATCHES) as [Ea|Ea];
    destruct (Z.eqb_spec (RankingInfo.rank b) rankings.MATCHES) as [Eb|Eb];
    cbn [andb]; rewrite ?Z.eqb_eq.
  - split; [intro H; split; [congruence|intros _; exact H]|].
    intros [_ H]. exact (H Ea).
  - split; [intro H; exfalso; congruence|intros [H _]; exact H].
  - split; [intro H; split; [exact H|intro; contradiction]|].
    intros [H _]. exact H.
  - split; [intro H; split; [exact H|intro; contradiction]|].
    intros [H _]. exact H.
Qed.

(** X17. On values of finite closeness compareItems is a consistent
    comparator: negative results chain, zero results chain, the result is
    zero exactly for the same rank and, at the MATCHES tier, the same
    closeness, and it is always negative, zero or positive. *)
Theorem compareItems_sort_order a b c :
  finite_closeness a -> finite_closeness b -> finite_closeness c ->
  (JsNumber.ltb (compareItems a b) JsNumber.zero = true ->
   JsNumber.ltb (compareItems b c) JsNumber.zero = true ->
   JsNumber.ltb (compareItems a c) JsNumber.zero = true)
  /\ (JsNumber.eqb (compareItems a b) JsNumber.zero = true ->
      JsNumber.eqb (compareItems b c) JsNumber.zero = true ->
      JsNumber.eqb (compareItems a c) JsNumber.zero = true)
  /\ (JsNumber.eqb (compareItems a b) JsNumber.zero = true
      <-> (RankingInfo.rank a = RankingInfo.rank b
           /\ (RankingInfo.rank a = rankings.MATCHES ->
               JsNumber.eqb (closeness_of a) (closeness_of b) = true)))
  /\ JsNumber.eqb (compareItems a b) JsNumber.zero
     = negb (JsNumber.ltb (compareItems a b) JsNumber.zero)
       && negb (JsNumber.gtb (compareItems a b) JsNumber.zero).
Proof.
  intros Fa Fb Fc. split; [|split; [|split]].
  - rewrite !compareItems_before. apply better_transitive.
  - rewrite (compareItems_zero_iff a b Fa Fb),
      (compareItems_zero_iff b c Fb Fc), (compareItems_zero_iff a c Fa Fc).
    intros [Hab Hcab] [Hbc Hcbc]. split; [congruence|].
    intro Ha. apply JsNumberOrder.eqb_transitive with (closeness_of b).
    + exact (Hcab Ha).
    + apply Hcbc. congruence.
  - exact (compareItems_zero_iff a b Fa Fb).
  - rewrite (compareItems_zero a b Fa Fb), compareItems_before,
      compareItems_after.
    unfold both_match, better, RankingInfo.rank, closeness_of, JsNumber.gtb.
    destruct (Z.eqb_spec (rank (RankingInfo.matchRanking a)) rankings.MATCHES)
      as [Ea|Ea];
      destruct (Z.eqb_spec (rank (RankingInfo.matchRanking b))
                  rankings.MATCHES) as [Eb|Eb];
      cbn [andb]; rewrite ?orb_false_r;
      try (destruct (Z.eqb_spec (rank (RankingInfo.matchRanking a))
                       (rank (RankingInfo.matchRanking b)));
           destruct (Z.ltb_spec (rank (RankingInfo.matchRanking a))
                       (rank (RankingInfo.matchRanking b)));
           destruct (Z.ltb_spec (rank (RankingInfo.matchRanking b))
                       (rank (RankingInfo.matchRanking a)));
           cbn; lia || reflexivity).
    rewrite Ea, Eb. rewrite Z.ltb_irrefl. cbn [orb].
    pose proof (finite_match_number _ Fa Ea) as Ha.
    pose proof (finite_match_number _ Fb Eb) as Hb.
    destruct (to_number (closeness (RankingInfo.matchRanking a)))
      as [| |x|]; try discriminate.
    destruct (to_number (closeness (RankingInfo.matchRanking b)))
      as [| |y|]; try discriminate.
    apply JsNumberOrder.eqb_trichotomy.
Qed.

End Comparator.

(** X17 at an input: two fuzzy matches, of closeness 1 and 1/3; the
    result is negative, so it is not zero. *)
Lemma compareItems_sort_order_witness :
  JsNumber.eqb
    (compareItems (fuzzy_info (js "hello") (js "el"))
       (fuzzy_info (js "hello") (js "eo")))
    JsNumber.zero
  = negb
      (JsNumber.ltb
         (compareItems (fuzzy_info (js "hello") (js "el"))
            (fuzzy_info (js "hello") (js "eo")))
         JsNumber.zero)
    && negb
         (JsNumber.gtb
            (compareItems (fuzzy_info (js "hello") (js "el"))
               (fuzzy_info (js "hello") (js "eo")))
            JsNumber.zero).
Proof.
  apply (@compareItems_sort_order unit (fuzzy_info (js "hello") (js "el"))
           (fuzzy_info (js "hello") (js "eo"))
           (fuzzy_info (js "hello") (js "hlo")));
    vm_compute; reflexivity.
Defined.

(** ** The fuzzy step and subsequences *)

Section Subsequence.

Implicit Types (c : JsString.code_unit) (testString query : jsstring).

Lemma subsequence_tail c query text :
  subsequence (c :: query) text -> subsequence query text.
Proof.
  intro H. remember (c :: query) as q eqn:Eq. revert c query Eq.
  induction H as [text|d q' text H IH|d q' text H IH]; intros c query Eq.
  - discriminate Eq.
  - injection Eq as -> ->. apply subsequence_skip. exact H.
  - apply subsequence_skip. exact (IH c query Eq).
Qed.

Lemma subsequence_skipn query text (n : nat) :
  subsequence query (skipn n text) -> subsequence query text.
Proof.
  revert text. induction n as [|n IH]; intros text H; [exact H|].
  destruct text as [|x text]; [exact H|].
  apply subsequence_skip. apply IH. exact H.
Qed.

(** A subsequence that starts with [c] goes on after the first [c]. *)
Lemma subsequence_first c query text :
  subsequence (c :: query) text ->
  exists k, index_of c text = Some k /\ subsequence query (skipn (S k) text).
Proof.
  induction text as [|x text IH]; intro H; [inversion H|].
  cbn [index_of]. destruct (N.eqb_spec x c) as [->|Hne].
  - exists 0%nat. split; [reflexivity|]. cbn [skipn].
    inversion H as [|? ? ? H'|? ? ? H']; subst; [exact H'|].
    exact (subsequence_tail H').
  - inversion H as [|? ? ? H'|? ? ? H']; subst; [contradiction|].
    destruct (IH H') as [k [Hk Hs]]. exists (S k). rewrite Hk.
    split; [reflexivity|exact Hs].
Qed.

Lemma index_of_found c text (k : nat) :
  index_of c text = Some k ->
  nth_error text k = Some c /\ (k < List.length text)%nat.
Proof.
  revert k. induction text as [|x text IH]; intros k H; [discriminate|].
  cbn [index_of] in H. destruct (N.eqb_spec x c) as [->|Hne].
  - injection H as <-. split; [reflexivity|cbn; lia].
  - destruct (index_of c text) as [k'|]; [|discriminate].
    injection H as <-. destruct (IH k' eq_refl) as [Hn Hl].
    split; [exact Hn|cbn; lia].
Qed.

Lemma subsequence_from c query text (k : nat) :
  nth_error text k = Some c ->
  subsequence query (skipn (S k) text) ->
  subsequence (c :: query) text.
Proof.
  revert text. induction k as [|k IH]; intros [|x text] Hn Hs;
    try discriminate.
  - injection Hn as ->. apply subsequence_take. exact Hs.
  - apply subsequence_skip. apply IH; assumption.
Qed.

(** Taking each unit at its first occurrence finds a subsequence
    whenever there is one. *)
Lemma subsequence_positions_complete testString query :
  forall from,
    subsequence_positions testString query from <> None
    <-> subsequence query (skipn from testString).
Proof.
  induction query as [|c q IH]; intro from.
  - cbn. split; [intros _; apply subsequence_nil|discriminate].
  - cbn [subsequence_positions]. unfold first_occurrence. split.
    + destruct (index_of c (skipn from testString)) as [k|] eqn:Ek;
        cbn [option_map]; [|intro H; contradiction].
      intro H.
      apply subsequence_from with (k := k);
        [exact (proj1 (index_of_found _ _ Ek))|].
      rewrite skipn_skipn. replace (S k + from)%nat with (S (from + k)) by lia.
      apply IH.
      destruct (subsequence_positions testString q (S (from + k)));
        [discriminate|contradiction].
    + intro H. destruct (subsequence_first H) as [k [Hk Hs]].
      rewrite Hk. cbn [option_map].
      rewrite skipn_skipn in Hs.
      replace (S k + from)%nat with (S (from + k)) in Hs by lia.
      apply IH in Hs.
      destruct (subsequence_positions testString q (S (from + k)));
        [discriminate|contradiction].
Qed.

(** X18. The fuzzy step succeeds exactly when the query is not empty and
    is a subsequence of the text (same units, same order, case
    included). *)
Theorem getClosenessRanking_subsequence testString stringToRank :
  getClosenessRanking testString stringToRank <> NoMatch
  <-> (stringToRank <> [] /\ subsequence stringToRank testString).
Proof.
  pose proof (subsequence_positions_complete testString stringToRank 0)
    as Hc.
  cbn [skipn] in Hc. split.
  - intro H. split.
    + intros ->. apply H. rewrite getClosenessRanking_positions. reflexivity.
    + apply Hc. intro E. apply H. exact (getClosenessRanking_fails _ _ E).
  - intros [Hq Hs] E. apply Hc in Hs.
    destruct (subsequence_positions testString stringToRank 0) as [ps|] eqn:Ep;
      [|contradiction].
    rewrite (@getClosenessRanking_succeeds testString stringToRank ps) in E;
      [discriminate|exact Hq|exact Ep].
Qed.

Lemma first_occurrence_inside c testString (from p : nat) :
  first_occurrence c testString from = Some p ->
  (from <= p < List.length testString)%nat.
Proof.
  unfold first_occurrence.
  destruct (index_of c (skipn from testString)) as [k|] eqn:Ek;
    [|discriminate].
  cbn. intro H. injection H as <-.
  pose proof (proj2 (index_of_found _ _ Ek)) as Hk.
  rewrite length_skipn in Hk. lia.
Qed.

(** The positions grow by one at least and stay inside the text. *)
Lemma last_position_bounds testString query :
  forall (from : nat) ps (d : nat),
    subsequence_positions testString query from = Some ps ->
    query <> [] ->
    (from + List.length query <= S (last ps d))%nat
    /\ (last ps d < List.length testString)%nat.
Proof.
  induction query as [|c q IH]; intros from ps d H Hq; [contradiction|].
  cbn [subsequence_positions] in H.
  destruct (first_occurrence c testString from) as [p|] eqn:Ep;
    [|discriminate].
  destruct (subsequence_positions testString q (S p)) as [ps'|] eqn:E;
    [|discriminate].
  injection H as <-. rewrite last_cons.
  apply first_occurrence_inside in Ep.
  destruct q as [|c' q'].
  - cbn in E. injection E as <-. cbn. lia.
  - destruct (IH (S p) ps' p E ltac:(discriminate)) as [H1 H2].
    cbn [List.length] in *. lia.
Qed.

(** X19. The spread of a fuzzy match (the field [index]) lies between
    the length of the query less one and the length of the text less
    one. *)
Theorem getClosenessRanking_spread_bounds testString stringToRank
  (index length : Z) (closeness : JsNumber.t) :
  getClosenessRanking testString stringToRank
  = Matches index length closeness ->
  JsString.length stringToRank - 1 <= index
  /\ index <= JsString.length testString - 1.
Proof.
  intro H.
  destruct (subsequence_positions testString stringToRank 0) as [ps|] eqn:E;
    [|rewrite (getClosenessRanking_fails _ _ E) in H; discriminate].
  destruct stringToRank as [|c q];
    [rewrite getClosenessRanking_positions in H; discriminate|].
  rewrite (@getClosenessRanking_succeeds testString (c :: q) ps) in H;
    [|discriminate|exact E].
  injection H as <- _ _.
  cbn [subsequence_positions] in E.
  destruct (first_occurrence c testString 0) as [p|] eqn:Ep; [|discriminate].
  destruct (subsequence_positions testString q (S p)) as [ps'|] eqn:E';
    [|discriminate].
  injection E as <-.
  unfold spread, last_position, first_position, JsString.length.
  rewrite last_cons. cbn [hd List.length].
  apply first_occurrence_inside in Ep.
  destruct q as [|c' q'].
  - cbn in E'. injection E' as <-. cbn. lia.
  - destruct (@last_position_bounds testString (c' :: q') (S p) ps' p E'
                ltac:(discriminate)) as [H1 H2].
    cbn [List.length] in *. lia.
Qed.

End Subsequence.

(** X19 at an input: "hlo" in "hello". *)
Lemma getClosenessRanking_spread_bounds_witness :
  JsString.length (js "hlo") - 1 <= 4
  /\ 4 <= JsString.length (js "hello") - 1.
Proof.
  apply (@getClosenessRanking_spread_bounds (js "hello") (js "hlo") 4 3
           (JsNumber.Finite (1 # 4))).
  vm_compute. reflexivity.
Defined.

Section FuzzyOrder.

Variable toUpperCase : JsString.code_unit -> list JsString.code_unit.

Context {TItem : Type}.

(** A fuzzy match of the scorer comes from the fuzzy step, for a query of
    two units or more. *)
Lemma getMatchRanking_fuzzy_spread (testString stringToRank : jsstring)
  (options : RankItemOptions.t TItem) (index length : Z) (c : JsNumber.t) :
  getMatchRanking toUpperCase testString stringToRank options
  = Ok (Matches index length c) ->
  getClosenessRanking testString stringToRank = Matches index length c
  /\ 1 <= index
  /\ c = JsNumber.div JsNumber.one (JsNumber.of_Z index).
Proof.
  intro H.
  assert (Hfuzzy : getClosenessRanking testString stringToRank
                   = Matches index length c).
  { unfold getMatchRanking in H.
    destruct (pattern_ranking toUpperCase testString stringToRank options)
      as [[found|]| |] eqn:E; cbn [bind] in H; try discriminate;
      injection H as H.
    - subst found. apply pattern_ranking_closeness in E. discriminate E.
    - exact H. }
  split; [exact Hfuzzy|].
  destruct stringToRank as [|c1 [|c2 query]].
  - rewrite getClosenessRanking_positions in Hfuzzy. discriminate Hfuzzy.
  - apply getMatchRanking_unit_query in H. discriminate H.
  - destruct (subsequence_positions testString (c1 :: c2 :: query) 0)
      as [ps|] eqn:Eps;
      [|rewrite (getClosenessRanking_fails _ _ Eps) in Hfuzzy;
        discriminate Hfuzzy].
    rewrite (@getClosenessRanking_succeeds testString (c1 :: c2 :: query) ps)
      in Hfuzzy; [|discriminate|exact Eps].
    injection Hfuzzy as <- <- <-.
    pose proof (spread_positive _ _ _ _ Eps) as Hs.
    split; [lia|reflexivity].
Qed.

(** X20. Among the fuzzy matches of the scorer the smaller spread has the
    greater closeness, and every closeness is above 0 and at most 1. *)
Theorem getMatchRanking_fuzzy_order (testString1 stringToRank1 : jsstring)
  (testString2 stringToRank2 : jsstring)
  (options1 options2 : RankItemOptions.t TItem)
  (index1 length1 index2 length2 : Z) (closeness1 closeness2 : JsNumber.t) :
  getMatchRanking toUpperCase testString1 stringToRank1 options1
  = Ok (Matches index1 length1 closeness1) ->
  getMatchRanking toUpperCase testString2 stringToRank2 options2
  = Ok (Matches index2 length2 closeness2) ->
  JsNumber.gtb closeness1 closeness2 = (index1 <? index2)
  /\ JsNumber.ltb JsNumber.zero closeness1 = true
  /\ JsNumber.gtb closeness1 JsNumber.one = false.
Proof.
  intros H1 H2.
  destruct (getMatchRanking_fuzzy_spread _ _ _ H1) as [_ [Hi1 ->]].
  destruct (getMatchRanking_fuzzy_spread _ _ _ H2) as [_ [Hi2 ->]].
  split; [apply JsNumberQuotient.div_one_order; lia|].
  apply JsNumberQuotient.div_one_range. lia.
Qed.

End FuzzyOrder.

(** X20 at an input: "eo" and "hlo" in "hello". *)
Lemma getMatchRanking_fuzzy_order_witness :
  JsNumber.gtb (JsNumber.Finite (1 # 3)) (JsNumber.Finite (1 # 4))
  = (3 <? 4)
  /\ JsNumber.ltb JsNumber.zero (JsNumber.Finite (1 # 3)) = true
  /\ JsNumber.gtb (JsNumber.Finite (1 # 3)) JsNumber.one = false.
Proof.
  apply (@getMatchRanking_fuzzy_order toUpperCase_latin1 unit
           (js "hello") (js "eo") (js "hello") (js "hlo")
           RankItemOptions.empty RankItemOptions.empty
           3 2 4 3 (JsNumber.Finite (1 # 3)) (JsNumber.Finite (1 # 4)));
    vm_compute; reflexivity.
Defined.

(** ** Patterns of literal units *)

Module RegExpUnits.
Import RegExp.

Lemma skipn_nth_error (A : Type) (l : list A) (n : nat) :
  skipn n l
  = match nth_error l n with
    | Some x => x :: skipn (S n) l
    | None => []
    end.
Proof.
  revert l. induction n as [|n IH]; intros [|x l]; try reflexivity.
  cbn [skipn nth_error]. rewrite IH. reflexivity.
Qed.

Lemma same_units_length toUpperCase ignoreCase (s w : list code_unit) :
  same_units toUpperCase ignoreCase s w = true ->
  List.length w = List.length s.
Proof.
  revert w. induction s as [|a s IH]; intros [|ch w] H; try discriminate.
  - reflexivity.
  - cbn in H. apply andb_prop in H. cbn. f_equal. apply IH. apply H.
Qed.

Lemma same_units_exact toUpperCase (s w : list code_unit) :
  same_units toUpperCase false s w = true <-> s = w.
Proof.
  revert w. induction s as [|a s IH]; intros [|ch w]; cbn;
    try (split; [discriminate|intro H; discriminate H]).
  - split; reflexivity.
  - unfold same_unit. rewrite andb_true_iff, N.eqb_eq, IH.
    split; [intros [-> ->]; reflexivity|intro H; injection H; auto].
Qed.

(** The whole text against the units is its start against them, when the
    lengths agree. *)
Lemma same_units_whole toUpperCase ignoreCase (s t : list code_unit) :
  same_units toUpperCase ignoreCase s t
  = same_units toUpperCase ignoreCase s (firstn (List.length s) t)
    && (List.length s =? List.length t)%nat.
Proof.
  revert t. induction s as [|a s IH]; intros [|ch t]; cbn;
    try reflexivity.
  rewrite IH. rewrite andb_assoc. reflexivity.
Qed.

Section Literal.

Variable toUpperCase : code_unit -> list code_unit.
Variable input : jsstring.
Variable ignoreCase : bool.
Variable rounds : nat.

Lemma matcher_seq_of_terms (ts : list term) :
  forall acc x c,
    matcher toUpperCase input ignoreCase rounds (seq_of ts acc) x c
    = matcher_terms toUpperCase input ignoreCase rounds (rev ts)
        (fun y => matcher toUpperCase input ignoreCase rounds acc y c) x.
Proof.
  induction ts as [|t ts IH]; intros acc x c; [reflexivity|].
  cbn [seq_of rev]. rewrite IH. unfold matcher_terms.
  rewrite fold_right_app. reflexivity.
Qed.

Lemma matcher_alternative (ts : list term) (x : state) (c : continuation) :
  matcher toUpperCase input ignoreCase rounds (alternative ts) x c
  = matcher_terms toUpperCase input ignoreCase rounds (rev ts) c x.
Proof.
  destruct ts as [|t ts]; [reflexivity|].
  cbn [alternative rev]. rewrite matcher_seq_of_terms. unfold matcher_terms.
  rewrite fold_right_app. reflexivity.
Qed.

(** Literal units match the units of the input that are the same. *)
Lemma matcher_terms_same_units (s : list code_unit) :
  forall (before : nat) cs c,
    matcher_terms toUpperCase input ignoreCase rounds (List.map unit_term s) c
      {| endIndex := before; caps := cs |}
    = if same_units toUpperCase ignoreCase s
           (firstn (List.length s) (skipn before input))
      then c {| endIndex := before + List.length s; caps := cs |}
      else None.
Proof.
  induction s as [|a s IH]; intros before cs c.
  - cbn. rewrite Nat.add_0_r. reflexivity.
  - cbn [List.map matcher_terms fold_right unit_term t_node matcher endIndex
         List.length].
    rewrite (skipn_nth_error input before).
    destruct (nth_error input before) as [ch|]; [|reflexivity].
    cbn [firstn same_units in_set].
    destruct (same_unit toUpperCase ignoreCase a ch); [|reflexivity].
    cbn [andb]. unfold advance. cbn [endIndex caps].
    fold (matcher_terms toUpperCase input ignoreCase rounds
            (List.map unit_term s) c).
    rewrite IH. replace (S before + List.length s)%nat
      with (before + S (List.length s))%nat by lia.
    reflexivity.
Qed.

End Literal.

End RegExpUnits.

Module RegExpPatterns.
Import RegExp.

Lemma tokens_literal_text (s : jsstring) :
  literal s = true -> tokens s = List.map (fun c => TAtom (Char c)) s.
Proof.
  intro H. pose proof (RegExpFacts.tokens_literal s [] H) as E.
  rewrite !app_nil_r in E. exact E.
Qed.

Lemma parse_tokens_literal_text (s : jsstring) (groups : nat) (cur : frame)
  (stack : list frame) :
  parse_tokens (List.map (fun c => TAtom (Char c)) s) groups cur stack
  = parse_tokens [] groups
      {| f_capture := f_capture cur; f_alts := f_alts cur;
         f_seq := rev (List.map unit_term s) ++ f_seq cur |} stack.
Proof.
  pose proof (RegExpFacts.parse_tokens_units s [] groups cur stack) as E.
  rewrite app_nil_r in E. exact E.
Qed.

Lemma parse_literal (s : jsstring) :
  literal s = true ->
  parse s = Ok (alternative (rev (List.map unit_term s)), 0%nat).
Proof.
  intro H. unfold parse. rewrite tokens_literal_text by exact H.
  rewrite parse_tokens_literal_text. cbn. rewrite app_nil_r. reflexivity.
Qed.

Lemma parse_line_start_literal (s : jsstring) :
  literal s = true ->
  parse (js "^" ++ s)
  = Ok (alternative (rev (List.map unit_term s) ++ [line_start_term]),
        0%nat).
Proof.
  intro H. unfold parse.
  change (tokens (js "^" ++ s)) with (TAssert LineStart :: tokens s).
  rewrite tokens_literal_text by exact H.
  cbn [parse_tokens]. rewrite parse_tokens_literal_text. reflexivity.
Qed.

Lemma parse_space_literal (s : jsstring) :
  literal s = true ->
  parse (js "\s" ++ s)
  = Ok (alternative (rev (List.map unit_term s) ++ [space_term]), 0%nat).
Proof.
  intro H. unfold parse.
  change (tokens (js "\s" ++ s))
    with (TAtom (Class false ClassS) :: tokens s).
  rewrite tokens_literal_text by exact H.
  cbn [parse_tokens]. rewrite parse_tokens_literal_text. reflexivity.
Qed.

Section Scan.

Variable toUpperCase : code_unit -> list code_unit.
Variable input : jsstring.
Variable ignoreCase : bool.

(** A pattern that matches at [j] exactly when [p j] is found at the
    first such index. *)
Lemma scan_find_first (r : node) (groups : nat) (p : nat -> bool)
  (y : nat -> state) :
  (forall j, match_at toUpperCase input ignoreCase r groups j
             = if p j then Some (y j) else None) ->
  forall n i,
    scan toUpperCase input ignoreCase r groups n i
    = option_map (fun j => (j, y j)) (find_first p n i).
Proof.
  intros H. induction n as [|n IH]; intro i; [reflexivity|].
  cbn [scan find_first]. rewrite H. destruct (p i); [reflexivity|apply IH].
Qed.

End Scan.

Lemma find_first_ext (p q : nat -> bool) :
  (forall j, p j = q j) -> forall n i, find_first p n i = find_first q n i.
Proof.
  intros H. induction n as [|n IH]; intro i; [reflexivity|].
  cbn [find_first]. rewrite H, IH. reflexivity.
Qed.

Lemma find_first_start (p : nat -> bool) (n : nat) :
  find_first (fun j => (j =? 0)%nat && p j) (S n) 0
  = if p 0%nat then Some 0%nat else None.
Proof.
  cbn [find_first Nat.eqb andb]. destruct (p 0%nat); [reflexivity|].
  assert (H : forall m i, find_first (fun j => (j =? 0)%nat && p j) m (S i)
                          = None).
  { induction m as [|m IH]; intro i; [reflexivity|].
    cbn [find_first Nat.eqb andb]. apply IH. }
  apply H.
Qed.

(** What [find_first] finds. *)
Lemma find_first_some (p : nat -> bool) :
  forall n i j,
    find_first p n i = Some j ->
    (i <= j < i + n)%nat /\ p j = true
    /\ forall k, (i <= k < j)%nat -> p k = false.
Proof.
  induction n as [|n IH]; intros i j H; [discriminate|].
  cbn [find_first] in H. destruct (p i) eqn:E.
  - injection H as <-. split; [lia|]. split; [exact E|]. intros k Hk. lia.
  - destruct (IH _ _ H) as [Hr [Hp Hk]]. split; [lia|]. split; [exact Hp|].
    intros k Hki. destruct (Nat.eq_dec k i) as [->|Hne]; [exact E|].
    apply Hk. lia.
Qed.

Lemma find_first_none (p : nat -> bool) :
  forall n i,
    find_first p n i = None ->
    forall k, (i <= k < i + n)%nat -> p k = false.
Proof.
  induction n as [|n IH]; intros i H k Hk; [lia|].
  cbn [find_first] in H. destruct (p i) eqn:E; [discriminate|].
  destruct (Nat.eq_dec k i) as [->|Hne]; [exact E|].
  apply (IH _ H). lia.
Qed.

Lemma find_first_found (p : nat -> bool) :
  forall n i k,
    (i <= k < i + n)%nat -> p k = true ->
    (forall j, (i <= j < k)%nat -> p j = false) ->
    find_first p n i = Some k.
Proof.
  induction n as [|n IH]; intros i k Hk Hp Hbefore; [lia|].
  cbn [find_first]. destruct (Nat.eq_dec i k) as [->|Hne].
  - rewrite Hp. reflexivity.
  - rewrite (Hbefore i) by lia. apply IH; [lia|exact Hp|].
    intros j Hj. apply Hbefore. lia.
Qed.

Section Patterns.

Variable toUpperCase : code_unit -> list code_unit.
Variable input : jsstring.
Variable ignoreCase : bool.

(** The pattern made of literal units. *)
Lemma match_at_literal (s : jsstring) (i : nat) :
  match_at toUpperCase input ignoreCase
    (alternative (rev (List.map unit_term s))) 0 i
  = if stands_at toUpperCase ignoreCase s input i
    then Some {| endIndex := i + List.length s; caps := [] |} else None.
Proof.
  unfold match_at. rewrite RegExpUnits.matcher_alternative, rev_involutive.
  cbn [repeat]. rewrite RegExpUnits.matcher_terms_same_units. reflexivity.
Qed.

(** The units after the start of the text. *)
Lemma match_at_line_start_literal (s : jsstring) (i : nat) :
  match_at toUpperCase input ignoreCase
    (alternative (rev (List.map unit_term s) ++ [line_start_term])) 0 i
  = if (i =? 0)%nat && stands_at toUpperCase ignoreCase s input i
    then Some {| endIndex := i + List.length s; caps := [] |} else None.
Proof.
  unfold match_at.
  rewrite RegExpUnits.matcher_alternative, rev_app_distr, rev_involutive.
  cbn [rev app repeat matcher_terms fold_right line_start_term t_node matcher
       endIndex].
  destruct (i =? 0)%nat; [|reflexivity]. cbn [andb].
  fold (matcher_terms toUpperCase input ignoreCase (List.length input)
          (List.map unit_term s) (fun y => Some y)).
  rewrite RegExpUnits.matcher_terms_same_units. reflexivity.
Qed.

(** The units between the start and the end of the text. *)
Lemma match_at_anchored_literal (s : jsstring) (i : nat) :
  match_at toUpperCase input ignoreCase
    (alternative
       (line_end_term :: rev (List.map unit_term s) ++ [line_start_term])) 0 i
  = if (i =? 0)%nat && same_units toUpperCase ignoreCase s input
    then Some {| endIndex := i + List.length s; caps := [] |} else None.
Proof.
  unfold match_at. rewrite RegExpUnits.matcher_alternative.
  cbn [rev]. rewrite rev_app_distr, rev_involutive.
  cbn [rev app repeat]. unfold matcher_terms.
  cbn [fold_right line_start_term t_node matcher endIndex].
  destruct (Nat.eqb_spec i 0) as [->|Hne]; [|reflexivity]. cbn [andb].
  rewrite fold_right_app.
  cbn [fold_right line_end_term t_node matcher].
  fold (matcher_terms toUpperCase input ignoreCase (List.length input)
          (List.map unit_term s)
          (fun y => if (endIndex y =? List.length input)%nat
                    then Some y else None)).
  rewrite RegExpUnits.matcher_terms_same_units.
  rewrite (RegExpUnits.same_units_whole toUpperCase ignoreCase s input).
  cbn [skipn endIndex Nat.add].
  match goal with
  | |- (if ?a then if ?b then _ else _ else _)
       = (if ?a' && ?b' then _ else _) =>
    change a' with a; change b' with b; destruct a, b; reflexivity
  end.
Qed.

End Patterns.

End RegExpPatterns.

Module RegExpExec.
Import RegExp.

Section Exec.

Variable toUpperCase : code_unit -> list code_unit.

(** White space, then the units. *)
Lemma match_at_space_literal (input s : jsstring) (i : nat) :
  match_at toUpperCase input true
    (alternative (rev (List.map unit_term s) ++ [space_term])) 0 i
  = if word_starts_at toUpperCase s input i
    then Some {| endIndex := S i + List.length s; caps := [] |} else None.
Proof.
  unfold match_at.
  rewrite RegExpUnits.matcher_alternative, rev_app_distr, rev_involutive.
  cbn [rev app repeat matcher_terms fold_right space_term t_node matcher
       endIndex].
  unfold word_starts_at.
  destruct (nth_error input i) as [ch|]; [|reflexivity].
  destruct (in_set toUpperCase true (Class false ClassS) ch); [|reflexivity].
  cbn [andb]. unfold advance. cbn [endIndex caps].
  fold (matcher_terms toUpperCase input true (List.length input)
          (List.map unit_term s) (fun y => Some y)).
  rewrite RegExpUnits.matcher_terms_same_units. reflexivity.
Qed.

Lemma new_RegExp_of_parse (pattern : jsstring) (f : flags) (r : node)
  (n : nat) :
  parse pattern = Ok (r, n) ->
  new_RegExp pattern f
  = Ok {| body := r; group_count := n; flags_of := f |}.
Proof. intro H. unfold new_RegExp. rewrite H. reflexivity. Qed.

Lemma stands_at_inside (ignoreCase : bool) (s t : jsstring) (i : nat) :
  stands_at toUpperCase ignoreCase s t i = true ->
  (i + List.length s <= List.length t)%nat
  \/ (List.length s = 0%nat).
Proof.
  unfold stands_at. intro H. apply RegExpUnits.same_units_length in H.
  rewrite length_firstn, length_skipn in H.
  unfold jsstring, JsString.t, code_unit, JsString.code_unit in *. lia.
Qed.

Lemma substring_length (t : jsstring) (a n : nat) :
  (a + n <= List.length t)%nat \/ n = 0%nat ->
  JsString.length (JsString.substring t a (a + n)) = Z.of_nat n.
Proof.
  intro H. unfold JsString.length, JsString.substring. f_equal.
  rewrite length_firstn, length_skipn.
  unfold jsstring, JsString.t, code_unit, JsString.code_unit in *. lia.
Qed.

(** [^s$] tests the whole text. *)
Lemma test_anchored (s t : jsstring) (f : flags) :
  test toUpperCase
    {| body := alternative
                 (line_end_term
                    :: rev (List.map unit_term s) ++ [line_start_term]);
       group_count := 0; flags_of := f |} t
  = same_units toUpperCase (ignore_case f) s t.
Proof.
  unfold test, exec, exec_from. cbn [body group_count flags_of].
  rewrite (RegExpPatterns.scan_find_first toUpperCase t (ignore_case f) _ 0
             (fun j => (j =? 0)%nat
                       && same_units toUpperCase (ignore_case f) s t)
             (fun j => {| endIndex := j + List.length s; caps := [] |})
             (RegExpPatterns.match_at_anchored_literal toUpperCase t
                (ignore_case f) s)).
  rewrite Nat.sub_0_r.
  rewrite (RegExpPatterns.find_first_start
             (fun _ => same_units toUpperCase (ignore_case f) s t)).
  destruct (same_units toUpperCase (ignore_case f) s t); reflexivity.
Qed.

(** [^s] finds the units at the start. *)
Lemma exec_line_start_literal (s t : jsstring) (f : flags) :
  exec toUpperCase
    {| body := alternative (rev (List.map unit_term s) ++ [line_start_term]);
       group_count := 0; flags_of := f |} t
  = if stands_at toUpperCase (ignore_case f) s t 0
    then Some {| index := 0;
                 whole := JsString.substring t 0 (List.length s);
                 groups := [] |}
    else None.
Proof.
  unfold exec, exec_from. cbn [body group_count flags_of].
  rewrite (RegExpPatterns.scan_find_first toUpperCase t (ignore_case f) _ 0
             (fun j => (j =? 0)%nat
                       && stands_at toUpperCase (ignore_case f) s t j)
             (fun j => {| endIndex := j + List.length s; caps := [] |})
             (RegExpPatterns.match_at_line_start_literal toUpperCase t
                (ignore_case f) s)).
  rewrite Nat.sub_0_r.
  rewrite (RegExpPatterns.find_first_start
             (stands_at toUpperCase (ignore_case f) s t)).
  destruct (stands_at toUpperCase (ignore_case f) s t 0); reflexivity.
Qed.

(** [\ss] finds the first white space with the units after it. *)
Lemma exec_space_literal (s t : jsstring) :
  exec toUpperCase
    {| body := alternative (rev (List.map unit_term s) ++ [space_term]);
       group_count := 0; flags_of := flag_i |} t
  = option_map
      (fun i => {| index := Z.of_nat i;
                   whole := JsString.substring t i (S i + List.length s);
                   groups := [] |})
      (find_first (word_starts_at toUpperCase s t) (S (List.length t)) 0).
Proof.
  unfold exec, exec_from. cbn [body group_count flags_of ignore_case flag_i].
  rewrite (RegExpPatterns.scan_find_first toUpperCase t true _ 0
             (word_starts_at toUpperCase s t)
             (fun j => {| endIndex := S j + List.length s; caps := [] |})
             (fun j => match_at_space_literal t s j)).
  rewrite Nat.sub_0_r.
  destruct (find_first (word_starts_at toUpperCase s t) (S (List.length t)) 0);
    reflexivity.
Qed.

(** [s] finds the first place where the units stand. *)
Lemma exec_literal (s t : jsstring) (f : flags) :
  exec toUpperCase
    {| body := alternative (rev (List.map unit_term s));
       group_count := 0; flags_of := f |} t
  = option_map
      (fun i => {| index := Z.of_nat i;
                   whole := JsString.substring t i (i + List.length s);
                   groups := [] |})
      (find_first (stands_at toUpperCase (ignore_case f) s t)
         (S (List.length t)) 0).
Proof.
  unfold exec, exec_from. cbn [body group_count flags_of].
  rewrite (RegExpPatterns.scan_find_first toUpperCase t (ignore_case f) _ 0
             (stands_at toUpperCase (ignore_case f) s t)
             (fun j => {| endIndex := j + List.length s; caps := [] |})
             (RegExpPatterns.match_at_literal toUpperCase t (ignore_case f) s)).
  rewrite Nat.sub_0_r.
  destruct (find_first (stands_at toUpperCase (ignore_case f) s t)
              (S (List.length t)) 0); reflexivity.
Qed.

End Exec.

End RegExpExec.

(** ** The scorer on a plain query *)

Section PlainQuery.

Variable toUpperCase : JsString.code_unit -> list JsString.code_unit.

Context {TItem : Type}.

Lemma plain_query_search_string (stringToRank : jsstring)
  (options : RankItemOptions.t TItem) :
  plain_query stringToRank options ->
  search_string toUpperCase stringToRank options = Ok stringToRank.
Proof.
  intros [_ [Hk|Ho]]; unfold search_string.
  - rewrite Hk. reflexivity.
  - destruct (negb (truthy (RankItemOptions.keepDiacritics options)));
      [apply searchRegex_outside; exact Ho|reflexivity].
Qed.

(** The scorer on a plain query: the pattern steps as tests on the
    units. *)
Lemma getMatchRanking_plain (testString stringToRank : jsstring)
  (options : RankItemOptions.t TItem) :
  plain_query stringToRank options ->
  getMatchRanking toUpperCase testString stringToRank options
  = if same_units toUpperCase false stringToRank testString
    then Ok CaseSensitiveEqual
    else if same_units toUpperCase true stringToRank testString
    then Ok Equal
    else if occurs_at toUpperCase stringToRank testString 0
    then Ok (StartsWith (JsString.length stringToRank))
    else
      match find_first (word_starts_at toUpperCase stringToRank testString)
              (S (List.length testString)) 0 with
      | Some i =>
        Ok (WordStartsWith (Z.of_nat i + 1) (JsString.length stringToRank))
      | None =>
        match find_first (occurs_at toUpperCase stringToRank testString)
                (S (List.length testString)) 0 with
        | Some i => Ok (Contains (Z.of_nat i) (JsString.length stringToRank))
        | None => last_steps toUpperCase testString stringToRank
        end
      end.
Proof.
  intro Hp. pose proof (plain_query_search_string Hp) as Hs.
  destruct Hp as [Hl _].
  unfold getMatchRanking, pattern_ranking.
  unfold search_string in Hs. rewrite Hs. cbn [bind].
  rewrite !(RegExpExec.new_RegExp_of_parse _ _
              (RegExpFacts.parse_anchored_literal stringToRank Hl)).
  rewrite !(RegExpExec.new_RegExp_of_parse _ _
              (RegExpPatterns.parse_line_start_literal stringToRank Hl)).
  rewrite !(RegExpExec.new_RegExp_of_parse _ _
              (RegExpPatterns.parse_space_literal stringToRank Hl)).
  rewrite !(RegExpExec.new_RegExp_of_parse _ _
              (RegExpPatterns.parse_literal stringToRank Hl)).
  cbn [bind].
  change {| RegExp.t_node := RegExp.LineEnd; RegExp.t_atom := false |}
    with line_end_term.
  change {| RegExp.t_node := RegExp.LineStart; RegExp.t_atom := false |}
    with line_start_term.
  rewrite !RegExpExec.test_anchored.
  cbn [RegExp.ignore_case RegExp.no_flags RegExp.flag_i].
  destruct (same_units toUpperCase false stringToRank testString);
    [reflexivity|].
  destruct (same_units toUpperCase true stringToRank testString);
    [reflexivity|].
  rewrite RegExpExec.exec_line_start_literal.
  cbn [RegExp.ignore_case RegExp.flag_i]. unfold occurs_at at 1.
  destruct (stands_at toUpperCase true stringToRank testString 0) eqn:E0.
  { cbn [bind RegExp.whole]. f_equal. f_equal.
    apply (RegExpExec.substring_length testString 0).
    exact (RegExpExec.stands_at_inside _ _ _ _ _ E0). }
  rewrite RegExpExec.exec_space_literal.
  destruct (find_first (word_starts_at toUpperCase stringToRank testString)
              (S (List.length testString)) 0) as [i|] eqn:Ew.
  { cbn [option_map bind RegExp.whole RegExp.index]. f_equal. f_equal.
    destruct (@RegExpPatterns.find_first_some _ _ _ _ Ew) as [_ [Hw _]].
    unfold word_starts_at in Hw.
    destruct (nth_error testString i) as [ch|] eqn:En; [|discriminate].
    apply andb_prop in Hw. destruct Hw as [_ Ho].
    pose proof (RegExpExec.stands_at_inside _ _ _ _ _ Ho) as Hin.
    assert (Hi : (i < List.length testString)%nat).
    { apply nth_error_Some. rewrite En. discriminate. }
    change (S i + List.length stringToRank)%nat
      with (S (i + List.length stringToRank)).
    replace (S (i + List.length stringToRank))
      with (i + S (List.length stringToRank))%nat by lia.
    rewrite RegExpExec.substring_length; [|left].
    - unfold JsString.length. lia.
    - unfold jsstring, JsString.t, JsString.code_unit in *.
      destruct Hin as [Hin|Hin]; lia. }
  cbn [option_map].
  rewrite RegExpExec.exec_literal.
  cbn [RegExp.ignore_case RegExp.flag_i].
  change (stands_at toUpperCase true stringToRank testString)
    with (occurs_at toUpperCase stringToRank testString).
  destruct (find_first (occurs_at toUpperCase stringToRank testString)
              (S (List.length testString)) 0) as [i|] eqn:Ec.
  { cbn [option_map bind RegExp.whole RegExp.index]. f_equal. f_equal.
    destruct (@RegExpPatterns.find_first_some _ _ _ _ Ec) as [_ [Ho _]].
    apply RegExpExec.substring_length.
    exact (RegExpExec.stands_at_inside _ _ _ _ _ Ho). }
  cbn [option_map]. reflexivity.
Qed.

Lemma last_steps_rank (testString stringToRank : jsstring) (m : MatchRanking) :
  last_steps toUpperCase testString stringToRank = Ok m ->
  rank m <= rankings.ACRONYM.
Proof.
  unfold last_steps.
  destruct (acronym_ranking toUpperCase testString stringToRank)
    as [[found|]| |] eqn:E; cbn [bind]; try discriminate;
    intro H; injection H as <-.
  - revert E. unfold acronym_ranking.
    repeat match goal with
    | |- bind ?x _ = _ -> _ => destruct x; cbn [bind]; try discriminate
    | |- match ?x with Some _ => _ | None => _ end = _ -> _ => destruct x
    end;
    intro H; try discriminate H; injection H as <-; cbn.
    apply Z.le_refl.
  - rewrite getClosenessRanking_positions.
    destruct stringToRank as [|c q]; [discriminate|].
    destruct (subsequence_positions testString (c :: q) 0); discriminate.
Qed.

Lemma same_units_reflexive (ignoreCase : bool) (s : jsstring) :
  same_units toUpperCase ignoreCase s s = true.
Proof.
  induction s as [|a s IH]; [reflexivity|].
  cbn. rewrite RegExpFacts.same_unit_refl. exact IH.
Qed.

Lemma same_units_stands_at (ignoreCase : bool) (s t : jsstring) :
  same_units toUpperCase ignoreCase s t = true ->
  stands_at toUpperCase ignoreCase s t 0 = true.
Proof.
  rewrite RegExpUnits.same_units_whole. intro H. apply andb_prop in H.
  exact (proj1 H).
Qed.

Lemma occurs_at_excludes (s t : jsstring) :
  occurs_at toUpperCase s t 0 = false ->
  same_units toUpperCase false s t = false
  /\ same_units toUpperCase true s t = false.
Proof.
  intro H. split.
  - destruct (same_units toUpperCase false s t) eqn:E; [|reflexivity].
    apply RegExpUnits.same_units_exact in E. subst t.
    unfold occurs_at in H.
    rewrite (same_units_stands_at true s s (same_units_reflexive true s))
      in H. discriminate H.
  - destruct (same_units toUpperCase true s t) eqn:E; [|reflexivity].
    unfold occurs_at in H. rewrite (same_units_stands_at _ _ _ E) in H.
    discriminate H.
Qed.

Lemma occurs_at_excludes_not (s t : jsstring) :
  same_units toUpperCase false s t = true ->
  t = s /\ same_units toUpperCase true s t = true.
Proof.
  intro H. apply RegExpUnits.same_units_exact in H. subst t.
  split; [reflexivity|apply same_units_reflexive].
Qed.

Lemma same_units_exact_false (s t : jsstring) :
  same_units toUpperCase false s t = false <-> t <> s.
Proof.
  split.
  - intros H E. subst t. rewrite same_units_reflexive in H. discriminate.
  - intro H. destruct (same_units toUpperCase false s t) eqn:E;
      [|reflexivity].
    apply RegExpUnits.same_units_exact in E. congruence.
Qed.

Lemma word_starts_at_occurs (s t : jsstring) (i : nat) :
  word_starts_at toUpperCase s t i = true ->
  occurs_at toUpperCase s t (S i) = true
  /\ (S i <= List.length t)%nat.
Proof.
  unfold word_starts_at.
  destruct (nth_error t i) as [ch|] eqn:E; [|discriminate].
  intro H. apply andb_prop in H. split; [exact (proj2 H)|].
  apply nth_error_Some. rewrite E. discriminate.
Qed.

(** X21. A plain query is ranked CASE_SENSITIVE_EQUAL exactly against the
    same text, and EQUAL exactly against another text with the same units
    when case is ignored. *)
Theorem getMatchRanking_plain_equal (testString stringToRank : jsstring)
  (options : RankItemOptions.t TItem) :
  plain_query stringToRank options ->
  (getMatchRanking toUpperCase testString stringToRank options
   = Ok CaseSensitiveEqual
   <-> testString = stringToRank)
  /\ (getMatchRanking toUpperCase testString stringToRank options = Ok Equal
      <-> (testString <> stringToRank
           /\ same_units toUpperCase true stringToRank testString = true)).
Proof.
  intro Hp. rewrite (getMatchRanking_plain testString Hp).
  destruct (same_units toUpperCase false stringToRank testString) eqn:E1.
  { apply RegExpUnits.same_units_exact in E1. subst testString.
    split; split; try discriminate; try reflexivity.
    intros [H _]. contradiction. }
  apply same_units_exact_false in E1.
  destruct (same_units toUpperCase true stringToRank testString) eqn:E2.
  { split; split; try discriminate; try congruence; auto. }
  split; split; try (intros [_ H]; discriminate H); try congruence;
    intro H; exfalso;
    repeat match type of H with
    | (if ?b then _ else _) = _ => destruct b; try discriminate H
    | match ?x with Some _ => _ | None => _ end = _ =>
      destruct x; try discriminate H
    end;
    apply last_steps_rank in H; exact (H eq_refl).
Qed.

Lemma occurs_at_found (s t : jsstring) (i : nat) :
  (i <= List.length t)%nat ->
  occurs_at toUpperCase s t i = true ->
  find_first (occurs_at toUpperCase s t) (S (List.length t)) 0 <> None.
Proof.
  intros Hi Ho E.
  rewrite (@RegExpPatterns.find_first_none _ _ _ E i) in Ho by lia.
  discriminate Ho.
Qed.

(** X22. A plain query is ranked STARTS_WITH or better exactly when the
    text starts with it, case ignored. *)
Theorem getMatchRanking_plain_starts_with (testString stringToRank : jsstring)
  (options : RankItemOptions.t TItem) :
  plain_query stringToRank options ->
  ((exists m,
      getMatchRanking toUpperCase testString stringToRank options = Ok m
      /\ rankings.STARTS_WITH <= rank m)
   <-> occurs_at toUpperCase stringToRank testString 0 = true)
  /\ (forall length,
        getMatchRanking toUpperCase testString stringToRank options
        = Ok (StartsWith length)
        <-> (length = JsString.length stringToRank
             /\ occurs_at toUpperCase stringToRank testString 0 = true
             /\ same_units toUpperCase true stringToRank testString
                = false)).
Proof.
  intro Hp. rewrite (getMatchRanking_plain testString Hp).
  destruct (occurs_at toUpperCase stringToRank testString 0) eqn:E0.
  - destruct (same_units toUpperCase false stringToRank testString) eqn:E1;
      [|destruct (same_units toUpperCase true stringToRank testString)
          eqn:E2].
    + apply RegExpUnits.same_units_exact in E1. subst testString.
      rewrite same_units_reflexive. split.
      * split; [reflexivity|]. intros _. exists CaseSensitiveEqual.
        split; [reflexivity|discriminate].
      * intro length. split; [discriminate|]. intros [_ [_ H]].
        discriminate H.
    + split.
      * split; [reflexivity|]. intros _. exists Equal.
        split; [reflexivity|discriminate].
      * intro length. split; [discriminate|]. intros [_ [_ H]].
        discriminate H.
    + split.
      * split; [reflexivity|]. intros _.
        exists (StartsWith (JsString.length stringToRank)).
        split; [reflexivity|apply Z.le_refl].
      * intro length. split.
        -- intro H. injection H as <-. repeat split.
        -- intros [-> _]. reflexivity.
  - destruct (occurs_at_excludes _ _ E0) as [-> ->]. split.
    + split; [|discriminate]. intros [m [H Hm]]. exfalso.
      repeat match type of H with
      | match ?x with Some _ => _ | None => _ end = _ => destruct x
      end;
      [injection H as <-; exact (Hm eq_refl)
      |injection H as <-; exact (Hm eq_refl)|].
      apply last_steps_rank in H. unfold rankings.STARTS_WITH in Hm.
      unfold rankings.ACRONYM in H. clear - H Hm. lia.
    + intro length. split; [|intros [_ [H _]]; discriminate H].
      intro H. exfalso.
      repeat match type of H with
      | match ?x with Some _ => _ | None => _ end = _ =>
        destruct x; try discriminate H
      end.
      apply last_steps_rank in H. exact (H eq_refl).
Qed.

(** X23. The WORD_STARTS_WITH result of a plain query. *)
Theorem getMatchRanking_plain_word_starts_with
  (testString stringToRank : jsstring) (options : RankItemOptions.t TItem)
  (index length : Z) :
  plain_query stringToRank options ->
  getMatchRanking toUpperCase testString stringToRank options
  = Ok (WordStartsWith index length)
  <-> (length = JsString.length stringToRank
       /\ occurs_at toUpperCase stringToRank testString 0 = false
       /\ exists k : nat,
            index = Z.of_nat k + 1
            /\ word_starts_at toUpperCase stringToRank testString k = true
            /\ forall j, (j < k)%nat ->
                 word_starts_at toUpperCase stringToRank testString j
                 = false).
Proof.
  intro Hp. rewrite (getMatchRanking_plain testString Hp).
  destruct (occurs_at toUpperCase stringToRank testString 0) eqn:E0.
  - split; [|intros [_ [H _]]; discriminate H].
    intro H. exfalso.
    repeat match type of H with
    | (if ?b then _ else _) = _ => destruct b; try discriminate H
    end.
  - destruct (occurs_at_excludes _ _ E0) as [-> ->].
    destruct (find_first (word_starts_at toUpperCase stringToRank testString)
                (S (List.length testString)) 0) as [i|] eqn:Ew.
    + destruct (@RegExpPatterns.find_first_some _ _ _ _ Ew) as [_ [Hw Hb]].
      split.
      * intro H. injection H as <- <-. repeat split.
        exists i. repeat split; [exact Hw|]. intros j Hj. apply Hb. lia.
      * intros [-> [_ [k [-> [Hk Hkb]]]]].
        destruct (word_starts_at_occurs _ _ _ Hk) as [_ Hlen].
        rewrite (@RegExpPatterns.find_first_found _
                   (S (List.length testString)) 0 k ltac:(lia) Hk) in Ew
          by (intros j Hj; apply Hkb; lia).
        injection Ew as <-. reflexivity.
    + split.
      * intro H. exfalso.
        repeat match type of H with
        | match ?x with Some _ => _ | None => _ end = _ =>
          destruct x; try discriminate H
        end.
        apply last_steps_rank in H. exact (H eq_refl).
      * intros [_ [_ [k [_ [Hk _]]]]]. exfalso.
        destruct (word_starts_at_occurs _ _ _ Hk) as [_ Hlen].
        rewrite (@RegExpPatterns.find_first_none _ _ _ Ew k) in Hk by lia.
        discriminate Hk.
Qed.

(** A plain query is ranked CONTAINS or better exactly when it stands
    somewhere in the text, case ignored. *)
Lemma getMatchRanking_plain_occurs (testString stringToRank : jsstring)
  (options : RankItemOptions.t TItem) :
  plain_query stringToRank options ->
  (exists m,
     getMatchRanking toUpperCase testString stringToRank options = Ok m
     /\ rankings.CONTAINS <= rank m)
  <-> exists i : nat,
        (i <= List.length testString)%nat
        /\ occurs_at toUpperCase stringToRank testString i = true.
Proof.
  intro Hp. rewrite (getMatchRanking_plain testString Hp). split.
  - intros [m [H Hm]].
    destruct (same_units toUpperCase false stringToRank testString) eqn:E1;
      [exists 0%nat; split; [lia|];
       exact (same_units_stands_at _ _ _
                (proj2 (occurs_at_excludes_not _ _ E1)))|].
    destruct (same_units toUpperCase true stringToRank testString) eqn:E2;
      [exists 0%nat; split; [lia|];
       exact (same_units_stands_at _ _ _ E2)|].
    destruct (occurs_at toUpperCase stringToRank testString 0) eqn:E0;
      [exists 0%nat; split; [lia|exact E0]|].
    destruct (find_first
                (word_starts_at toUpperCase stringToRank testString)
                (S (List.length testString)) 0) as [i|] eqn:Ew.
    { destruct (@RegExpPatterns.find_first_some _ _ _ _ Ew) as [_ [Hw _]].
      destruct (word_starts_at_occurs _ _ _ Hw) as [Ho Hlen].
      exists (S i). split; [exact Hlen|exact Ho]. }
    destruct (find_first (occurs_at toUpperCase stringToRank testString)
                (S (List.length testString)) 0) as [i|] eqn:Ec.
    { destruct (@RegExpPatterns.find_first_some _ _ _ _ Ec) as [Hi [Ho _]].
      exists i. split; [lia|exact Ho]. }
    exfalso. apply last_steps_rank in H.
    unfold rankings.CONTAINS in Hm. unfold rankings.ACRONYM in H.
    clear - H Hm. lia.
  - intros [i [Hi Ho]].
    pose proof (occurs_at_found _ _ Hi Ho) as Hfound.
    repeat match goal with
    | |- context [if ?b then _ else _] => destruct b
    | |- context [match ?x with Some _ => _ | None => _ end] =>
      destruct x
    end;
    try (eexists; split; [reflexivity|discriminate]).
    contradiction.
Qed.

(** X24. A plain query is ranked CONTAINS or better exactly when it
    stands somewhere in the text, case ignored; the CONTAINS result has
    the first such index. *)
Theorem getMatchRanking_plain_contains (testString stringToRank : jsstring)
  (options : RankItemOptions.t TItem) :
  plain_query stringToRank options ->
  ((exists m,
      getMatchRanking toUpperCase testString stringToRank options = Ok m
      /\ rankings.CONTAINS <= rank m)
   <-> exists i : nat,
         (i <= List.length testString)%nat
         /\ occurs_at toUpperCase stringToRank testString i = true)
  /\ (forall index length,
        getMatchRanking toUpperCase testString stringToRank options
        = Ok (Contains index length) ->
        length = JsString.length stringToRank
        /\ exists k : nat,
             index = Z.of_nat k
             /\ occurs_at toUpperCase stringToRank testString k = true
             /\ (forall j, (j < k)%nat ->
                   occurs_at toUpperCase stringToRank testString j = false)
             /\ (forall j,
                   word_starts_at toUpperCase stringToRank testString j
                   = false)).
Proof.
  intro Hp. split; [exact (getMatchRanking_plain_occurs testString Hp)|].
  rewrite (getMatchRanking_plain testString Hp).
  intros index length H.
  destruct (same_units toUpperCase false stringToRank testString);
    [discriminate H|].
  destruct (same_units toUpperCase true stringToRank testString);
    [discriminate H|].
  destruct (occurs_at toUpperCase stringToRank testString 0);
    [discriminate H|].
  destruct (find_first (word_starts_at toUpperCase stringToRank testString)
              (S (List.length testString)) 0) as [i|] eqn:Ew;
    [discriminate H|].
  destruct (find_first (occurs_at toUpperCase stringToRank testString)
              (S (List.length testString)) 0) as [i|] eqn:Ec.
  + injection H as <- <-.
    destruct (@RegExpPatterns.find_first_some _ _ _ _ Ec) as [_ [Ho Hb]].
    split; [reflexivity|]. exists i. repeat split; [exact Ho| |].
    * intros j Hj. apply Hb. lia.
    * intro j.
      destruct (Nat.le_gt_cases j (List.length testString)) as [Hj|Hj].
      -- apply (@RegExpPatterns.find_first_none _ _ _ Ew j). lia.
      -- unfold word_starts_at.
         rewrite (proj2 (nth_error_None testString j)) by lia.
         reflexivity.
  + apply last_steps_rank in H. exfalso. exact (H eq_refl).
Qed.

(** X1. Without accessors and with the threshold CONTAINS, a plain query
    filters by containment: rankItem returns a result that passed exactly
    when the query stands somewhere in the item, case ignored.  Every
    result has the item as rankedValue, accessorIndex -1, the threshold
    as accessorThreshold and passed = (rank >= threshold). *)
Theorem rankItem_contains_filter (testString value : jsstring)
  (options : RankItemOptions.t TItem) :
  plain_query value options ->
  RankItemOptions.accessors options = None ->
  RankItemOptions.threshold options = Some rankings.CONTAINS ->
  ((exists result,
      snd (rankItem toUpperCase (Str testString) value (Some options))
      = Ok result
      /\ RankingInfo.passed result = true)
   <-> exists i : nat,
         (i <= List.length testString)%nat
         /\ occurs_at toUpperCase value testString i = true)
  /\ (forall result,
        snd (rankItem toUpperCase (Str testString) value (Some options))
        = Ok result ->
        RankingInfo.rankedValue result = Str testString
        /\ RankingInfo.accessorIndex result = -1
        /\ RankingInfo.accessorThreshold result = Some rankings.CONTAINS
        /\ RankingInfo.passed result
           = (RankingInfo.rank result >=? rankings.CONTAINS)).
Proof.
  intros Hp Hacc Ht.
  assert (E : snd (rankItem toUpperCase (Str testString) value (Some options))
              = let* matchRanking :=
                  getMatchRanking toUpperCase testString value options in
                Ok {| RankingInfo.rankedValue := Str testString;
                      RankingInfo.matchRanking := matchRanking;
                      RankingInfo.accessorIndex := -1;
                      RankingInfo.accessorThreshold := Some rankings.CONTAINS;
                      RankingInfo.passed :=
                        rank matchRanking >=? rankings.CONTAINS |}).
  { unfold rankItem.
    cbn [snd with_threshold RankItemOptions.accessors]. rewrite Hacc.
    unfold threshold_or_default. rewrite Ht. reflexivity. }
  rewrite E. clear E.
  rewrite <- (getMatchRanking_plain_occurs testString Hp).
  destruct (getMatchRanking toUpperCase testString value options)
    as [m| |]; cbn [bind].
  - split.
    + split.
      * intros [result [H Hpassed]]. injection H as <-.
        cbn [RankingInfo.passed] in Hpassed. exists m.
        split; [reflexivity|]. apply Z.geb_le in Hpassed. exact Hpassed.
      * intros [m' [H Hm]]. injection H as <-. eexists.
        split; [reflexivity|]. cbn [RankingInfo.passed].
        apply Z.geb_le. exact Hm.
    + intros result H. injection H as <-. repeat split.
  - split.
    + split; [intros [result [H _]]|intros [m' [H _]]]; discriminate H.
    + intros result H. discriminate H.
  - split.
    + split; [intros [result [H _]]|intros [m' [H _]]]; discriminate H.
    + intros result H. discriminate H.
Qed.

End PlainQuery.

(** X1 at an input: "LL" in "hello", with keepDiacritics. *)
Lemma rankItem_contains_filter_witness :
  ((exists result,
      snd (rankItem toUpperCase_latin1 (Str (js "hello") : JsValue unit)
             (js "LL") (Some contains_filter))
      = Ok result
      /\ RankingInfo.passed result = true)
   <-> exists i : nat,
         (i <= List.length (js "hello"))%nat
         /\ occurs_at toUpperCase_latin1 (js "LL") (js "hello") i = true)
  /\ (forall result,
        snd (rankItem toUpperCase_latin1 (Str (js "hello") : JsValue unit)
               (js "LL") (Some contains_filter))
        = Ok result ->
        RankingInfo.rankedValue result = Str (js "hello")
        /\ RankingInfo.accessorIndex result = -1
        /\ RankingInfo.accessorThreshold result = Some rankings.CONTAINS
        /\ RankingInfo.passed result
           = (RankingInfo.rank result >=? rankings.CONTAINS)).
Proof.
  apply (@rankItem_contains_filter toUpperCase_latin1 unit (js "hello")
           (js "LL") contains_filter).
  - split; [reflexivity|left; reflexivity].
  - reflexivity.
  - reflexivity.
Defined.

(** X21 at an input: "Hello" against "hello", with keepDiacritics. *)
Lemma getMatchRanking_plain_equal_witness :
  (getMatchRanking toUpperCase_latin1 (js "hello") (js "Hello")
     (keep_diacritics : RankItemOptions.t unit)
   = Ok CaseSensitiveEqual
   <-> js "hello" = js "Hello")
  /\ (getMatchRanking toUpperCase_latin1 (js "hello") (js "Hello")
        (keep_diacritics : RankItemOptions.t unit)
      = Ok Equal
      <-> (js "hello" <> js "Hello"
           /\ same_units toUpperCase_latin1 true (js "Hello") (js "hello")
              = true)).
Proof.
  apply (@getMatchRanking_plain_equal toUpperCase_latin1 unit (js "hello")
           (js "Hello") keep_diacritics).
  split; [reflexivity|left; reflexivity].
Defined.

(** X22 at an input: "HEL" against "hello". *)
Lemma getMatchRanking_plain_starts_with_witness :
  ((exists m,
      getMatchRanking toUpperCase_latin1 (js "hello") (js "HEL")
        (keep_diacritics : RankItemOptions.t unit) = Ok m
      /\ rankings.STARTS_WITH <= rank m)
   <-> occurs_at toUpperCase_latin1 (js "HEL") (js "hello") 0 = true)
  /\ (forall length,
        getMatchRanking toUpperCase_latin1 (js "hello") (js "HEL")
          (keep_diacritics : RankItemOptions.t unit)
        = Ok (StartsWith length)
        <-> (length = JsString.length (js "HEL")
             /\ occurs_at toUpperCase_latin1 (js "HEL") (js "hello") 0 = true
             /\ same_units toUpperCase_latin1 true (js "HEL") (js "hello")
                = false)).
Proof.
  apply (@getMatchRanking_plain_starts_with toUpperCase_latin1 unit
           (js "hello") (js "HEL") keep_diacritics).
  split; [reflexivity|left; reflexivity].
Defined.

(** X23 at an input: "wor" against "hello world". *)
Lemma getMatchRanking_plain_word_starts_with_witness :
  getMatchRanking toUpperCase_latin1 (js "hello world") (js "wor")
    (keep_diacritics : RankItemOptions.t unit)
  = Ok (WordStartsWith 6 3)
  <-> (3 = JsString.length (js "wor")
       /\ occurs_at toUpperCase_latin1 (js "wor") (js "hello world") 0 = false
       /\ exists k : nat,
            6 = Z.of_nat k + 1
            /\ word_starts_at toUpperCase_latin1 (js "wor") (js "hello world")
                 k = true
            /\ forall j, (j < k)%nat ->
                 word_starts_at toUpperCase_latin1 (js "wor")
                   (js "hello world") j = false).
Proof.
  apply (@getMatchRanking_plain_word_starts_with toUpperCase_latin1 unit
           (js "hello world") (js "wor") keep_diacritics 6 3).
  split; [reflexivity|left; reflexivity].
Defined.

(** X24 at an input: "LL" against "hello". *)
Lemma getMatchRanking_plain_contains_witness :
  ((exists m,
      getMatchRanking toUpperCase_latin1 (js "hello") (js "LL")
        (keep_diacritics : RankItemOptions.t unit) = Ok m
      /\ rankings.CONTAINS <= rank m)
   <-> exists i : nat,
         (i <= List.length (js "hello"))%nat
         /\ occurs_at toUpperCase_latin1 (js "LL") (js "hello") i = true)
  /\ (forall index length,
        getMatchRanking toUpperCase_latin1 (js "hello") (js "LL")
          (keep_diacritics : RankItemOptions.t unit)
        = Ok (Contains index length) ->
        length = JsString.length (js "LL")
        /\ exists k : nat,
             index = Z.of_nat k
             /\ occurs_at toUpperCase_latin1 (js "LL") (js "hello") k = true
             /\ (forall j, (j < k)%nat ->
                   occurs_at toUpperCase_latin1 (js "LL") (js "hello") j
                   = false)
             /\ (forall j,
                   word_starts_at toUpperCase_latin1 (js "LL") (js "hello") j
                   = false)).
Proof.
  apply (@getMatchRanking_plain_contains toUpperCase_latin1 unit
           (js "hello") (js "LL") keep_diacritics).
  split; [reflexivity|left; reflexivity].
Defined.

(** ** The acronym pattern of a query with white space *)

Module RegExpParser.
Import RegExp.

Lemma tokens_closed_bound (n : nat) :
  forall p rest,
    (List.length p <= n)%nat ->
    lex_closed p = true ->
    tokens (p ++ rest) = tokens p ++ tokens rest.
Proof.
  induction n as [|n IH]; intros p rest Hn Hp.
  - destruct p; [reflexivity|cbn in Hn; lia].
  - destruct p as [|c r]; [reflexivity|].
    cbn [List.length] in Hn.
    cbn [lex_closed] in Hp. revert Hp.
    cbn [app tokens].
    destruct (c =? unit_of "\")%N.
    + destruct r as [|e r']; [discriminate|]. intro Hp.
      cbn [app]. rewrite (IH r' rest) by (cbn in Hn; try lia; assumption).
      reflexivity.
    + destruct (c =? unit_of "(")%N.
      * destruct r as [|q r1]; [discriminate|]. cbn [app].
        destruct (q =? unit_of "?")%N.
        -- destruct r1 as [|k r2]; [discriminate|]. cbn [app].
           destruct (k =? unit_of ":")%N; [|discriminate]. intro Hp.
           rewrite (IH r2 rest) by (cbn in Hn; try lia; assumption).
           reflexivity.
        -- intro Hp. change (q :: r1 ++ rest) with ((q :: r1) ++ rest).
           rewrite (IH (q :: r1) rest) by (try lia; assumption).
           reflexivity.
      * destruct (quantifier c) as [[min max]|].
        -- destruct r as [|q r']; [discriminate|]. cbn [app].
           destruct (q =? unit_of "?")%N; intro Hp.
           ++ rewrite (IH r' rest) by (cbn in Hn; try lia; assumption).
              reflexivity.
           ++ change (q :: r' ++ rest) with ((q :: r') ++ rest).
              rewrite (IH (q :: r') rest) by (try lia; assumption).
              reflexivity.
        -- intro Hp. rewrite (IH r rest) by (try lia; assumption).
           reflexivity.
Qed.

(** The tokens of a closed text and of what follows it. *)
Lemma tokens_closed (p rest : list code_unit) :
  lex_closed p = true -> tokens (p ++ rest) = tokens p ++ tokens rest.
Proof. apply (tokens_closed_bound (n := List.length p)). apply Nat.le_refl. Qed.

Lemma lex_closed_bound (n : nat) :
  forall p q,
    (List.length p <= n)%nat ->
    lex_closed p = true -> lex_closed q = true -> lex_closed (p ++ q) = true.
Proof.
  induction n as [|n IH]; intros p q Hn Hp Hq.
  - destruct p; [exact Hq|cbn in Hn; lia].
  - destruct p as [|c r]; [exact Hq|].
    cbn [List.length] in Hn.
    cbn [lex_closed] in Hp. revert Hp.
    cbn [app lex_closed].
    destruct (c =? unit_of "\")%N.
    + destruct r as [|e r']; [discriminate|]. intro Hp.
      cbn [app]. apply IH; [cbn in Hn; lia|exact Hp|exact Hq].
    + destruct (c =? unit_of "(")%N.
      * destruct r as [|x r1]; [discriminate|]. cbn [app].
        destruct (x =? unit_of "?")%N.
        -- destruct r1 as [|k r2]; [discriminate|]. cbn [app].
           destruct (k =? unit_of ":")%N; [|discriminate]. intro Hp.
           apply IH; [cbn in Hn; lia|exact Hp|exact Hq].
        -- intro Hp. change (x :: r1 ++ q) with ((x :: r1) ++ q).
           apply IH; [lia|exact Hp|exact Hq].
      * destruct (quantifier c) as [[min max]|].
        -- destruct r as [|x r']; [discriminate|]. cbn [app].
           destruct (x =? unit_of "?")%N; intro Hp.
           ++ apply IH; [cbn in Hn; lia|exact Hp|exact Hq].
           ++ change (x :: r' ++ q) with ((x :: r') ++ q).
              apply IH; [lia|exact Hp|exact Hq].
        -- intro Hp. apply IH; [lia|exact Hp|exact Hq].
Qed.

Lemma lex_closed_app (p q : list code_unit) :
  lex_closed p = true -> lex_closed q = true -> lex_closed (p ++ q) = true.
Proof. apply (lex_closed_bound (n := List.length p)). apply Nat.le_refl. Qed.

Lemma parser_runs_app (ts1 ts2 : list token) :
  forall depth atom,
    parser_runs (ts1 ++ ts2) depth atom
    = match parser_runs ts1 depth atom with
      | Open depth' atom' => parser_runs ts2 depth' atom'
      | stop => stop
      end.
Proof.
  induction ts1 as [|t ts1 IH]; intros depth atom; [reflexivity|].
  cbn [app parser_runs].
  destruct (parser_step t depth atom); [apply IH|reflexivity|reflexivity].
Qed.

(** The parser follows the run as long as it is open, and throws where
    the run throws. *)
Lemma parse_tokens_runs (ts : list token) :
  forall depth atom groups cur stack rest,
    List.length stack = depth ->
    quantifiable cur = atom ->
    match parser_runs ts depth atom with
    | Open depth' atom' =>
      exists groups' cur' stack',
        List.length stack' = depth'
        /\ quantifiable cur' = atom'
        /\ parse_tokens (ts ++ rest) groups cur stack
           = parse_tokens rest groups' cur' stack'
    | Throws =>
      parse_tokens (ts ++ rest) groups cur stack = Throw SyntaxError
    | Unmodelled => True
    end.
Proof.
  induction ts as [|t ts IH]; intros depth atom groups cur stack rest Hd Ha.
  - cbn. exists groups, cur, stack. auto.
  - cbn [app parser_runs].
    destruct t as [a|a|capture| | |min max greedy| |];
      cbn [parser_step parse_tokens].
    + apply IH; [exact Hd|reflexivity].
    + apply IH; [exact Hd|reflexivity].
    + destruct capture; apply IH; cbn; try reflexivity; lia.
    + destruct stack as [|parent stack']; cbn in Hd; subst depth;
        [reflexivity|].
      apply IH; reflexivity.
    + apply IH; [exact Hd|reflexivity].
    + subst atom. unfold quantifiable.
      destruct (f_seq cur) as [|[a [|]] before]; cbn [t_atom];
        try reflexivity.
      apply IH; [exact Hd|reflexivity].
    + reflexivity.
    + exact I.
Qed.

End RegExpParser.

Section AcronymPattern.

Variable toUpperCase : JsString.code_unit -> list JsString.code_unit.

Context {TItem : Type}.

(** The pieces of the units of the table: the parser throws in the piece
    of a white-space unit and goes through the others. *)
Lemma table_pieces :
  forallb
    (fun c => piece_check (is_white_space c) (acronym_piece toUpperCase [c]))
    table_units
  = true.
Proof. vm_compute. reflexivity. Qed.

Lemma white_space_in_table :
  forallb (fun w => negb (outside_table w)) RegExp.white_space = true.
Proof. vm_compute. reflexivity. Qed.

Lemma is_white_space_in_table (c : JsString.code_unit) :
  is_white_space c = true -> outside_table c = false.
Proof.
  unfold is_white_space. intro H. apply existsb_exists in H.
  destruct H as [w [Hw E]]. apply N.eqb_eq in E. subst w.
  apply negb_true_iff.
  exact (proj1 (forallb_forall _ _) white_space_in_table c Hw).
Qed.

Lemma literal_unit_differs (c d : RegExp.code_unit) :
  literal_unit c = true ->
  existsb (N.eqb d) pattern_units = true ->
  (c =? d)%N = false.
Proof.
  intros H Hd. destruct (c =? d)%N eqn:E; [|reflexivity].
  apply N.eqb_eq in E. subst d. unfold literal_unit in H.
  rewrite Hd in H. discriminate H.
Qed.

Lemma tokens_open_literal (c : RegExp.code_unit) (r : list RegExp.code_unit) :
  literal_unit c = true ->
  RegExp.tokens (RegExp.unit_of "(" :: c :: r)
  = RegExp.TOpen true :: RegExp.TAtom (RegExp.Char c) :: RegExp.tokens r.
Proof.
  intro H.
  change (RegExp.tokens (RegExp.unit_of "(" :: c :: r))
    with (if (c =? RegExp.unit_of "?")%N
          then match r with
               | k :: r2 => if (k =? RegExp.unit_of ":")%N
                            then RegExp.TOpen false :: RegExp.tokens r2
                            else [RegExp.TOutOfModel]
               | [] => [RegExp.TOutOfModel]
               end
          else RegExp.TOpen true :: RegExp.tokens (c :: r)).
  rewrite (@literal_unit_differs c _ H) by reflexivity.
  rewrite (RegExpFacts.tokens_literal_cons c r H). reflexivity.
Qed.

Lemma lex_closed_open_literal (c : RegExp.code_unit)
  (r : list RegExp.code_unit) :
  literal_unit c = true ->
  lex_closed (RegExp.unit_of "(" :: c :: r) = lex_closed r.
Proof.
  intro H.
  change (lex_closed (RegExp.unit_of "(" :: c :: r))
    with (if (c =? RegExp.unit_of "?")%N
          then match r with
               | k :: r2 => if (k =? RegExp.unit_of ":")%N
                            then lex_closed r2 else false
               | [] => false
               end
          else lex_closed (c :: r)).
  rewrite (@literal_unit_differs c _ H) by reflexivity.
  cbn [lex_closed]. unfold RegExp.quantifier.
  rewrite !(@literal_unit_differs c _ H) by reflexivity. reflexivity.
Qed.

(** The piece of a literal unit outside the table. *)
Lemma literal_piece (c : JsString.code_unit) :
  literal_unit c = true ->
  outside_table c = true ->
  piece_check false (acronym_piece toUpperCase [c]) = true.
Proof.
  intros Hl Ho. unfold acronym_piece.
  rewrite searchRegex_outside by (cbn [forallb]; rewrite Ho; reflexivity).
  cbn [bind]. unfold piece_check.
  change (js "(^|\s|-)(" ++ [c] ++ js ")(.*)")
    with (js "(^|\s|-)" ++ (RegExp.unit_of "(" :: c :: js ")(.*)")).
  rewrite RegExpParser.lex_closed_app;
    [|reflexivity|rewrite lex_closed_open_literal by exact Hl; reflexivity].
  rewrite RegExpParser.tokens_closed by reflexivity.
  rewrite tokens_open_literal by exact Hl.
  reflexivity.
Qed.

(** The piece of every literal unit. *)
Lemma acronym_piece_checked (c : JsString.code_unit) :
  literal_unit c = true ->
  piece_check (is_white_space c) (acronym_piece toUpperCase [c]) = true.
Proof.
  intro Hl. destruct (outside_or_in_table c) as [Ho|Hi].
  - destruct (is_white_space c) eqn:Ew.
    + rewrite (is_white_space_in_table c Ew) in Ho. discriminate Ho.
    + apply literal_piece; assumption.
  - exact (proj1 (forallb_forall _ _) table_pieces c Hi).
Qed.

(** The pieces of a literal query exist. *)
Lemma acronym_pieces (s : jsstring) :
  literal s = true ->
  exists pieces,
    map_outcome (acronym_piece toUpperCase) (JsString.split_units s)
    = Ok pieces
    /\ Forall2 (fun c p => piece_check (is_white_space c) (Ok p) = true)
         s pieces.
Proof.
  induction s as [|c s IH]; intro H.
  - exists []. split; [reflexivity|constructor].
  - cbn [literal forallb] in H. apply andb_prop in H. destruct H as [Hc Hs].
    destruct (IH Hs) as [pieces [Hp Hf]].
    pose proof (acronym_piece_checked c Hc) as Hk. revert Hk.
    unfold JsString.split_units in *. cbn [List.map map_outcome].
    destruct (acronym_piece toUpperCase [c]) as [p| |];
      try (intro Hk; discriminate Hk).
    intro Hk. exists (p :: pieces). cbn [bind]. rewrite Hp. cbn [bind].
    split; [reflexivity|]. constructor; assumption.
Qed.

Lemma piece_check_closed (throws : bool) (p : jsstring) :
  piece_check throws (Ok p) = true -> lex_closed p = true.
Proof. intro H. apply andb_prop in H. exact (proj1 H). Qed.

Lemma piece_check_runs (throws atom : bool) (p : jsstring) :
  piece_check throws (Ok p) = true ->
  parser_runs (RegExp.tokens p) 0 atom
  = if throws then Throws else Open 0 true.
Proof.
  intro H. apply andb_prop in H. destruct H as [_ H].
  cbn [forallb] in H. apply andb_prop in H. destruct H as [Hf H].
  apply andb_prop in H. destruct H as [Ht _].
  destruct atom.
  - destruct (parser_runs (RegExp.tokens p) 0 true) as [[|d] [|]| |];
      destruct throws; try discriminate; reflexivity.
  - destruct (parser_runs (RegExp.tokens p) 0 false) as [[|d] [|]| |];
      destruct throws; try discriminate; reflexivity.
Qed.

Lemma tokens_pieces (s : jsstring) (pieces : list jsstring) :
  Forall2 (fun c p => piece_check (is_white_space c) (Ok p) = true)
    s pieces ->
  RegExp.tokens (List.concat pieces)
  = List.concat (List.map RegExp.tokens pieces).
Proof.
  induction 1 as [|c p s pieces Hp Hf IH]; [reflexivity|].
  cbn [List.concat List.map].
  rewrite RegExpParser.tokens_closed by exact (@piece_check_closed _ _ Hp).
  rewrite IH. reflexivity.
Qed.

Lemma parser_runs_pieces (s : jsstring) (pieces : list jsstring) :
  Forall2 (fun c p => piece_check (is_white_space c) (Ok p) = true)
    s pieces ->
  existsb is_white_space s = true ->
  forall atom,
    parser_runs (List.concat (List.map RegExp.tokens pieces)) 0 atom
    = Throws.
Proof.
  induction 1 as [|c p s pieces Hp Hf IH]; intros Hw atom;
    [discriminate Hw|].
  cbn [List.concat List.map]. rewrite RegExpParser.parser_runs_app.
  rewrite (@piece_check_runs _ atom _ Hp).
  cbn [existsb] in Hw.
  destruct (is_white_space c); [reflexivity|].
  apply IH. exact Hw.
Qed.

(** The acronym pattern of a literal query with a white-space unit is
    not a pattern. *)
Lemma acronym_ranking_white_space (testString stringToRank : jsstring) :
  literal stringToRank = true ->
  existsb is_white_space stringToRank = true ->
  acronym_ranking toUpperCase testString stringToRank = Throw SyntaxError.
Proof.
  intros Hl Hw. destruct (acronym_pieces stringToRank Hl) as [pieces [Hp Hf]].
  unfold acronym_ranking. rewrite Hp. cbn [bind].
  assert (E : RegExp.parse (List.concat pieces) = Throw SyntaxError).
  { unfold RegExp.parse. rewrite (tokens_pieces Hf).
    pose proof (@RegExpParser.parse_tokens_runs
                  (List.concat (List.map RegExp.tokens pieces))
                  0%nat false 0%nat (RegExp.new_frame None) [] []
                  eq_refl eq_refl) as H.
    rewrite (parser_runs_pieces Hf Hw false) in H.
    rewrite app_nil_r in H. exact H. }
  unfold RegExp.new_RegExp. rewrite E. reflexivity.
Qed.

(** The pattern steps either return one of their first five results or
    come to the acronym step. *)
Lemma pattern_ranking_steps (testString stringToRank : jsstring)
  (options : RankItemOptions.t TItem) (found : option MatchRanking) :
  pattern_ranking toUpperCase testString stringToRank options = Ok found ->
  (exists m, found = Some m /\ rankings.CONTAINS <= rank m)
  \/ acronym_ranking toUpperCase testString stringToRank = Ok found.
Proof.
  unfold pattern_ranking, acronym_ranking.
  repeat match goal with
  | |- bind (map_outcome _ _) _ = _ -> _ => intro H; right; exact H
  | |- bind ?x _ = _ -> _ => destruct x; cbn [bind]; try discriminate
  | |- (if ?b then _ else _) = _ -> _ => destruct b
  | |- match ?x with Some _ => _ | None => _ end = _ -> _ => destruct x
  end;
  intro H; injection H as <-; left; eexists; (split; [reflexivity|]);
  discriminate.
Qed.

(** X25. A query of literal units with a white-space unit in it is never
    ranked ACRONYM, MATCHES or NO_MATCH, whatever the options: the pattern
    of the acronym step is then not a pattern.  When such a query is plain
    and stands nowhere in the text, the scorer throws a SyntaxError. *)
Theorem getMatchRanking_white_space_query
  (testString stringToRank : jsstring) (options : RankItemOptions.t TItem) :
  literal stringToRank = true ->
  existsb is_white_space stringToRank = true ->
  (forall m,
     getMatchRanking toUpperCase testString stringToRank options = Ok m ->
     rankings.CONTAINS <= rank m)
  /\ (plain_query stringToRank options ->
      (forall i, (i <= List.length testString)%nat ->
         occurs_at toUpperCase stringToRank testString i = false) ->
      getMatchRanking toUpperCase testString stringToRank options
      = Throw SyntaxError).
Proof.
  intros Hl Hw.
  pose proof (@acronym_ranking_white_space testString stringToRank Hl Hw) as Ha.
  split.
  - intros m. unfold getMatchRanking.
    destruct (pattern_ranking toUpperCase testString stringToRank options)
      as [found| |] eqn:E; cbn [bind]; try discriminate.
    destruct (@pattern_ranking_steps _ _ _ _ E) as [[m' [-> Hm]]|H].
    + intro H. injection H as <-. exact Hm.
    + rewrite Ha in H. discriminate H.
  - intros Hp Hn.
    rewrite (@getMatchRanking_plain toUpperCase TItem testString
               stringToRank options Hp).
    pose proof (Hn 0%nat ltac:(lia)) as E0.
    destruct (@occurs_at_excludes toUpperCase _ _ E0) as [-> ->]. rewrite E0.
    destruct (find_first (word_starts_at toUpperCase stringToRank testString)
                (S (List.length testString)) 0) as [i|] eqn:Ew.
    { exfalso.
      destruct (@RegExpPatterns.find_first_some _ _ _ _ Ew) as [_ [Hk _]].
      destruct (@word_starts_at_occurs toUpperCase _ _ _ Hk) as [Ho Hi].
      rewrite (Hn (S i) Hi) in Ho. discriminate Ho. }
    destruct (find_first (occurs_at toUpperCase stringToRank testString)
                (S (List.length testString)) 0) as [i|] eqn:Ec.
    { exfalso.
      destruct (@RegExpPatterns.find_first_some _ _ _ _ Ec) as [Hi [Ho _]].
      rewrite (Hn i) in Ho by lia. discriminate Ho. }
    unfold last_steps. rewrite Ha. reflexivity.
Qed.

End AcronymPattern.

(** X25 at an input: the query [f f] against a text where it does not
    stand. *)
Lemma getMatchRanking_white_space_query_witness :
  getMatchRanking toUpperCase_latin1 (js "fred flintstone") (js "f f")
    (keep_diacritics : RankItemOptions.t unit)
  = Throw SyntaxError.
Proof.
  apply (proj2 (@getMatchRanking_white_space_query toUpperCase_latin1 unit
                  (js "fred flintstone") (js "f f") keep_diacritics
                  eq_refl eq_refl)).
  - split; [reflexivity|left; reflexivity].
  - intros i Hi.
    do 16 (destruct i as [|i]; [reflexivity|]).
    exfalso. cbn in Hi. lia.
Defined.
